(** * Eloverit: outreach scoring and delivery pipeline

    A shallow embedding of the parts of [emailer.py], [scoring.py] and
    [main.py] that expand templates, score content and prospects, gate
    messages and run the delivery queue, with the properties the
    specification states about them; and of the prospect store of
    [users.py], the signal scanner of [jobs_scraper.py] and the sequences
    of [trust_story_builder.py], with properties read off the code.

    Conventions of the embedding:
    - text is [string] (8-bit characters; case and white space follow the
      ASCII tables, so the results speak about ASCII text);
    - Python floats are exact rationals [Q]: every constant of the source
      (0.25, 1.5, 0.3, ...) is read as the decimal fraction it is written
      as, and the arithmetic is exact. A float result can differ from the
      rational one in its last digits (0.9 - 0.3 is 0.6000000000000001),
      and a sum that falls on a rounding tie can round to the other tenth;
      where that can happen the value is stated up to [float_tolerance];
    - a [datetime] is a number of microseconds [Z]; [isoformat] and
      [fromisoformat] of the JSON files are inverse to one another and the
      records keep the datetime itself;
    - the random module is a tape of raw draws [Rng]; the world clock only
      moves where the source calls [time.sleep];
    - a dict is the list of its items in insertion order; a JSON file is the
      dict it holds, and a function that loads, changes and saves it maps
      the dict before to the dict after;
    - a field of a prospect, which comes from a cell of an uploaded table,
      is a text or the [nan] of an empty cell;
    - an exception is a value of the result: a call that raises returns
      which exception, and stores nothing it had not saved before;
    - the order in which [list(set)] enumerates is a parameter. *)
From Stdlib Require Import Bool Arith ZArith NArith QArith Qround Qabs Lia Lqa.
From Stdlib Require Import Sorted List.
From Stdlib Require Import Ascii String.
Import ListNotations.

Open Scope string_scope.
Open Scope Z_scope.

(** ** Python string primitives *)
Module PyStr.

Definition code (c : ascii) : N := N_of_ascii c.

Definition char_eqb (a b : ascii) : bool := Ascii.eqb a b.

(** [c.isupper()] and [c.islower()] for one character. *)
Definition is_upper_char (c : ascii) : bool :=
  (65 <=? code c)%N && (code c <=? 90)%N.

Definition is_lower_char (c : ascii) : bool :=
  (97 <=? code c)%N && (code c <=? 122)%N.

(** White space as [str.split()] and [str.isspace] understand it. *)
Definition is_space_char (c : ascii) : bool :=
  ((9 <=? code c)%N && (code c <=? 13)%N)
  || ((28 <=? code c)%N && (code c <=? 32)%N).

Definition lower_char (c : ascii) : ascii :=
  if is_upper_char c then ascii_of_N (code c + 32) else c.

(** [s.lower()] *)
Fixpoint lower (s : string) : string :=
  match s with
  | EmptyString => EmptyString
  | String c s' => String (lower_char c) (lower s')
  end.

(** [sum(1 for c in s if c.isupper())] *)
Fixpoint count_upper (s : string) : nat :=
  match s with
  | EmptyString => O
  | String c s' => ((if is_upper_char c then 1 else 0) + count_upper s')%nat
  end.

Fixpoint has_upper (s : string) : bool :=
  match s with
  | EmptyString => false
  | String c s' => is_upper_char c || has_upper s'
  end.

Fixpoint has_lower (s : string) : bool :=
  match s with
  | EmptyString => false
  | String c s' => is_lower_char c || has_lower s'
  end.

(** [s.isupper()]: at least one cased character and no lower-case one. *)
Definition isupper (s : string) : bool := has_upper s && negb (has_lower s).

(** [c in s] for a single character. *)
Fixpoint mem_char (c : ascii) (s : string) : bool :=
  match s with
  | EmptyString => false
  | String d s' => char_eqb c d || mem_char c s'
  end.

(** [sub in s] *)
Fixpoint contains (sub s : string) : bool :=
  match s with
  | EmptyString => prefix sub EmptyString
  | String _ s' => prefix sub s || contains sub s'
  end.

(** [s.count(sub)]: occurrences found left to right without overlap;
    [skip] is the number of characters still covered by the last match. *)
Fixpoint count_from (sub : string) (skip : nat) (s : string) : nat :=
  match s with
  | EmptyString => O
  | String _ s' =>
      match skip with
      | S k => count_from sub k s'
      | O => if prefix sub s
             then S (count_from sub (String.length sub - 1) s')
             else count_from sub O s'
      end
  end.

Definition count (sub s : string) : nat :=
  match sub with
  | EmptyString => S (String.length s)
  | _ => count_from sub O s
  end.

(** [s.replace(old, new)] for a non-empty [old]; [skip] as in [count_from]. *)
Fixpoint replace_from (old new : string) (skip : nat) (s : string) : string :=
  match s with
  | EmptyString => EmptyString
  | String c s' =>
      match skip with
      | S k => replace_from old new k s'
      | O => if prefix old s
             then new ++ replace_from old new (String.length old - 1) s'
             else String c (replace_from old new O s')
      end
  end.

(** With an empty [old] Python puts [new] around every character. *)
Fixpoint intersperse (new s : string) : string :=
  match s with
  | EmptyString => new
  | String c s' => new ++ String c (intersperse new s')
  end.

Definition replace (old new s : string) : string :=
  match old with
  | EmptyString => intersperse new s
  | _ => replace_from old new O s
  end.

(** [s.split(sep)] for a one-character separator: [cur] is the piece being
    read, in reverse. *)
Fixpoint rev_string (acc s : string) : string :=
  match s with
  | EmptyString => acc
  | String c s' => rev_string (String c acc) s'
  end.

Fixpoint split_on_from (sep : ascii) (cur : string) (s : string) : list string :=
  match s with
  | EmptyString => [rev_string EmptyString cur]
  | String c s' =>
      if char_eqb c sep
      then rev_string EmptyString cur :: split_on_from sep EmptyString s'
      else split_on_from sep (String c cur) s'
  end.

Definition split_on (sep : ascii) (s : string) : list string :=
  split_on_from sep EmptyString s.

(** [len(s.split())]: the number of maximal runs of non-space characters;
    [inword] says whether the previous character belonged to a word. *)
Fixpoint word_count_from (inword : bool) (s : string) : nat :=
  match s with
  | EmptyString => O
  | String c s' =>
      if is_space_char c then word_count_from false s'
      else ((if inword then 0 else 1) + word_count_from true s')%nat
  end.

Definition word_count (s : string) : nat := word_count_from false s.

(** [any(w in s for w in words)] *)
Definition any_in (words : list string) (s : string) : bool :=
  existsb (fun w => contains w s) words.

(** [a > b] on floats. *)
Definition Qgtb (a b : Q) : bool := negb (Qle_bool a b).

End PyStr.

(** ** The random module *)
Module Random.

(** The generator is a tape of raw draws; an exhausted tape yields 0. *)
Definition Rng := list N.

Definition draw (g : Rng) : N * Rng :=
  match g with
  | [] => (0%N, [])
  | r :: g' => (r, g')
  end.

(** [random.random()]: a 53-bit fraction in [0, 1). *)
Definition random (g : Rng) : Q * Rng :=
  let (r, g') := draw g in
  (Z.of_N (r mod 2 ^ 53) # Pos.pow 2 53, g').

(** [random.uniform(a, b)] is [a + (b - a) * random()]. *)
Definition uniform (a b : Q) (g : Rng) : Q * Rng :=
  let (u, g') := random g in
  ((a + (b - a) * u)%Q, g').

(** [random.randint(a, b)] with [a <= b]: an integer of [a .. b]. *)
Definition randint (a b : Z) (g : Rng) : Z * Rng :=
  let (r, g') := draw g in
  (a + Z.of_N r mod (b - a + 1), g').

(** [random.choice(seq)] on a non-empty sequence; [d] stands for the
    [IndexError] of an empty one, which no caller reaches. *)
Definition choice {A} (d : A) (seq : list A) (g : Rng) : A * Rng :=
  let (r, g') := draw g in
  (nth (N.to_nat r mod List.length seq) seq d, g').

End Random.

(** ** emailer.py: templates, spam score and the delivery queue *)
Module Emailer.
Import PyStr Random.

Definition lbrace : ascii := "{"%char.
Definition rbrace : ascii := "}"%char.
Definition pipe : ascii := "|"%char.

Definition is_brace (c : ascii) : bool := char_eqb c lbrace || char_eqb c rbrace.

(** *** process_spintax *)

(** The longest brace-free prefix of [s] (what [[^{}]*] consumes), and
    what follows it. *)
Fixpoint span_no_brace (s : string) : string * string :=
  match s with
  | EmptyString => (EmptyString, EmptyString)
  | String c s' =>
      if is_brace c then (EmptyString, s)
      else let (g, r) := span_no_brace s' in (String c g, r)
  end.

(** A brace-free [g] matches [[^{}]+\|[^{}]+] exactly when one of its
    pipes is neither its first nor its last character. *)
Fixpoint pipe_before_last (g : string) : bool :=
  match g with
  | String c (String _ _ as t) => char_eqb c pipe || pipe_before_last t
  | _ => false
  end.

Definition is_group (g : string) : bool :=
  match g with
  | String _ t => pipe_before_last t
  | EmptyString => false
  end.

Definition starts_with (c : ascii) (s : string) : bool :=
  match s with
  | String d _ => char_eqb c d
  | EmptyString => false
  end.

(** The callback of [re.sub]: [random.choice(match.group(1).split('|'))]. *)
Definition replace_spintax (group1 : string) (g : Rng) : string * Rng :=
  choice EmptyString (split_on pipe group1) g.

(** [re.sub(r'\{([^{}]+\|[^{}]+)\}', replace_spintax, text)]: one pass,
    left to right, over the matches that do not overlap; [skip] counts the
    characters of the match being replaced that are still to be dropped. *)
Fixpoint re_sub (skip : nat) (text : string) (g : Rng) : string * Rng :=
  match text with
  | EmptyString => (EmptyString, g)
  | String c rest =>
      match skip with
      | S k => re_sub k rest g
      | O =>
          let (group1, tail) := span_no_brace rest in
          if char_eqb c lbrace && is_group group1 && starts_with rbrace tail
          then let (opt, g1) := replace_spintax group1 g in
               let (out, g2) := re_sub (S (String.length group1)) rest g1 in
               (opt ++ out, g2)
          else let (out, g1) := re_sub O rest g in
               (String c out, g1)
      end
  end.

(** The guard of the [while] loop. *)
Definition has_spintax_chars (text : string) : bool :=
  mem_char lbrace text && mem_char pipe text && mem_char rbrace text.

(** The [while] loop; [None] when [fuel] passes did not end it. *)
Fixpoint spintax_loop (fuel : nat) (text : string) (g : Rng)
  : option (string * Rng) :=
  if has_spintax_chars text then
    match fuel with
    | O => None
    | S fuel' => let (text', g') := re_sub O text g in spintax_loop fuel' text' g'
    end
  else Some (text, g).

(** [text.replace(f'{{{key}}}', str(value))] *)
Definition replace_variable (text : string) (kv : string * string) : string :=
  replace (String lbrace (fst kv ++ String rbrace EmptyString)) (snd kv) text.

(** The [for key, value in variables.items()] loop; a dict is the list of
    its items in insertion order, [None] and [{}] both the empty list. *)
Definition substitute_variables (text : string) (variables : list (string * string))
  : string :=
  fold_left replace_variable variables text.

Definition process_spintax (fuel : nat) (text : string)
    (variables : list (string * string)) (g : Rng) : option (string * Rng) :=
  spintax_loop fuel (substitute_variables text variables) g.


(** *** check_spam_score *)

Inductive exn : Type := ZeroDivisionError.

(** What a call gives back: its value, or the exception it raised. *)
Inductive result (A : Type) : Type :=
| Ok (a : A)
| Raised (e : exn).
Arguments Ok {A} a.
Arguments Raised {A} e.

Definition len (s : string) : Z := Z.of_nat (String.length s).

(** [a / b] on integers: true division, which raises on a zero divisor. *)
Definition truediv (a b : Z) : result Q :=
  if b =? 0 then Raised ZeroDivisionError else Ok (a # Z.to_pos b).

(** [max(0, score)] *)
Definition max0 (score : Q) : Q := if Qgtb score 0 then score else 0%Q.

Definition subject_spam_words : list string := ["free"; "guarantee"; "urgent"].
Definition spam_phrases : list string :=
  ["click here"; "act now"; "limited time"; "risk free"].

(** The score once [caps_ratio] is known: everything from
    "if caps_ratio > 0.3" to the [return]. *)
Definition score_body (score : Q) (caps_ratio : Q) (body : string) : Q :=
  let body_lower := lower body in
  let score := if Qgtb caps_ratio 0.3 then (score + 2)%Q else score in
  let score :=
    fold_left
      (fun score phrase =>
         if contains phrase body_lower then (score + 1.5)%Q else score)
      spam_phrases score in
  let link_count := count "http" body_lower in
  let score := if (3 <? link_count)%nat then (score + 2)%Q else score in
  let score := if (3 <? count "!" body_lower)%nat then (score + 1)%Q else score in
  let score := if (2 <? count "$" body_lower)%nat then (score + 2)%Q else score in
  let score := if contains "unsubscribe" body_lower then (score - 1)%Q else score in
  let score :=
    if (50 <? word_count body)%nat && (word_count body <? 300)%nat
    then (score - 0.5)%Q else score in
  max0 score.

(** The score of the subject line: the three checks before the body. *)
Definition score_subject (subject : string) : Q :=
  let score := 0%Q in
  let subject_lower := lower subject in
  let score := if 100 <? len subject then (score + 2)%Q else score in
  let score := if isupper subject then (score + 3)%Q else score in
  let score :=
    if any_in subject_spam_words subject_lower then (score + 2)%Q else score in
  score.

Definition check_spam_score (subject body : string) : result Q :=
  let score := score_subject subject in
  match truediv (Z.of_nat (count_upper body)) (len body) with
  | Raised e => Raised e
  | Ok caps_ratio => Ok (score_body score caps_ratio body)
  end.

(** *** The queue and history stores *)

Definition datetime : Type := Z.

(** [timedelta(minutes=k)] and [timedelta(hours=k)], in microseconds. *)
Definition minutes (k : Z) : Z := k * 60000000.
Definition hours (k : Z) : Z := k * 3600000000.

(** The three values the ['status'] field takes. *)
Inductive Status : Type := Queued | Sent | Failed.

Definition status_eqb (a b : Status) : bool :=
  match a, b with
  | Queued, Queued | Sent, Sent | Failed, Failed => true
  | _, _ => false
  end.

(** One entry of a queue: the dict [email_entry]. *)
Record Email : Type := mkEmail {
  email_id : string;
  prospect_id : string;
  subject : string;
  body : string;
  storyscore : Z;
  queued_at : datetime;
  status : Status;
  attempts : Z;
  scheduled_for : datetime;
  sent_at : option datetime
}.

Definition set_status (v : Status) (e : Email) : Email :=
  mkEmail (email_id e) (prospect_id e) (subject e) (body e) (storyscore e)
          (queued_at e) v (attempts e) (scheduled_for e) (sent_at e).

Definition set_attempts (v : Z) (e : Email) : Email :=
  mkEmail (email_id e) (prospect_id e) (subject e) (body e) (storyscore e)
          (queued_at e) (status e) v (scheduled_for e) (sent_at e).

Definition set_scheduled_for (v : datetime) (e : Email) : Email :=
  mkEmail (email_id e) (prospect_id e) (subject e) (body e) (storyscore e)
          (queued_at e) (status e) (attempts e) v (sent_at e).

Definition set_sent_at (v : datetime) (e : Email) : Email :=
  mkEmail (email_id e) (prospect_id e) (subject e) (body e) (storyscore e)
          (queued_at e) (status e) (attempts e) (scheduled_for e) (Some v).

(** A JSON file of the form [{user_id: [entry, ...]}]: the items of the dict
    in insertion order. *)
Definition Db : Type := list (string * list Email).

(** [db.get(user_id)] *)
Fixpoint db_get (user_id : string) (db : Db) : option (list Email) :=
  match db with
  | [] => None
  | (k, v) :: db' => if String.eqb k user_id then Some v else db_get user_id db'
  end.

(** [db.get(user_id, [])] *)
Definition db_list (user_id : string) (db : Db) : list Email :=
  match db_get user_id db with
  | Some v => v
  | None => []
  end.

(** [db[user_id] = v]: an existing key keeps its place, a new one goes last. *)
Fixpoint db_set (user_id : string) (v : list Email) (db : Db) : Db :=
  match db with
  | [] => [(user_id, v)]
  | (k, v') :: db' =>
      if String.eqb k user_id then (k, v) :: db'
      else (k, v') :: db_set user_id v db'
  end.

(** [if user_id not in db: db[user_id] = []] and then
    [db[user_id].append(entry)]. *)
Definition db_append (user_id : string) (entry : Email) (db : Db) : Db :=
  db_set user_id (db_list user_id db ++ [entry]) db.

(** The two files [email_queue.json] and [email_history.json]. *)
Record Stores : Type := mkStores {
  email_queue : Db;
  email_history : Db
}.

(** *** queue_email *)
Section QueueEmail.

(** [hashlib.md5(s.encode()).hexdigest()] and [datetime.isoformat()]. *)
Variable md5_hexdigest : string -> string.
Variable isoformat : datetime -> string.

(** [now] is what [datetime.now()] reads during the call. *)
Definition queue_email (now : datetime) (g : Rng) (st : Stores)
    (user_id prospect_id subject body : string) (storyscore : Z)
  : string * Stores * Rng :=
  let queue := email_queue st in
  let email_id :=
    substring 0 8 (md5_hexdigest (user_id ++ prospect_id ++ isoformat now)) in
  let (delay, g') := randint 5 30 g in
  let email_entry :=
    mkEmail email_id prospect_id subject body storyscore
            now Queued 0 (now + minutes delay) None in
  let queue := db_append user_id email_entry queue in
  (email_id, mkStores queue (email_history st), g').

End QueueEmail.

(** *** process_queue *)
Section ProcessQueue.

(** The mail server: its state, and what a real SMTP delivery does to it;
    [false] is the exception the source catches. *)
Variable Wire : Type.
Variable smtp_deliver : Wire -> string -> Email -> bool * Wire.

(** [self.smtp_config['user']] *)
Variable smtp_user : string.

(** What a sweep runs in: the clock, the random generator, the mail server. *)
Record World : Type := mkWorld {
  clock : datetime;
  rng : Rng;
  wire : Wire
}.

(** [time.sleep(seconds)]: the clock moves on by that much. *)
Definition sleep (seconds : Q) (w : World) : World :=
  mkWorld (clock w + Qfloor (seconds * 1000000)) (rng w) (wire w).

(** [time.sleep(random.uniform(45, 90))] *)
Definition rate_limit (w : World) : World :=
  let (seconds, g') := uniform 45 90 (rng w) in
  sleep seconds (mkWorld (clock w) g' (wire w)).

(** [_send_email]: without an SMTP user the send is mocked and succeeds. *)
Definition _send_email (user_id : string) (email_data : Email) (w : World)
  : bool * World :=
  if String.eqb smtp_user "" then (true, w)
  else let (ok, wire') := smtp_deliver (wire w) user_id email_data in
       (ok, mkWorld (clock w) (rng w) wire').

(** What the loops carry along: [emails_sent], [history] and the world. *)
Record Sweep : Type := mkSweep {
  emails_sent : nat;
  history : Db;
  world : World
}.

(** The body of the inner loop for one [email]: the entry as the loop
    leaves it, and the state after it. *)
Definition dispatch (current_time : datetime) (user_id : string)
    (email : Email) (s : Sweep) : Email * Sweep :=
  if negb (status_eqb (status email) Queued) then (email, s)
  else
    let scheduled_time := scheduled_for email in
    if scheduled_time <=? current_time then
      let (success, w) := _send_email user_id email (world s) in
      if success then
        let email := set_sent_at current_time (set_status Sent email) in
        (email,
         mkSweep (S (emails_sent s)) (db_append user_id email (history s))
                 (rate_limit w))
      else
        let email := set_attempts (attempts email + 1) email in
        if 3 <=? attempts email
        then (set_status Failed email, mkSweep (emails_sent s) (history s) w)
        else (set_scheduled_for (current_time + hours 1) email,
              mkSweep (emails_sent s) (history s) w)
    else (email, s).

(** [for email in user_queue] *)
Fixpoint process_user_queue (current_time : datetime) (user_id : string)
    (user_queue : list Email) (s : Sweep) : list Email * Sweep :=
  match user_queue with
  | [] => ([], s)
  | email :: rest =>
      let (email', s1) := dispatch current_time user_id email s in
      let (rest', s2) := process_user_queue current_time user_id rest s1 in
      (email' :: rest', s2)
  end.

(** [for user_id, user_queue in queue.items()] *)
Fixpoint process_users (current_time : datetime) (queue : Db) (s : Sweep)
  : Db * Sweep :=
  match queue with
  | [] => ([], s)
  | (user_id, user_queue) :: rest =>
      let (user_queue', s1) :=
        process_user_queue current_time user_id user_queue s in
      let (rest', s2) := process_users current_time rest s1 in
      ((user_id, user_queue') :: rest', s2)
  end.

(** [e['status'] not in ['sent', 'failed']] *)
Definition still_active (e : Email) : bool :=
  negb (status_eqb (status e) Sent || status_eqb (status e) Failed).

(** The clean-up loop over [queue]. *)
Definition clean_up (queue : Db) : Db :=
  map (fun kv => (fst kv, filter still_active (snd kv))) queue.

Definition process_queue (st : Stores) (w : World) : nat * Stores * World :=
  let queue := email_queue st in
  let current_time := clock w in
  let (queue, s) :=
    process_users current_time queue (mkSweep 0 (email_history st) w) in
  let queue := clean_up queue in
  (emails_sent s, mkStores queue (history s), world s).

End ProcessQueue.

Arguments mkWorld {Wire} clock rng wire.
Arguments clock {Wire} w.
Arguments rng {Wire} w.
Arguments wire {Wire} w.
Arguments mkSweep {Wire} emails_sent history world.
Arguments emails_sent {Wire} s.
Arguments history {Wire} s.
Arguments world {Wire} s.
Arguments sleep {Wire} seconds w.
Arguments rate_limit {Wire} w.
Arguments _send_email {Wire} smtp_deliver smtp_user user_id email_data w.
Arguments dispatch {Wire} smtp_deliver smtp_user current_time user_id email s.
Arguments process_user_queue {Wire} smtp_deliver smtp_user current_time
  user_id user_queue s.
Arguments process_users {Wire} smtp_deliver smtp_user current_time queue s.
Arguments process_queue {Wire} smtp_deliver smtp_user st w.

(** *** get_queue_status *)

(** The dict [get_queue_status] returns. *)
Record QueueStatus : Type := mkQueueStatus {
  queued : nat;
  failed : nat;
  sent_today : nat;
  total_sent : nat
}.

(** [t.date()]: the day a datetime falls on. *)
Definition date (t : datetime) : Z := t / 86400000000.

(** [e.get('sent_at') and
    datetime.fromisoformat(e['sent_at']).date() == datetime.now().date()] *)
Definition was_sent_on (today : Z) (e : Email) : bool :=
  match sent_at e with
  | Some t => date t =? today
  | None => false
  end.

(** [sum(1 for e in l if test(e))] *)
Definition count_if (test : Email -> bool) (l : list Email) : nat :=
  List.length (filter test l).

(** [now] is what [datetime.now()] reads. *)
Definition get_queue_status (now : datetime) (st : Stores) (user_id : string)
  : QueueStatus :=
  let user_queue := db_list user_id (email_queue st) in
  let queued := count_if (fun e => status_eqb (status e) Queued) user_queue in
  let failed := count_if (fun e => status_eqb (status e) Failed) user_queue in
  let user_history := db_list user_id (email_history st) in
  let sent_today := count_if (was_sent_on (date now)) user_history in
  mkQueueStatus queued failed sent_today (List.length user_history).

End Emailer.

(** ** scoring.py: TrustScore and StoryScore *)
Module Scoring.
Import PyStr Random.

(** What the scores read of a prospect; a missing key reads as [''].  *)
Record Prospect : Type := mkProspect {
  title : string;
  email : string
}.

(** A signal dict that is present: ['timestamp'], and ['match_score'] when
    the dict has one. *)
Record Signal : Type := mkSignal {
  timestamp : string;
  match_score : option Q
}.

(** A stored LinkedIn profile; a field that is missing or empty is [''].  *)
Record Profile : Type := mkProfile {
  firstName : string;
  lastName : string;
  profile_email : string;
  headline : string;
  profilePicture : string
}.

Definition truthy (s : string) : bool := negb (String.eqb s "").

(** [min(a, b)] and [max(a, b)] on floats, as Python picks the result. *)
Definition pymin (a b : Q) : Q := if Qgtb a b then b else a.
Definition pymax (a b : Q) : Q := if Qgtb b a then b else a.

(** *** linkedin_auth.py: the LinkedIn trust score *)

Definition completeness (p : Profile) : Z :=
  (if truthy (firstName p) then 20 else 0)
  + (if truthy (lastName p) then 20 else 0)
  + (if truthy (profile_email p) then 20 else 0)
  + (if truthy (headline p) then 20 else 0)
  + (if truthy (profilePicture p) then 20 else 0).

Definition headline_quality (p : Profile) : Z :=
  if truthy (headline p) then
    (if (20 <? String.length (headline p))%nat then 30 else 0)
    + (if any_in ["executive"; "director"; "manager"; "vp"; "president"; "chief"]
                 (lower (headline p)) then 40 else 0)
    + (if any_in ["sap"; "oracle"; "dynamics"; "salesforce"; "qa"; "quality"]
                 (lower (headline p)) then 30 else 0)
  else 0.

(** [min(100, max(0, int(score)))] over the four weighted signals. *)
Definition calculate_linkedin_trust_score (p : Profile) : Z :=
  let score :=
    (inject_Z (completeness p) * 0.3
     + inject_Z (headline_quality p) * 0.3
     + inject_Z (if truthy (profilePicture p) then 100 else 0) * 0.2
     + 0 * 0.2)%Q in
  Z.min 100 (Z.max 0 (Qfloor score)).

(** *** The five components *)

Definition common_keywords : list string :=
  ["sap"; "oracle"; "dynamics"; "erp"; "crm"; "quality"; "qa"; "director";
   "manager"; "vp"].

(** [sum(1 for kw in common_keywords if kw in s)] *)
Definition keyword_count (s : string) : nat :=
  List.length (filter (fun kw => contains kw s) common_keywords).

(** [linkedin_profile] is what [linkedin_auth.get_user_profile(user_id)]
    returned. *)
Definition calculate_relationship_score (prospect : Prospect)
    (linkedin_profile : option Profile) (g : Rng) : Q * Rng :=
  let score := 0.3%Q in
  let score :=
    match linkedin_profile with
    | Some profile =>
        let linkedin_score :=
          (inject_Z (calculate_linkedin_trust_score profile) / 100)%Q in
        let score := (score + linkedin_score * 0.25)%Q in
        let prospect_title := lower (title prospect) in
        let user_headline := lower (headline profile) in
        if (0 <? keyword_count prospect_title)%nat
           && (0 <? keyword_count user_headline)%nat
        then (score + 0.15)%Q else score
    | None => score
    end in
  let (shared_connections, g1) := randint 0 5 g in
  let score :=
    if 0 <? shared_connections
    then (score + 0.1 * inject_Z (Z.min shared_connections 3))%Q else score in
  let score :=
    if contains "alumni" (lower (title prospect)) then (score + 0.2)%Q else score in
  let (chance, g2) := random g1 in
  let score := if Qgtb chance 0.7 then (score + 0.2)%Q else score in
  (pymin score 1.0, g2).

(** What [datetime.fromisoformat] makes of a string: a [ValueError], a naive
    datetime, or one with a time zone (which [datetime.now() - t] rejects
    with a [TypeError]). *)
Inductive parsed : Type :=
| ValueError
| Naive (t : Z)
| Aware (t : Z).

Definition microseconds_per_day : Z := 86400000000.

(** [timedelta.days]: whole days, rounded down. *)
Definition days (delta : Z) : Z := delta / microseconds_per_day.

Section TrustScore.

Variable fromisoformat : string -> parsed.

(** [now] is what [datetime.now()] reads; [None] is a missing signal. *)
Definition calculate_intent_freshness (now : Z) (signal : option Signal) : Q :=
  match signal with
  | None => 0.2
  | Some signal =>
      match fromisoformat (timestamp signal) with
      | Naive signal_time =>
          let days_old := days (now - signal_time) in
          if days_old <=? 1 then 1.0
          else if days_old <=? 3 then 0.9
          else if days_old <=? 7 then 0.7
          else if days_old <=? 14 then 0.5
          else if days_old <=? 30 then 0.3
          else 0.1
      | ValueError | Aware _ => 0.3
      end
  end.

Definition calculate_story_quality (prospect : Prospect) (signal : option Signal)
  : Q :=
  let score := 0.5%Q in
  let score :=
    match signal with
    | Some signal =>
        let match_score :=
          match match_score signal with Some m => m | None => 0.5%Q end in
        (0.3 + 0.7 * match_score)%Q
    | None => score
    end in
  let title := lower (title prospect) in
  let score :=
    if any_in ["director"; "vp"; "head of"; "manager"] title
    then (score + 0.1)%Q else score in
  pymin score 1.0.

Definition at_sign : ascii := "@"%char.

(** The float result is within a unit of the 16th digit of this rational:
    0.6000000000000001 for 0.9 - 0.3, and 0.4000000000000001 for
    0.9 - 0.3 - 0.2. *)
Definition calculate_deliverability (prospect : Prospect) : Q :=
  let email := email prospect in
  let domain :=
    if mem_char at_sign email then nth 1 (split_on at_sign email) "" else "" in
  let score := 0.9%Q in
  let free_domains := ["gmail.com"; "yahoo.com"; "hotmail.com"; "outlook.com"] in
  let score :=
    if existsb (String.eqb domain) free_domains then (score - 0.3)%Q else score in
  let local_part :=
    if mem_char at_sign email then nth 0 (split_on at_sign email) "" else "" in
  let score :=
    if any_in ["info"; "contact"; "admin"; "sales"] local_part
    then (score - 0.2)%Q else score in
  pymax score 0.1.

(** [round(x, 1)]: the nearest tenth, a tie going to the even one. The
    source rounds the float sum, which can lie a few units of the 16th
    digit off the rational sum rounded here; on a tie of the rational sum
    (50.25) the float one (50.25000000000001) can round to the other tenth,
    so the two results are each within 0.05 of the sum, up to that
    difference, and need not be equal. *)
Definition round_half_even (x : Q) : Z :=
  let f := Qfloor x in
  match (x - inject_Z f ?= 1 # 2)%Q with
  | Lt => f
  | Gt => f + 1
  | Eq => if Z.even f then f else f + 1
  end.

Definition round1 (x : Q) : Q := round_half_even (x * 10) # 10.

(** The weighted composite of [calculate_trustscore], before rounding. *)
Definition composite (relationship_score intent_score story_score
    deliverability_score engagement_score : Q) : Q :=
  100 * (0.25 * relationship_score
         + 0.25 * intent_score
         + 0.20 * story_score
         + 0.15 * deliverability_score
         + 0.15 * engagement_score).

Definition calculate_trustscore (prospect : Prospect)
    (linkedin_profile : option Profile) (signal : option Signal)
    (now : Z) (g : Rng) : Q * Rng :=
  let (relationship_score, g1) :=
    calculate_relationship_score prospect linkedin_profile g in
  let intent_score := calculate_intent_freshness now signal in
  let story_score := calculate_story_quality prospect signal in
  let deliverability_score := calculate_deliverability prospect in
  let (engagement_score, g2) := uniform 0.3 0.9 g1 in
  let trustscore :=
    composite relationship_score intent_score story_score
              deliverability_score engagement_score in
  (round1 trustscore, g2).



End TrustScore.

(** *** StoryScore *)

Definition mock_storyscore (email_body : string) : Z :=
  let score := 10 in
  let score :=
    if any_in ["noticed"; "saw your"; "your team"; "your company"]
              (lower email_body) then score + 2 else score in
  let score :=
    if any_in ["reduce"; "improve"; "increase"; "save"; "accelerate"]
              (lower email_body) then score + 2 else score in
  let score :=
    if any_in ["chat"; "connect"; "discuss"; "meeting"; "call"]
              (lower email_body) then score + 1 else score in
  let word_count := word_count email_body in
  let score :=
    if (150 <? word_count)%nat then score - 2
    else if (word_count <? 50)%nat then score - 1 else score in
  let score :=
    if any_in ["sap"; "oracle"; "dynamics"; "qa"; "automation"]
              (lower email_body) then score + 1 else score in
  Z.min (Z.max score 0) 20.

Section StoryScore.

(** [bool(openai.api_key)], and the [total_score] the model's answer gives
    for a body; [None] is any exception of the call or of the parsing. *)
Variable has_api_key : bool.
Variable openai_total_score : string -> option Z.

Definition calculate_storyscore (email_body : string) : Z :=
  if negb has_api_key then mock_storyscore email_body
  else match openai_total_score email_body with
       | Some total_score => total_score
       | None => mock_storyscore email_body
       end.

End StoryScore.

End Scoring.

(** ** Python dicts *)
Module PyDict.

(** A JSON object: the list of its items in insertion order. *)
Definition Dict (V : Type) : Type := list (string * V).

(** [d.get(key)] *)
Fixpoint dict_get {V : Type} (key : string) (d : Dict V) : option V :=
  match d with
  | [] => None
  | (k, v) :: d' => if String.eqb k key then Some v else dict_get key d'
  end.

(** [d[key] = v]: an existing key keeps its place, a new one goes last. *)
Fixpoint dict_set {V : Type} (key : string) (v : V) (d : Dict V) : Dict V :=
  match d with
  | [] => [(key, v)]
  | (k, v') :: d' =>
      if String.eqb k key then (k, v) :: d'
      else (k, v') :: dict_set key v d'
  end.

(** What a call does: it returns, or a subscript of a missing key raises. *)
Inductive outcome (A : Type) : Type :=
| Returns (a : A)
| KeyError.

Arguments Returns {A} a.
Arguments KeyError {A}.

(** What a field of a prospect holds: a text, or the float [nan] that
    [pd.read_csv] gives for an empty cell and that [json] writes and reads
    back as [NaN]. A column that pandas reads as numbers is not modelled. *)
Inductive Value : Type :=
| Str (s : string)
| NaN.

(** [x is e or x == e] between a value of the request and a value loaded
    from the store: [nan] is equal to nothing, itself included, and the
    object of the request is never the one [json.load] made. *)
Definition value_eqb (x e : Value) : bool :=
  match x, e with
  | Str a, Str b => String.eqb a b
  | _, _ => false
  end.

(** [x in l] *)
Definition value_in (x : Value) (l : list Value) : bool :=
  existsb (value_eqb x) l.

(** [str(v)], as an f-string formats the value. *)
Definition str (v : Value) : string :=
  match v with
  | Str s => s
  | NaN => "nan"
  end.

End PyDict.

(** ** users.py: the prospect store *)
Module Users.
Import PyStr PyDict.

(** A prospect: the fields of its dict, as [upload_prospects] takes them
    from the rows of the table and [add_prospect] completes them. *)
Definition ProspectData : Type := Dict Value.

(** prospects.json: for each user id the list of its prospects. *)
Definition Prospects : Type := Dict (list ProspectData).

(** [prospects.get(user_id, [])] *)
Definition get_prospects (user_id : string) (prospects : Prospects)
  : list ProspectData :=
  match dict_get user_id prospects with
  | Some user_prospects => user_prospects
  | None => []
  end.

(** [[p['email'] for p in l]]; [None] when a [p] has no such key. *)
Fixpoint emails_of (l : list ProspectData) : option (list Value) :=
  match l with
  | [] => Some []
  | p :: l' =>
      match dict_get "email" p, emails_of l' with
      | Some e, Some es => Some (e :: es)
      | _, _ => None
      end
  end.

(** [prospect.get('id') == prospect_id], where either side can be [None]. *)
Definition id_is (prospect_id : option string) (p : ProspectData) : bool :=
  match dict_get "id" p, prospect_id with
  | Some (Str a), Some b => String.eqb a b
  | None, None => true
  | _, _ => false
  end.

Section AddProspect.

(** [hashlib.md5(s.encode()).hexdigest()] and [datetime.isoformat()]. *)
Variable md5_hexdigest : string -> string.
Variable isoformat : Emailer.datetime -> string.

(** The result is the flag returned, the caller's [prospect_data] as the
    call leaves it, and the store as saved; [now] is what [datetime.now()]
    reads. A duplicate is reported before anything is written. *)
Definition add_prospect (now : Emailer.datetime) (user_id : string)
    (prospect_data : ProspectData) (prospects : Prospects)
  : outcome (bool * ProspectData * Prospects) :=
  let user_prospects := get_prospects user_id prospects in
  match emails_of user_prospects with
  | None => KeyError
  | Some existing_emails =>
      match dict_get "email" prospect_data with
      | None => KeyError
      | Some email =>
          if value_in email existing_emails
          then Returns (false, prospect_data, prospects)
          else
            let prospect_data :=
              dict_set "id"
                       (Str (substring 0 8
                               (md5_hexdigest (user_id ++ str email))))
                       prospect_data in
            let prospect_data :=
              dict_set "added_at" (Str (isoformat now)) prospect_data in
            let prospect_data :=
              dict_set "user_id" (Str user_id) prospect_data in
            Returns (true, prospect_data,
                     dict_set user_id (user_prospects ++ [prospect_data])%list
                              prospects)
      end
  end.

End AddProspect.

(** The first prospect of the user with that id. *)
Definition get_prospect_by_id (user_id : string) (prospect_id : option string)
    (prospects : Prospects) : option ProspectData :=
  find (id_is prospect_id) (get_prospects user_id prospects).

Definition delete_prospect (user_id : string) (prospect_id : option string)
    (prospects : Prospects) : bool * Prospects :=
  match dict_get user_id prospects with
  | Some user_prospects =>
      (true,
       dict_set user_id
                (filter (fun p => negb (id_is prospect_id p)) user_prospects)
                prospects)
  | None => (false, prospects)
  end.

End Users.

(** ** jobs_scraper.py: job signals *)
Module JobsScraper.
Import PyStr PyDict.

Definition TARGET_KEYWORDS : list string :=
  ["SAP"; "Oracle"; "Dynamics 365"; "D365"; "QA"; "Quality Assurance";
   "Test Automation"; "Quality Engineering"; "Quality Engineer";
   "Test Engineer"; "SDET"; "Testing"; "Salesforce"; "NetSuite";
   "ERP"; "CRM"; "Enterprise Systems"].

Definition high_value : list string :=
  ["QA"; "Quality Engineer"; "Test Automation"; "SAP"; "Oracle";
   "Dynamics 365"].

(** [round(x, 2)] *)
Definition round2 (x : Q) : Q := Scoring.round_half_even (x * 100) # 100.

(** The keywords found in a text, in the order of [TARGET_KEYWORDS]. *)
Definition matched (text : string) : list string :=
  let text_lower := lower text in
  filter (fun keyword => contains (lower keyword) text_lower) TARGET_KEYWORDS.

(** One turn of the loop over [high_value]. *)
Definition bonus (matched_keywords : list string) (score : Q) (hv : string)
  : Q :=
  if existsb (String.eqb hv) matched_keywords
  then Scoring.pymin (score + 0.15) 1.0
  else score.

Definition _calculate_match_score (text : string) : Q * list string :=
  let matched_keywords := matched text in
  match matched_keywords with
  | [] => (0%Q, [])
  | _ :: _ =>
      let score :=
        Scoring.pymin
          (inject_Z (Z.of_nat (List.length matched_keywords)) * 0.25) 1.0 in
      let score := fold_left (bonus matched_keywords) high_value score in
      (round2 score, matched_keywords)
  end.

(** A signal dict; [id] is absent until [_store_signals] sets it. *)
Record JobSignal : Type := mkJobSignal {
  company : string;
  title : string;
  url : string;
  keywords : list string;
  match_score : Q;
  timestamp : string;
  source : string;
  description_snippet : string;
  id : option string
}.

Definition set_id (i : string) (s : JobSignal) : JobSignal :=
  mkJobSignal (company s) (title s) (url s) (keywords s) (match_score s)
              (timestamp s) (source s) (description_snippet s) (Some i).

(** What [_scan_rss_feed] reads of a feed entry, a missing field being
    ['']. *)
Record Entry : Type := mkEntry {
  entry_title : string;
  entry_link : string;
  entry_description : string
}.

Section Scan.

Variable isoformat : Emailer.datetime -> string.

(** The body of the loop for one entry; [now] is what [datetime.now()]
    reads when the signal is built. *)
Definition signal_of_entry (company : string)
    (dated : Emailer.datetime * Entry) : option JobSignal :=
  let (now, entry) := dated in
  let (match_score, keywords) :=
    _calculate_match_score
      (entry_title entry ++ " " ++ entry_description entry) in
  if Qgtb match_score 0.5 then
    Some (mkJobSignal company (entry_title entry) (entry_link entry) keywords
                      match_score (isoformat now) "rss"
                      (substring 0 200 (entry_description entry)) None)
  else None.

(** [entries] is [feed.entries]; a feed that cannot be read has none. *)
Definition _scan_rss_feed (company : string)
    (entries : list (Emailer.datetime * Entry)) : list JobSignal :=
  flat_map (fun dated => match signal_of_entry company dated with
                         | Some signal => [signal]
                         | None => []
                         end)
           (firstn 20 entries).

End Scan.

(** signals.json: for each company the list of its signals. *)
Definition SignalsDb : Type := Dict (list JobSignal).

(** [[s['id'] for s in l]]; [None] when an [s] has no id. *)
Fixpoint ids_of (l : list JobSignal) : option (list string) :=
  match l with
  | [] => Some []
  | s :: l' =>
      match id s, ids_of l' with
      | Some i, Some others => Some (i :: others)
      | _, _ => None
      end
  end.

Definition company_signals (company : string) (signals_db : SignalsDb)
  : list JobSignal :=
  match dict_get company signals_db with
  | Some signals => signals
  | None => []
  end.

Section StoreSignals.

Variable md5_hexdigest : string -> string.

Definition signal_id (signal : JobSignal) : string :=
  substring 0 8 (md5_hexdigest (company signal ++ title signal ++ url signal)).

(** The body of the loop of [_store_signals]. *)
Definition store_signal (signals_db : SignalsDb) (signal : JobSignal)
  : outcome SignalsDb :=
  let i := signal_id signal in
  let signal := set_id i signal in
  let company := company signal in
  let signals_db :=
    match dict_get company signals_db with
    | Some _ => signals_db
    | None => dict_set company [] signals_db
    end in
  match ids_of (company_signals company signals_db) with
  | None => KeyError
  | Some existing_ids =>
      if existsb (String.eqb i) existing_ids
      then Returns signals_db
      else Returns (dict_set company
                      (company_signals company signals_db ++ [signal])%list
                      signals_db)
  end.

(** The store that is saved; nothing is saved when the loop raises. *)
Fixpoint _store_signals (new_signals : list JobSignal) (signals_db : SignalsDb)
  : outcome SignalsDb :=
  match new_signals with
  | [] => Returns signals_db
  | signal :: rest =>
      match store_signal signals_db signal with
      | KeyError => KeyError
      | Returns signals_db' => _store_signals rest signals_db'
      end
  end.

End StoreSignals.

(** [signals.sort(key=lambda x: x.get('timestamp', ''), reverse=True)]: the
    sort is stable, so a signal goes behind those met before it whose
    timestamp is not smaller. *)
Fixpoint insert_signal (x : JobSignal) (l : list JobSignal) : list JobSignal :=
  match l with
  | [] => [x]
  | y :: l' =>
      if String.ltb (timestamp y) (timestamp x) then x :: y :: l'
      else y :: insert_signal x l'
  end.

Definition sort_newest_first (l : list JobSignal) : list JobSignal :=
  fold_left (fun sorted x => insert_signal x sorted) l [].

Definition get_company_signals (company : string) (limit : nat)
    (signals_db : SignalsDb) : list JobSignal :=
  match dict_get company signals_db with
  | Some signals => firstn limit (sort_newest_first signals)
  | None => []
  end.

End JobsScraper.

(** ** trust_story_builder.py: TrustBuild and StoryBuild *)
Module TrustStoryBuilder.
Import PyStr PyDict Random.

(** What a call does: it returns, or one of two exceptions leaves it;
    [ValueError] carries the step number of its message. *)
Inductive exn : Type :=
| IndexError
| ValueError (step_number : Z).

Inductive result (A : Type) : Type :=
| Ok (a : A)
| Raised (e : exn).

Arguments Ok {A} a.
Arguments Raised {A} e.

Definition story_steps : list (string * string) :=
  [("Hero Introduction",
    "Introduce the prospect as the hero facing challenges");
   ("Hero Challenge",
    "Define the specific challenge they're dealing with");
   ("Guide Appears",
    "Introduce Avo/Eloquas as the experienced guide");
   ("Fork in the Road",
    "Present the choice: transform or maintain status quo");
   ("Happy Path Example",
    "Share social proof of others who succeeded");
   ("Hero's Victory",
    "Paint the picture of their success state");
   ("Guide's Perspective",
    "Optional wisdom from the guide's experience")].

Definition executive_outcomes : list string :=
  ["system stability";
   "faster releases";
   "lower OpEx";
   "seamless updates";
   "reduced technical debt";
   "accelerated time-to-market";
   "improved team velocity";
   "enhanced quality metrics"].

(** [d.get(key, default)] *)
Definition get_default (key default : string) (d : Dict string) : string :=
  match dict_get key d with
  | Some v => v
  | None => default
  end.

(** [s.split()[0]]: the first run of characters that are not white space;
    [None] when there is none and the subscript raises. *)
Fixpoint word (s : string) : string :=
  match s with
  | EmptyString => EmptyString
  | String c s' => if is_space_char c then EmptyString else String c (word s')
  end.

Fixpoint first_word (s : string) : option string :=
  match s with
  | EmptyString => None
  | String c s' =>
      if is_space_char c then first_word s' else Some (String c (word s'))
  end.

(** [prospect.get('name', '').split()[0] if prospect.get('name') else
    'there'] *)
Definition greeting_name (prospect : Dict string) : result string :=
  match dict_get "name" prospect with
  | Some name =>
      if Scoring.truthy name then
        match first_word name with
        | Some first => Ok first
        | None => Raised IndexError
        end
      else Ok "there"
  | None => Ok "there"
  end.

(** An email dict; a key that is not set is [None]. *)
Record Email : Type := mkEmail {
  subject : string;
  body : string;
  storybuild_enabled : option bool;
  story_step : option Z;
  story_step_name : option string;
  total_steps : option Z;
  trustbuild_enabled : option bool;
  trust_anchor_used : option bool
}.

(** *** The story emails *)
Definition story_subject_1 (name role company : string) : string :=
  name ++ ", your QA transformation journey".

Definition story_body_1 (name role company : string) : string :=
  "Hi " ++ name ++ ",

Every enterprise " ++ role ++ " faces the moment when manual testing can't keep pace with deployment demands. You've built something remarkable at " ++ company ++ ", but the next phase requires a different approach.

Your team's dedication is clear. The question isn't about working harder - it's about working differently. The enterprises that thrive are those that recognize when it's time to evolve their testing philosophy.

What's your vision for QA at " ++ company ++ " over the next 18 months?

Best regards,
[Your name]".

Definition story_subject_2 (name role company : string) : string :=
  "The challenge facing " ++ company ++ "'s QA".

Definition story_body_2 (name role company : string) : string :=
  "Hi " ++ name ++ ",

The challenge is real: regression cycles stretching to weeks, critical bugs slipping through, developers waiting on test environments. Sound familiar?

You're not alone. Every scaling enterprise hits this inflection point where traditional QA becomes the bottleneck. " ++ company ++ "'s growth makes this even more acute - success creates complexity.

The pressure from stakeholders for faster releases while maintaining quality feels impossible with current approaches. But what if the problem isn't your team's capability, but the tools they're using?

Curious about your thoughts on this.

Best regards,
[Your name]".

Definition story_subject_3 (name role company : string) : string :=
  "A different path for QA excellence".

Definition story_body_3 (name role company : string) : string :=
  "Hi " ++ name ++ ",

We've guided 200+ enterprises through this exact QA transformation. Not as vendors pushing tools, but as partners who've lived through these challenges.

Avo's approach isn't about replacing your team - it's about amplifying their expertise. Imagine your best QA engineer's knowledge, codified and scaled across every test. That's what intelligent automation delivers.

The enterprises seeing 80% reduction in test time share one trait: they stopped thinking of automation as scripting and started thinking of it as intelligence augmentation.

Worth exploring how this applies to " ++ company ++ "?

Best regards,
[Your name]".

Definition story_subject_4 (name role company : string) : string :=
  company ++ " at the QA crossroads".

Definition story_body_4 (name role company : string) : string :=
  "Hi " ++ name ++ ",

Two paths diverge for " ++ company ++ "'s QA future:

Path 1: Continue expanding manual testing, hire more QAs, accept longer release cycles. It works, but at what cost to innovation speed?

Path 2: Embrace intelligent automation that learns from your team, scales their expertise, and frees them for strategic quality initiatives.

The choice defines whether QA accelerates or constrains " ++ company ++ "'s growth. enterprises taking Path 2 report 60% faster releases and 40% fewer production issues.

Which direction aligns with your vision?

Best regards,
[Your name]".

Definition story_subject_5 (name role company : string) : string :=
  "What happened when [Similar Company] transformed QA".

Definition story_body_5 (name role company : string) : string :=
  "Hi " ++ name ++ ",

[Similar Company] faced your exact situation 18 months ago. Same scale, same complexity, same QA bottlenecks.

Today: 3-day regression cycles (down from 3 weeks), 95% test coverage (up from 60%), zero critical bugs in production for 6 months. Their QA team? Refocused on architecture and exploratory testing - the high-value work that matters.

The transformation took 90 days. Not years. The key was starting with one critical workflow and proving the model before scaling.

Could " ++ company ++ " see similar results?

Best regards,
[Your name]".

Definition story_subject_6 (name role company : string) : string :=
  "Imagining " ++ company ++ "'s QA future".

Definition story_body_6 (name role company : string) : string :=
  "Hi " ++ name ++ ",

Picture this: " ++ company ++ " shipping features daily with confidence. Your QA team designing quality into the architecture, not just catching bugs. Developers getting instant feedback. Customers delighting in stability.

This isn't fantasy - it's the reality for enterprises that made the intelligent automation leap. Your expertise, amplified by AI, creates a quality engine that scales with growth.

The journey from QA bottleneck to QA accelerator is proven and repeatable. The only question is timing.

Ready to explore what this transformation could look like for " ++ company ++ "?

Best regards,
[Your name]".

Definition story_subject_7 (name role company : string) : string :=
  "A final thought on QA evolution".

Definition story_body_7 (name role company : string) : string :=
  "Hi " ++ name ++ ",

After guiding 200+ QA transformations, one truth emerges: the best time to evolve is before you must. " ++ company ++ " has the momentum and vision to transform from a position of strength.

Your team's deep expertise + intelligent automation = competitive advantage that compounds over time. The enterprises thriving in 2025 made this shift in 2024.

I believe " ++ company ++ " can set the standard for what modern QA excellence looks like. The question is: are you ready to lead that transformation?

Let's discuss your vision.

Best regards,
[Your name]".
(** [emails.get(step, emails[1])] *)
Definition story_texts (step : Z) (name role company : string)
  : string * string :=
  match step with
  | 2 => (story_subject_2 name role company,
          story_body_2 name role company)
  | 3 => (story_subject_3 name role company,
          story_body_3 name role company)
  | 4 => (story_subject_4 name role company,
          story_body_4 name role company)
  | 5 => (story_subject_5 name role company,
          story_body_5 name role company)
  | 6 => (story_subject_6 name role company,
          story_body_6 name role company)
  | 7 => (story_subject_7 name role company,
          story_body_7 name role company)
  | _ => (story_subject_1 name role company,
          story_body_1 name role company)
  end.

Definition _generate_story_email (step : Z) (step_name : string)
    (prospect : Dict string) (signal : option JobsScraper.JobSignal)
  : result Email :=
  let company := get_default "company" "your company" prospect in
  match greeting_name prospect with
  | Raised e => Raised e
  | Ok name =>
      let role := get_default "title" "QA leader" prospect in
      let (subject, body) := story_texts step name role company in
      Ok (mkEmail subject body None None None None None None)
  end.

(** The loop of [generate_storybuild_sequence]; [i] is the index that
    [enumerate] gives. *)
Fixpoint story_emails (i : Z) (steps : list (string * string))
    (num_steps : Z) (prospect : Dict string)
    (signal : option JobsScraper.JobSignal) : result (list Email) :=
  match steps with
  | [] => Ok []
  | (step_name, _) :: rest =>
      match _generate_story_email (i + 1) step_name prospect signal with
      | Raised e => Raised e
      | Ok email =>
          let email :=
            mkEmail (subject email) (body email) (Some true) (Some (i + 1))
                    (Some step_name) (Some num_steps)
                    (trustbuild_enabled email) (trust_anchor_used email) in
          match story_emails (i + 1) rest num_steps prospect signal with
          | Raised e => Raised e
          | Ok sequence => Ok (email :: sequence)
          end
      end
  end.

Definition generate_storybuild_sequence (prospect : Dict string)
    (signal : option JobsScraper.JobSignal) (include_optional_step : bool)
  : result (list Email) :=
  match greeting_name prospect with
  | Raised e => Raised e
  | Ok _ =>
      let num_steps := if include_optional_step then 7 else 6 in
      story_emails 0 (firstn (Z.to_nat num_steps) story_steps) num_steps
                   prospect signal
  end.


(** *** Trust anchors *)

Record Anchors : Type := mkAnchors {
  anchor_company : list string;
  anchor_school : list string;
  anchor_interests : list string
}.

(** [s.split(sep)[-1]] for a non-empty [sep]: what follows the last of the
    occurrences of [sep] met from left to right; [cur] is the piece being
    read, in reverse, and [skip] counts the characters of an occurrence that
    are still to be dropped. *)
Fixpoint last_piece_from (sep : string) (skip : nat) (cur : string)
    (s : string) : string :=
  match s with
  | EmptyString => rev_string EmptyString cur
  | String c s' =>
      match skip with
      | S k => last_piece_from sep k cur s'
      | O =>
          if prefix sep s
          then last_piece_from sep (String.length sep - 1) EmptyString s'
          else last_piece_from sep O (String c cur) s'
      end
  end.

Definition last_piece (sep s : string) : string :=
  last_piece_from sep O EmptyString s.

(** [s.strip()] *)
Fixpoint lstrip (s : string) : string :=
  match s with
  | EmptyString => EmptyString
  | String c s' => if is_space_char c then lstrip s' else s
  end.

Definition strip (s : string) : string :=
  rev_string EmptyString
    (lstrip (rev_string EmptyString (lstrip s))).

Definition _extract_companies (profile : Scoring.Profile) : list string :=
  let headline := Scoring.headline profile in
  if contains " at " headline
  then [strip (last_piece " at " headline)]
  else [].

Definition _extract_schools (profile : Scoring.Profile) : list string :=
  let headline := lower (Scoring.headline profile) in
  ((if contains "mit" headline then ["MIT"] else [])
   ++ (if contains "stanford" headline then ["Stanford"] else [])
   ++ (if contains "harvard" headline then ["Harvard"] else []))%list.

Definition tech_keywords : list string :=
  ["sap"; "oracle"; "dynamics"; "salesforce"; "qa automation";
   "enterprise systems"; "digital transformation"; "devops"].

Definition _extract_interests (profile : Scoring.Profile) : list string :=
  let headline := lower (Scoring.headline profile) in
  filter (fun keyword => contains keyword headline) tech_keywords.

Section Anchors.

(** The order in which [list] enumerates a set of strings; it is given the
    elements without repetition. *)
Variable list_of_set : list string -> list string.

(** [list(set(a) & set(b))] *)
Definition common (a b : list string) : list string :=
  list_of_set
    (nodup string_dec (filter (fun x => existsb (String.eqb x) b) a)).

(** A profile is [None] or a dict that is not empty. *)
Definition find_trust_anchors (rep_profile prospect_profile
    : option Scoring.Profile) : Anchors :=
  match rep_profile, prospect_profile with
  | Some rep, Some prospect =>
      mkAnchors
        (common (_extract_companies rep) (_extract_companies prospect))
        (common (_extract_schools rep) (_extract_schools prospect))
        (common (_extract_interests rep) (_extract_interests prospect))
  | _, _ => mkAnchors [] [] []
  end.

End Anchors.

Definition _generate_soft_intro (prospect : Dict string)
    (signal : option JobsScraper.JobSignal) (g : Rng) : string * Rng :=
  let company := get_default "company" "your company" prospect in
  let intros :=
    ["I've been following " ++ company ++ "'s impressive growth in the enterprise space.";
     "Your team at " ++ company ++ " has been setting the standard for operational excellence.";
     "The innovation coming out of " ++ company ++ " caught my attention, particularly around system modernization."] in
  choice EmptyString intros g.

(** Priority: company, then school, then interests. *)
Definition generate_trustbuild_opening (anchors : Anchors)
    (prospect : Dict string) (signal : option JobsScraper.JobSignal)
    (g : Rng) : string * Rng :=
  match anchor_company anchors with
  | company :: _ =>
      ("I noticed we both have " ++ company ++ " in our backgrounds - the emphasis on operational excellence there really shaped my approach to enterprise systems.", g)
  | [] =>
      match anchor_school anchors with
      | school :: _ =>
          ("Fellow " ++ school ++ " alum here - I've found that analytical rigor we learned there invaluable in evaluating enterprise QA solutions.", g)
      | [] =>
          match anchor_interests anchors with
          | interest :: _ =>
              ("I see we share a focus on " ++ interest ++ " - it's been fascinating to see how it's evolving in enterprise environments.", g)
          | [] => _generate_soft_intro prospect signal g
          end
      end
  end.

(** [bool(anchors['company'] or anchors['school'] or
    anchors['interests'])] *)
Definition any_anchor (anchors : Anchors) : bool :=
  match anchor_company anchors, anchor_school anchors,
        anchor_interests anchors with
  | [], [], [] => false
  | _, _, _ => true
  end.

Definition generate_trustbuild_email (prospect : Dict string)
    (anchors : Anchors) (signal : option JobsScraper.JobSignal) (g : Rng)
  : result Email * Rng :=
  let (opening, g) := generate_trustbuild_opening anchors prospect signal g in
  let company := get_default "company" "your company" prospect in
  match greeting_name prospect with
  | Raised e => (Raised e, g)
  | Ok name =>
      let insights :=
        ["I noticed " ++ company ++ " is scaling its QA operations - here's a framework we've seen work well for similar enterprises: focus on test stability before coverage expansion.";
         "Based on " ++ company ++ "'s recent initiatives, you might find this QA maturity assessment useful - it's helped similar teams identify quick wins.";
         "I've compiled some benchmarks from enterprises in your space regarding testing efficiency - happy to share what's working for them."] in
      let (insight, g) := choice EmptyString insights g in
      let body :=
        "Hi " ++ name ++ ",

" ++ opening ++ "

" ++ insight ++ "

No agenda here - just sharing what's been valuable for others navigating similar challenges.

Best regards,
[Your name]" in
      let subject_lines :=
        ["Quick thought on " ++ company ++ "'s QA scaling";
         "Framework that might help " ++ company;
         "Benchmarks for " ++ company ++ "'s consideration"] in
      let (subject, g) := choice EmptyString subject_lines g in
      (Ok (mkEmail subject body None None None None (Some true)
                   (Some (any_anchor anchors))), g)
  end.

(** The body of the loop of [generate_combined_sequence] for the email at
    index [i]. *)
Definition enhance (anchors : Anchors) (prospect : Dict string)
    (signal : option JobsScraper.JobSignal) (first : bool) (email : Email)
    (g : Rng) : result Email * Rng :=
  let step :=
    if first then
      let (opening, g) :=
        generate_trustbuild_opening anchors prospect signal g in
      match greeting_name prospect with
      | Raised e => (Raised e, g)
      | Ok name =>
          (Ok (replace ("Hi " ++ name ++ ",")
                       ("Hi " ++ name ++ ",

" ++ opening)
                       (body email)), g)
      end
    else (Ok (body email), g) in
  match step with
  | (Raised e, g) => (Raised e, g)
  | (Ok body, g) =>
      let (outcome, g) := choice EmptyString executive_outcomes g in
      let body :=
        if negb (contains outcome body)
        then replace "Best regards,"
                     ("The path to " ++ outcome ++ " is clear.

Best regards,")
                     body
        else body in
      (Ok (mkEmail (subject email) body (storybuild_enabled email)
                   (story_step email) (story_step_name email)
                   (total_steps email) (Some true)
                   (Some (any_anchor anchors))), g)
  end.

Fixpoint enhance_all (anchors : Anchors) (prospect : Dict string)
    (signal : option JobsScraper.JobSignal) (first : bool)
    (sequence : list Email) (g : Rng) : result (list Email) * Rng :=
  match sequence with
  | [] => (Ok [], g)
  | email :: rest =>
      match enhance anchors prospect signal first email g with
      | (Raised e, g) => (Raised e, g)
      | (Ok email, g) =>
          match enhance_all anchors prospect signal false rest g with
          | (Raised e, g) => (Raised e, g)
          | (Ok rest, g) => (Ok (email :: rest), g)
          end
      end
  end.

Section Combined.

Variable list_of_set : list string -> list string.

Definition generate_combined_sequence (prospect : Dict string)
    (rep_profile prospect_profile : option Scoring.Profile)
    (signal : option JobsScraper.JobSignal) (include_optional_step : bool)
    (g : Rng) : result (list Email) * Rng :=
  let anchors := find_trust_anchors list_of_set rep_profile prospect_profile in
  match generate_storybuild_sequence prospect signal include_optional_step
  with
  | Raised e => (Raised e, g)
  | Ok sequence => enhance_all anchors prospect signal true sequence g
  end.

End Combined.

End TrustStoryBuilder.

(** ** emailer.py: the templates *)
Module Templates.
Import PyStr PyDict Random Emailer.

Definition qa_signal_subject : string :=
  "{Noticed|Saw|Spotted} your {QA|quality} {hiring|team growth} at {company}".

Definition qa_signal_body : string :=
  "{Hi|Hello|Hey} {name},

{I noticed|I saw|Came across} your team at {company} is {hiring for|looking for|seeking} {QA roles|quality engineers|test automation experts}. 

{This caught my attention|This resonated with me|I was intrigued} because {we help|we work with|we partner with} {companies|organizations|teams} {modernize|transform|accelerate} their {QA processes|testing workflows|quality initiatives}.

{Our clients|Companies we work with|Teams using our platform} typically see {80% faster test execution|60% reduction in bug escapes|3x faster release cycles} within {90 days|3 months|the first quarter}.

{Would you be open to|Might you have time for|Could we schedule} a {brief|quick|short} {chat|conversation|call} to {explore|discuss|see} if we could {help|support|accelerate} your {QA transformation|quality goals|testing initiatives}?

{Best|Regards|Thanks},
{sender_name}
{signature_variation}".

Definition sap_signal_subject : string :=
  "{SAP|S/4HANA} {project|initiative} at {company}".

Definition sap_signal_body : string :=
  "{Hi|Hello} {name},

{I noticed|Saw that|Came across} {company}'s {SAP implementation|S/4HANA migration|ERP modernization} {project|initiative}.

{Having worked with|After helping|From our experience with} {similar companies|other enterprises|organizations in your industry}, we've {learned|discovered|found} that {testing|quality assurance|validation} can {make or break|determine the success of|be critical for} these {implementations|projects|transformations}.

{Our platform|Our solution|What we do} {automates|streamlines|accelerates} {SAP testing|ERP validation|system testing} - {reducing|cutting|decreasing} what typically takes {weeks|months} down to {days|hours}.

{Worth|Open to|Interested in} a {conversation|discussion|call} about your {testing strategy|QA approach|validation plans} for the {SAP project|implementation|migration}?

{Best|Regards|Cheers},
{sender_name}
{signature_variation}".

(** [EMAIL_TEMPLATES.get(template_key, EMAIL_TEMPLATES['qa_signal'])] *)
Definition EMAIL_TEMPLATES (template_key : string) : string * string :=
  if String.eqb template_key "sap_signal"
  then (sap_signal_subject, sap_signal_body)
  else (qa_signal_subject, qa_signal_body).

Definition SIGNATURE_VARIATIONS : list string :=
  ["

P.S. {Happy to share|Can send over|Would love to share} {case studies|success stories|examples} from {similar companies|your industry|other {industry} companies}";
   "

---
{sender_title}
{company_name}
{phone}";
   "

--
{company_name} | {tagline}";
   EmptyString].

Definition _guess_industry (company_name : string) : string :=
  let company_lower := lower company_name in
  if any_in ["bank"; "financial"; "capital"] company_lower
  then "financial services"
  else if any_in ["tech"; "software"; "systems"] company_lower
  then "technology"
  else if any_in ["health"; "medical"; "pharma"] company_lower
  then "healthcare"
  else "your industry".

(** [any(kw in words for kw in signal.get('keywords', []))], false when
    there is no signal. *)
Definition any_keyword (words : list string)
    (signal : option JobsScraper.JobSignal) : bool :=
  match signal with
  | Some signal =>
      existsb (fun kw => existsb (String.eqb kw) words)
              (JobsScraper.keywords signal)
  | None => false
  end.

Definition template_key_for (signal : option JobsScraper.JobSignal) : string :=
  if any_keyword ["QA"; "Quality"; "Test"] signal then "qa_signal"
  else if any_keyword ["SAP"; "Oracle"; "Dynamics"] signal then "sap_signal"
  else "qa_signal".

(** The dict that the plain branch returns. *)
Record Template : Type := mkTemplate {
  subject : string;
  body : string;
  template_used : string
}.

(** The dict [variables] before the signature is added. *)
Definition base_variables (prospect : Dict string) : list (string * string) :=
  [("name", TrustStoryBuilder.get_default "name" "there" prospect);
   ("company",
    TrustStoryBuilder.get_default "company" "your company" prospect);
   ("sender_name", "Alex");
   ("sender_title", "Senior Account Executive");
   ("company_name", "Eloquas AI");
   ("phone", "(555) 123-4567");
   ("tagline", "Intelligent Sales Automation");
   ("industry",
    _guess_industry (TrustStoryBuilder.get_default "company" EmptyString prospect))].

(** The branch of [generate_template] without the enhanced modes; [None]
    when a [while] loop of [process_spintax] does not end within [fuel]
    passes. *)
Definition plain_template (fuel : nat) (prospect : Dict string)
    (signal : option JobsScraper.JobSignal) (g : Rng)
  : option (Template * Rng) :=
  let template_key := template_key_for signal in
  let (subject_pattern, body_pattern) := EMAIL_TEMPLATES template_key in
  let variables := base_variables prospect in
  let (signature_pattern, g) := choice EmptyString SIGNATURE_VARIATIONS g in
  match process_spintax fuel signature_pattern variables g with
  | None => None
  | Some (signature_variation, g) =>
      let variables :=
        (variables ++ [("signature_variation", signature_variation)])%list in
      match process_spintax fuel subject_pattern variables g with
      | None => None
      | Some (subject, g) =>
          match process_spintax fuel body_pattern variables g with
          | None => None
          | Some (body, g) => Some (mkTemplate subject body template_key, g)
          end
      end
  end.

Section Enhanced.

Variable list_of_set : list string -> list string.

(** [rep_profile] is what [linkedin_auth.get_user_profile(user_id) if
    user_id else None] gives; the prospect's profile is always [None]. *)
Definition _generate_enhanced_sequence (prospect : Dict string)
    (signal : option JobsScraper.JobSignal) (trustbuild storybuild : bool)
    (rep_profile : option Scoring.Profile) (g : Rng)
  : TrustStoryBuilder.result (list TrustStoryBuilder.Email) * Rng :=
  let prospect_profile : option Scoring.Profile := None in
  if trustbuild && storybuild then
    TrustStoryBuilder.generate_combined_sequence list_of_set prospect
      rep_profile prospect_profile signal true g
  else if storybuild then
    (TrustStoryBuilder.generate_storybuild_sequence prospect signal true, g)
  else if trustbuild then
    let anchors :=
      TrustStoryBuilder.find_trust_anchors list_of_set rep_profile
                                           prospect_profile in
    match TrustStoryBuilder.generate_trustbuild_email prospect anchors signal
                                                      g with
    | (TrustStoryBuilder.Ok email, g) => (TrustStoryBuilder.Ok [email], g)
    | (TrustStoryBuilder.Raised e, g) => (TrustStoryBuilder.Raised e, g)
    end
  else (TrustStoryBuilder.Ok [], g).

(** What [generate_template] returns: one template, or a sequence. *)
Inductive Generated : Type :=
| Single (template : Template)
| Sequence (emails : list TrustStoryBuilder.Email).

Definition generate_template (fuel : nat) (prospect : Dict string)
    (signal : option JobsScraper.JobSignal) (trustbuild storybuild : bool)
    (rep_profile : option Scoring.Profile) (g : Rng)
  : option (TrustStoryBuilder.result Generated * Rng) :=
  if trustbuild || storybuild then
    match _generate_enhanced_sequence prospect signal trustbuild storybuild
                                      rep_profile g with
    | (TrustStoryBuilder.Ok sequence, g) =>
        Some (TrustStoryBuilder.Ok (Sequence sequence), g)
    | (TrustStoryBuilder.Raised e, g) => Some (TrustStoryBuilder.Raised e, g)
    end
  else
    match plain_template fuel prospect signal g with
    | Some (template, g) => Some (TrustStoryBuilder.Ok (Single template), g)
    | None => None
    end.

End Enhanced.

End Templates.

(** ** main.py: the routes that send and upload *)
Module Main.
Import PyStr Random Emailer.

(** What the route answers: [jsonify({'success': False, 'error': ...})] or
    [jsonify({'success': True, 'email_id': ...})]. *)
Inductive Response : Type :=
| Failure (error : string)
| Success (email_id : string).

Section SendEmail.

Variable md5_hexdigest : string -> string.
Variable isoformat : datetime -> string.
Variable has_api_key : bool.
Variable openai_total_score : string -> option Z.

(** [user_id] is the session's user; [prospect_id], [subject] and [body] are
    the form's fields. An exception leaves the route before anything is
    stored. *)
Definition send_email (now : datetime) (g : Rng) (st : Stores)
    (user_id prospect_id subject body : string)
  : result Response * Stores * Rng :=
  let storyscore :=
    Scoring.calculate_storyscore has_api_key openai_total_score body in
  match check_spam_score subject body with
  | Raised e => (Raised e, st, g)
  | Ok spam_score =>
      if Qgtb spam_score 5 then
        (Ok (Failure "Spam score too high"), st, g)
      else
        let '(email_id, st', g') :=
          queue_email md5_hexdigest isoformat now g st
                      user_id prospect_id subject body storyscore in
        (Ok (Success email_id), st', g')
  end.

End SendEmail.

(** *** upload_prospects *)

(** One row of the uploaded table, with [row.get('domain', '')]: a cell
    is the text read, or [nan] when it is empty. *)
Record Row : Type := mkRow {
  row_name : PyDict.Value;
  row_email : PyDict.Value;
  row_title : PyDict.Value;
  row_company : PyDict.Value;
  row_domain : PyDict.Value
}.

Definition prospect_of_row (row : Row) : Users.ProspectData :=
  [("name", row_name row); ("email", row_email row);
   ("title", row_title row); ("company", row_company row);
   ("domain", row_domain row)].

Section UploadProspects.

Variable md5_hexdigest : string -> string.
Variable isoformat : datetime -> string.

(** The loop over the rows; each row comes with what [datetime.now()]
    reads while it is handled. The result is [Some (added, duplicates)], or
    [None] when an exception ended the loop, and the store as the calls so
    far have saved it. *)
Fixpoint add_rows (user_id : string) (rows : list (datetime * Row))
    (added duplicates : nat) (prospects : Users.Prospects)
  : option (nat * nat) * Users.Prospects :=
  match rows with
  | [] => (Some (added, duplicates), prospects)
  | (now, row) :: rows' =>
      match Users.add_prospect md5_hexdigest isoformat now user_id
                               (prospect_of_row row) prospects with
      | PyDict.KeyError => (None, prospects)
      | PyDict.Returns (true, _, prospects') =>
          add_rows user_id rows' (S added) duplicates prospects'
      | PyDict.Returns (false, _, prospects') =>
          add_rows user_id rows' added (S duplicates) prospects'
      end
  end.

End UploadProspects.

End Main.

(** * Vocabulary of the properties *)

Import PyStr Random Emailer.

(** The token [{key}] that stands for a variable in a pattern. *)
Definition token (key : string) : string :=
  String lbrace (key ++ String rbrace EmptyString).

Definition brace_free (s : string) : bool :=
  negb (mem_char lbrace s) && negb (mem_char rbrace s).

(** The share of upper-case characters in a non-empty body. *)
Definition caps_ratio (body : string) : Q :=
  Z.of_nat (count_upper body) # Z.to_pos (len body).

(** Floats are read as the rationals they stand for. A statement about the
    value of a float result, as opposed to its range, allows for the
    rounding of float arithmetic (a few units in the 16th digit for the
    scores, which lie between 0 and 100) by this margin. *)
Definition float_tolerance : Q := 1 # 1000000000.

(** Equality of float results, up to that margin. *)
Definition near (x y : Q) : Prop := (Qabs (x - y) <= float_tolerance)%Q.

(** The entry [queue_email] builds. *)
Definition new_entry (md5_hexdigest : string -> string)
    (isoformat : datetime -> string) (now : datetime) (g : Rng)
    (user_id prospect_id subject body : string) (storyscore : Z) : Email :=
  mkEmail (substring 0 8 (md5_hexdigest (user_id ++ prospect_id ++ isoformat now)))
          prospect_id subject body storyscore now Queued 0
          (now + minutes (fst (randint 5 30 g))) None.

(** Whether the call appends, to the tenant's queue, one entry that is
    scheduled for [t]. *)
Definition schedules_for (md5_hexdigest : string -> string)
    (isoformat : datetime -> string) (now : datetime) (g : Rng) (st : Stores)
    (user_id prospect_id subject body : string) (storyscore : Z)
    (t : datetime) : Prop :=
  exists entry,
    db_list user_id
      (email_queue
         (snd (fst (queue_email md5_hexdigest isoformat now g st user_id
                                prospect_id subject body storyscore))))
    = (db_list user_id (email_queue st) ++ [entry])%list
    /\ scheduled_for entry = t.

(** Whether two calls in a row, made for the same tenant and prospect while
    the clock reads the same [now], return the same id whatever the digest
    and the time format are, and leave two entries with that id in the
    tenant's queue. *)
Definition same_id_twice (now : datetime) (g : Rng) (st : Stores)
    (user_id prospect_id : string) : Prop :=
  forall (md5_hexdigest : string -> string) (isoformat : datetime -> string),
    let '(id1, st1, g1) :=
      queue_email md5_hexdigest isoformat now g st user_id prospect_id
                  "Hello" "Body" 10 in
    let '(id2, st2, g2) :=
      queue_email md5_hexdigest isoformat now g1 st1 user_id prospect_id
                  "Hello" "Body" 10 in
    id1 = id2
    /\ exists first second,
        db_list user_id (email_queue st2) = [first; second]
        /\ email_id first = id1 /\ email_id second = id1.

(** Every entry of the history [after] was already in [before] or is Sent. *)
Definition only_sent_added (before after : Db) : Prop :=
  forall user_id e,
    In e (db_list user_id after) ->
    In e (db_list user_id before) \/ status e = Sent.

(** The number of entries of a store, all tenants together. *)
Definition db_size (db : Db) : nat :=
  fold_right (fun kv n => (List.length (snd kv) + n)%nat) O db.

(** An entry a sweep at [current_time] tries to send, and one it leaves
    waiting. *)
Definition due (current_time : datetime) (e : Email) : bool :=
  status_eqb (status e) Queued && (scheduled_for e <=? current_time).

Definition waiting (current_time : datetime) (e : Email) : bool :=
  status_eqb (status e) Queued && negb (scheduled_for e <=? current_time).

(** The number of entries of the queue file that are due. *)
Definition count_due (current_time : datetime) (queue : Db) : nat :=
  fold_right
    (fun kv n => (List.length (filter (due current_time) (snd kv)) + n)%nat)
    O queue.

(** What a successful send makes of an entry. *)
Definition mark_sent (current_time : datetime) (e : Email) : Email :=
  set_sent_at current_time (set_status Sent e).

(** What relates the state of a sweep at two points, the second one later:
    the sends in between are counted, each one added an entry to the history
    and was followed by a pause of 45 to 90 seconds. *)
Definition sweep_progress {Wire : Type} (s s' : Sweep Wire) : Prop :=
  (emails_sent s <= emails_sent s')%nat
  /\ (db_size (history s') + emails_sent s
      = db_size (history s) + emails_sent s')%nat
  /\ clock (world s)
     + 45000000 * (Z.of_nat (emails_sent s') - Z.of_nat (emails_sent s))
     <= clock (world s')
     <= clock (world s)
        + 90000000 * (Z.of_nat (emails_sent s') - Z.of_nat (emails_sent s)).

(** *** Templates as lists of segments *)

(** A template read as a list of segments: a literal piece of text, or a
    brace pair [{x}] around a text [x]; the brace pair is a variable token
    or a group of alternatives according to what [x] is. *)
Inductive segment : Type :=
| Lit (s : string)
| Brace (x : string).

Definition render_segment (seg : segment) : string :=
  match seg with
  | Lit s => s
  | Brace x => token x
  end.

Fixpoint render (segs : list segment) : string :=
  match segs with
  | [] => EmptyString
  | seg :: rest => render_segment seg ++ render rest
  end.

(** Neither the literal pieces nor the texts between braces hold a brace. *)
Definition well_formed (seg : segment) : bool :=
  match seg with
  | Lit s => brace_free s
  | Brace x => brace_free x
  end.

(** [variables.get(key)], the first item of that key. *)
Fixpoint lookup_variable (key : string) (variables : list (string * string))
  : option string :=
  match variables with
  | [] => None
  | (k, v) :: rest =>
      if String.eqb k key then Some v else lookup_variable key rest
  end.

(** A segment with its variable filled in, when it is the token of one. *)
Definition fill (variables : list (string * string)) (seg : segment)
  : segment :=
  match seg with
  | Lit s => Lit s
  | Brace x =>
      match lookup_variable x variables with
      | Some v => Lit v
      | None => Brace x
      end
  end.

(** The same for one variable. *)
Definition fill_one (key value : string) (seg : segment) : segment :=
  match seg with
  | Lit s => Lit s
  | Brace x => if String.eqb key x then Lit value else Brace x
  end.

(** One pass over the segments: a group is replaced by the alternative the
    generator picks, anything else is kept. *)
Fixpoint expand (segs : list segment) (g : Rng) : string * Rng :=
  match segs with
  | [] => (EmptyString, g)
  | Lit s :: rest =>
      let (out, g') := expand rest g in (s ++ out, g')
  | Brace x :: rest =>
      if is_group x
      then let (opt, g1) := replace_spintax x g in
           let (out, g2) := expand rest g1 in
           (opt ++ out, g2)
      else let (out, g') := expand rest g in (token x ++ out, g')
  end.

(** Every brace pair of the template is a group. *)
Definition flat (seg : segment) : bool :=
  match seg with
  | Lit _ => true
  | Brace x => is_group x
  end.

(** Every brace pair of the template is a group or the token of a variable
    that is supplied. *)
Definition resolved (variables : list (string * string)) (seg : segment)
  : bool :=
  match seg with
  | Lit _ => true
  | Brace x =>
      is_group x
      || match lookup_variable x variables with Some _ => true | None => false end
  end.

(** Keys and values of the variables hold no brace. *)
Definition plain_variable (kv : string * string) : bool :=
  brace_free (fst kv) && brace_free (snd kv).

(** What a segment may turn into: a literal stays, a group becomes one of
    its alternatives, another brace pair stays. *)
Definition alternative_of (seg : segment) (piece : string) : Prop :=
  match seg with
  | Lit s => piece = s
  | Brace x =>
      if is_group x then In piece (split_on pipe x) else piece = token x
  end.

(** Whether the last brace of a text, if it has one, is an opening one;
    [open] is the answer for a text without braces. *)
Fixpoint last_open (open : bool) (p : string) : bool :=
  match p with
  | EmptyString => open
  | String c p' =>
      if char_eqb c lbrace then last_open true p'
      else if char_eqb c rbrace then last_open false p'
      else last_open open p'
  end.

(** *** The prospect store *)

(** The stores that calls of [add_prospect] and [delete_prospect] lead to
    from the empty store. *)
Inductive reachable (md5_hexdigest : string -> string)
    (isoformat : datetime -> string) : Users.Prospects -> Prop :=
| reach_empty : reachable md5_hexdigest isoformat []
| reach_add (now : datetime) (user_id : string)
    (prospect_data : Users.ProspectData) (prospects : Users.Prospects)
    (flag : bool) (data' : Users.ProspectData) (prospects' : Users.Prospects) :
    reachable md5_hexdigest isoformat prospects ->
    Users.add_prospect md5_hexdigest isoformat now user_id prospect_data
                       prospects
    = PyDict.Returns (flag, data', prospects') ->
    reachable md5_hexdigest isoformat prospects'
| reach_delete (user_id : string) (prospect_id : option string)
    (prospects : Users.Prospects) :
    reachable md5_hexdigest isoformat prospects ->
    reachable md5_hexdigest isoformat
              (snd (Users.delete_prospect user_id prospect_id prospects)).

(** A stored prospect that carries its owner and the id derived from the
    owner and its email. *)
Definition owned_by (md5_hexdigest : string -> string) (user_id : string)
    (p : Users.ProspectData) : Prop :=
  exists email,
    PyDict.dict_get "email" p = Some email
    /\ PyDict.dict_get "user_id" p = Some (PyDict.Str user_id)
    /\ PyDict.dict_get "id" p
       = Some (PyDict.Str
                 (substring 0 8 (md5_hexdigest (user_id ++ PyDict.str email)))).

(** The emails of the rows of an upload. *)
Definition row_emails (rows : list (datetime * Main.Row))
  : list PyDict.Value :=
  map (fun r => Main.row_email (snd r)) rows.

(** The emails of a list that are texts, and the number of those that are
    the [nan] of an empty cell. *)
Fixpoint texts (l : list PyDict.Value) : list string :=
  match l with
  | [] => []
  | PyDict.Str s :: l' => s :: texts l'
  | PyDict.NaN :: l' => texts l'
  end.

Fixpoint empty_cells (l : list PyDict.Value) : nat :=
  match l with
  | [] => O
  | PyDict.Str _ :: l' => empty_cells l'
  | PyDict.NaN :: l' => S (empty_cells l')
  end.

(** *** Job signals *)

(** The number of target keywords found in a text, and the number of
    high-value keywords among them. *)
Definition keyword_hits (text : string) : nat :=
  List.length (JobsScraper.matched text).

Definition bonus_hits (text : string) : nat :=
  List.length
    (filter (fun hv => existsb (String.eqb hv) (JobsScraper.matched text))
            JobsScraper.high_value).

(** A quarter per keyword and 0.15 per high-value keyword, capped at 1. *)
Definition capped_score (k j : nat) : Q :=
  Scoring.pymin
    (inject_Z (Z.of_nat k) * 0.25 + inject_Z (Z.of_nat j) * 0.15)%Q 1%Q.

(** The text [_scan_rss_feed] scores for an entry. *)
Definition entry_text (entry : JobsScraper.Entry) : string :=
  JobsScraper.entry_title entry ++ " " ++ JobsScraper.entry_description entry.

(** Enough keywords for a signal: three, or two with a high-value one. *)
Definition enough_hits (text : string) : Prop :=
  (3 <= keyword_hits text)%nat
  \/ (keyword_hits text = 2%nat /\ 1 <= bonus_hits text)%nat.

(** What one high-value keyword adds. *)
Definition bump (score : Q) : Q := Scoring.pymin (score + 0.15)%Q 1.0%Q.

(** The list of a company holds a signal of that id. *)
Definition holds_id (signals_db : JobsScraper.SignalsDb) (company i : string)
  : Prop :=
  exists ids,
    JobsScraper.ids_of (JobsScraper.company_signals company signals_db)
    = Some ids
    /\ In i ids.

(** [a] is not older than [b], by the order of the timestamp strings. *)
Definition not_older (a b : JobsScraper.JobSignal) : Prop :=
  String.leb (JobsScraper.timestamp b) (JobsScraper.timestamp a) = true.

(** *** The templates of emailer.py as segments *)







(** *** Enhanced sequences *)

(** A text made of white space only. *)
Fixpoint all_space (s : string) : bool :=
  match s with
  | EmptyString => true
  | String c s' => is_space_char c && all_space s'
  end.

(** A name that is given, is not empty and holds no word. *)
Definition blank_name (prospect : PyDict.Dict string) : bool :=
  match PyDict.dict_get "name" prospect with
  | Some name => Scoring.truthy name && all_space name
  | None => false
  end.

(** The name the emails greet by, for a name that is not blank. *)
Definition first_name (prospect : PyDict.Dict string) : string :=
  match PyDict.dict_get "name" prospect with
  | Some name =>
      if Scoring.truthy name then
        match TrustStoryBuilder.first_word name with
        | Some first => first
        | None => EmptyString
        end
      else "there"
  | None => "there"
  end.

(** The story email of a step, with the fields the sequence adds. *)
Definition story_email (num_steps : Z) (prospect : PyDict.Dict string)
    (step : Z) (step_name : string) : TrustStoryBuilder.Email :=
  let texts :=
    TrustStoryBuilder.story_texts step (first_name prospect)
      (TrustStoryBuilder.get_default "title" "QA leader" prospect)
      (TrustStoryBuilder.get_default "company" "your company" prospect) in
  TrustStoryBuilder.mkEmail (fst texts) (snd texts) (Some true) (Some step)
    (Some step_name) (Some num_steps) None None.

Fixpoint story_list (i : Z) (steps : list (string * string)) (num_steps : Z)
    (prospect : PyDict.Dict string) : list TrustStoryBuilder.Email :=
  match steps with
  | [] => []
  | (step_name, _) :: rest =>
      story_email num_steps prospect (i + 1) step_name
      :: story_list (i + 1) rest num_steps prospect
  end.

Definition ends_with (tail s : string) : Prop :=
  exists front, s = front ++ tail.

Fixpoint last_char (s : string) : option ascii :=
  match s with
  | EmptyString => None
  | String c EmptyString => Some c
  | String _ s' => last_char s'
  end.

(** The line that closes every enhanced email. *)
Definition sender_placeholder : string := "
[Your name]".

Section DeliveryVocabulary.

Variable Wire : Type.
Variable smtp_deliver : Wire -> string -> Email -> bool * Wire.
Variable smtp_user : string.

(** Whether [dispatch] makes a send attempt for [email] that fails. *)
Definition failed_send (current_time : datetime) (user_id : string)
    (email : Email) (s : Sweep Wire) : bool :=
  status_eqb (status email) Queued
  && (scheduled_for email <=? current_time)
  && negb (fst (_send_email smtp_deliver smtp_user user_id email (world s))).

(** The states a message goes through, with the number of its send
    attempts that failed: it leaves [queue_email] as a fresh entry, and
    every sweep that meets it puts it through [dispatch]. *)
Inductive lifecycle : Email -> nat -> Prop :=
| fresh (e : Email) :
    status e = Queued -> attempts e = 0 -> lifecycle e 0
| swept (e : Email) (n : nat) (current_time : datetime) (user_id : string)
        (s : Sweep Wire) :
    lifecycle e n ->
    lifecycle (fst (dispatch smtp_deliver smtp_user current_time user_id e s))
              (n + (if failed_send current_time user_id e s then 1 else 0)).

(** A tenant's item of the queue file before and after the inner loop of a
    sweep: every entry is what [dispatch] made of it, at some state of the
    sweep. *)
Definition swept_by (current_time : datetime)
    (before after : string * list Email) : Prop :=
  fst after = fst before
  /\ Forall2
       (fun e e' =>
          exists s0,
            e' = fst (dispatch smtp_deliver smtp_user current_time (fst before)
                               e s0))
       (snd before) (snd after).

End DeliveryVocabulary.

Arguments failed_send {Wire} smtp_deliver smtp_user current_time user_id email s.
Arguments lifecycle {Wire} smtp_deliver smtp_user _ _.
Arguments fresh {Wire} smtp_deliver smtp_user e _ _.
Arguments swept {Wire} smtp_deliver smtp_user e n current_time user_id s _.
Arguments swept_by {Wire} smtp_deliver smtp_user current_time before after.

(** A mail server that accepts the message [m1] and refuses every other. *)
Definition accepts_m1 (w : unit) (user_id : string) (e : Email) : bool * unit :=
  (String.eqb (email_id e) "m1", w).

(** A parser for the examples: every non-empty timestamp is the instant 0. *)
Definition parse_as_zero (s : string) : Scoring.parsed :=
  if String.eqb s "" then Scoring.ValueError else Scoring.Naive 0.


(** * Properties *)

(** ** Template expansion *)
Section SpintaxFacts.

(** A pass of [re.sub] that finds no group leaves the text and the generator
    as they are; when the guard of the loop still holds, no number of
    passes ends the loop. *)
Lemma spintax_loop_stuck (text : string) :
  has_spintax_chars text = true ->
  (forall g, re_sub O text g = (text, g)) ->
  forall fuel g, spintax_loop fuel text g = None.
Proof.
  intros Hguard Hfix fuel.
  induction fuel as [|fuel IH]; intros g; simpl; rewrite Hguard.
  - reflexivity.
  - rewrite Hfix. apply IH.
Qed.

(** Scenario A of the specification: whatever the generator draws, the
    greeting expands to one of its two variants, in one pass. *)
Example scenario_A (g : Rng) :
  exists g',
    process_spintax 1 "Hi {name}, {glad|happy} to connect" [("name", "Alice")] g
    = Some ("Hi Alice, glad to connect", g')
    \/ process_spintax 1 "Hi {name}, {glad|happy} to connect" [("name", "Alice")] g
       = Some ("Hi Alice, happy to connect", g').
Proof.
  exists (snd (draw g)).
  unfold process_spintax. cbn -[replace_spintax].
  unfold replace_spintax, choice. destruct (draw g) as [r g1].
  cbn -[Nat.modulo].
  assert (H : (N.to_nat r mod 2 = 0 \/ N.to_nat r mod 2 = 1)%nat).
  { pose proof (Nat.mod_upper_bound (N.to_nat r) 2). lia. }
  destruct H as [-> | ->]; cbn; auto.
Qed.

(** C2 (the code diverges from the claim): on the pattern [{word} a|b],
    which holds a single-option token and a pipe outside any group, the loop
    of [process_spintax] never ends: whatever the number of passes allowed
    and whatever the generator, no result comes back, where the claim has
    the expansion end with [{word}] left verbatim. *)
Theorem process_spintax_never_returns :
  forall (fuel : nat) (g : Rng),
    process_spintax fuel "{word} a|b" [] g = None.
Proof.
  intros fuel g. unfold process_spintax. cbn [substitute_variables fold_left].
  apply spintax_loop_stuck.
  - reflexivity.
  - intros g0. reflexivity.
Qed.

End SpintaxFacts.

(** ** Variable substitution *)
Section SubstitutionFacts.

Lemma append_empty_r (s : string) : s ++ "" = s.
Proof. induction s as [|c s IH]; simpl; [reflexivity | now rewrite IH]. Qed.

Lemma prefix_same (s : string) : prefix s s = true.
Proof.
  induction s as [|c s IH]; simpl; [reflexivity|].
  destruct (ascii_dec c c); [exact IH | congruence].
Qed.

Lemma char_eqb_false (a b : ascii) : char_eqb a b = false -> a <> b.
Proof. unfold char_eqb. intros H. now apply Ascii.eqb_neq. Qed.

(** Characters still covered by a match are dropped. *)
Lemma replace_from_skip_all (old new : string) :
  forall s k, (String.length s <= k)%nat -> replace_from old new k s = "".
Proof.
  induction s as [|c s IH]; intros k Hk; simpl in *; [reflexivity|].
  destruct k as [|k]; [lia|]. apply IH. lia.
Qed.

(** Replacing a token in the text that is just this token gives the value,
    whatever the value holds. *)
Lemma replace_token_self (key value : string) :
  replace (token key) value (token key) = value.
Proof.
  unfold replace, token.
  change (replace_from ?o ?n 0 (String ?c ?s))
    with (if prefix o (String c s)
          then n ++ replace_from o n (String.length o - 1) s
          else String c (replace_from o n 0 s)).
  rewrite prefix_same, replace_from_skip_all, append_empty_r; [reflexivity|].
  simpl. lia.
Qed.

(** A text in which [old] does not occur is left as it is. *)
Lemma replace_from_absent (old new : string) :
  forall s, contains old s = false -> replace_from old new 0 s = s.
Proof.
  induction s as [|c s IH]; intros H; [reflexivity|].
  cbn [contains] in H. apply orb_false_iff in H as [Hp Hc].
  cbn [replace_from]. rewrite Hp, IH; auto.
Qed.

Lemma contains_needs_first_char (c : ascii) (t : string) :
  forall s, mem_char c s = false -> contains (String c t) s = false.
Proof.
  induction s as [|d s IH]; intros H; [reflexivity|].
  cbn [mem_char] in H. apply orb_false_iff in H as [Hcd Hs].
  cbn [contains prefix]. apply char_eqb_false in Hcd.
  destruct (ascii_dec c d); [contradiction|]. now apply IH.
Qed.

Lemma mem_char_append (c : ascii) (s t : string) :
  mem_char c (s ++ t) = mem_char c s || mem_char c t.
Proof.
  induction s as [|d s IH]; simpl; [reflexivity|].
  now rewrite IH, orb_assoc.
Qed.

Lemma brace_free_cons (c : ascii) (s : string) :
  brace_free (String c s) = true ->
  c <> lbrace /\ c <> rbrace /\ brace_free s = true.
Proof.
  unfold brace_free. cbn [mem_char]. unfold char_eqb.
  destruct (Ascii.eqb_spec lbrace c), (Ascii.eqb_spec rbrace c);
    cbn [orb negb andb]; rewrite ?andb_false_r; intros H;
    try discriminate.
  repeat split; congruence.
Qed.

(** Two brace-free keys that differ: the closing brace of one token never
    lines up with that of the other. *)
Lemma prefix_closed_keys :
  forall k2 k1,
    brace_free k1 = true -> brace_free k2 = true -> k1 <> k2 ->
    prefix (k2 ++ String rbrace "") (k1 ++ String rbrace "") = false.
Proof.
  induction k2 as [|c2 k2 IH]; intros [|c1 k1] H1 H2 Hne;
    cbn [append prefix].
  - congruence.
  - apply brace_free_cons in H1 as (_ & Hc & _).
    destruct (ascii_dec rbrace c1); [congruence | reflexivity].
  - apply brace_free_cons in H2 as (_ & Hc & _).
    destruct (ascii_dec c2 rbrace); [congruence | reflexivity].
  - apply brace_free_cons in H1 as (_ & _ & H1).
    apply brace_free_cons in H2 as (_ & _ & H2).
    destruct (ascii_dec c2 c1) as [->|]; [|reflexivity].
    apply IH; congruence.
Qed.

Lemma token_absent_from_other (k1 k2 : string) :
  brace_free k1 = true -> brace_free k2 = true -> k1 <> k2 ->
  contains (token k2) (token k1) = false.
Proof.
  intros H1 H2 Hne. unfold token. cbn [contains prefix].
  destruct (ascii_dec lbrace lbrace); [|congruence].
  rewrite prefix_closed_keys by assumption. cbn [orb].
  apply contains_needs_first_char.
  rewrite mem_char_append. unfold brace_free in H1.
  apply andb_true_iff in H1 as [Ha _]. apply negb_true_iff in Ha.
  now rewrite Ha.
Qed.

Lemma replace_other_token (k1 k2 value : string) :
  brace_free k1 = true -> brace_free k2 = true -> k1 <> k2 ->
  replace (token k2) value (token k1) = token k1.
Proof.
  intros H1 H2 Hne. unfold replace. unfold token at 1.
  apply replace_from_absent. now apply token_absent_from_other.
Qed.

Lemma spintax_loop_without_pipe (fuel : nat) (text : string) (g : Rng) :
  mem_char pipe text = false -> spintax_loop fuel text g = Some (text, g).
Proof.
  intros H. unfold has_spintax_chars.
  destruct fuel; simpl; unfold has_spintax_chars; rewrite H, andb_false_r;
    reflexivity.
Qed.

Lemma token_without_pipe (key : string) :
  mem_char pipe key = false -> mem_char pipe (token key) = false.
Proof.
  intros H. unfold token. cbn [mem_char]. rewrite mem_char_append, H.
  reflexivity.
Qed.

(** A text that starts with [old] is [old] followed by a rest. *)
Lemma prefix_split (old : string) :
  forall s, prefix old s = true -> exists rest, s = old ++ rest.
Proof.
  induction old as [|c old IH]; intros s H.
  - now exists s.
  - destruct s as [|d s]; cbn [prefix] in H; [discriminate|].
    destruct (ascii_dec c d) as [->|]; [|discriminate].
    destruct (IH s H) as [rest ->]. now exists rest.
Qed.

Lemma prefix_extends (old : string) :
  forall a b, prefix old a = true -> prefix old (a ++ b) = true.
Proof.
  induction old as [|c old IH]; intros a b H.
  - now destruct (a ++ b).
  - destruct a as [|d a]; cbn [prefix] in H; [discriminate|].
    cbn [append prefix]. destruct (ascii_dec c d); [|discriminate].
    now apply IH.
Qed.

Lemma length_append (a b : string) :
  String.length (a ++ b) = (String.length a + String.length b)%nat.
Proof. induction a as [|c a IH]; cbn; [reflexivity | now rewrite IH]. Qed.

(** The characters of a match are dropped, and the scan goes on after
    them. *)
Lemma replace_from_skip (old new : string) :
  forall a rest,
    replace_from old new (String.length a) (a ++ rest)
    = replace_from old new 0 rest.
Proof.
  induction a as [|c a IH]; intros rest; [reflexivity|].
  cbn [String.length append replace_from]. apply IH.
Qed.

Lemma concat_cons (sep x y : string) (ys : list string) :
  String.concat sep (x :: y :: ys) = x ++ sep ++ String.concat sep (y :: ys).
Proof. reflexivity. Qed.

(** One [str.replace] replaces every occurrence it finds from left to
    right: the text is a list of pieces with [old] between them, none of
    which holds [old], and the result is the same pieces with [new] between
    them. *)
Lemma replace_from_pieces (old new : string) :
  old <> "" ->
  forall n s,
    (String.length s <= n)%nat ->
    exists pieces,
      pieces <> []
      /\ s = String.concat old pieces
      /\ Forall (fun piece => contains old piece = false) pieces
      /\ replace_from old new 0 s = String.concat new pieces.
Proof.
  intros Hold. destruct old as [|o old']; [congruence|].
  induction n as [|n IH]; intros s Hlen.
  - destruct s; [|cbn in Hlen; lia].
    exists [""]. repeat split; [discriminate|]. now constructor.
  - destruct s as [|c s].
    + exists [""]. repeat split; [discriminate|]. now constructor.
    + cbn [replace_from]. destruct (prefix (String o old') (String c s)) eqn:Hp.
      * destruct (prefix_split _ _ Hp) as [rest Hrest].
        cbn [append] in Hrest. injection Hrest as <- ->.
        change (String.length (String c old') - 1)%nat
          with (String.length old' - 0)%nat.
        rewrite Nat.sub_0_r, replace_from_skip.
        destruct (IH rest) as (pieces & Hne & Htext & Hfree & Hout).
        { cbn [String.length] in Hlen. rewrite length_append in Hlen.
          lia. }
        exists ("" :: pieces). destruct pieces as [|p ps]; [congruence|].
        split; [discriminate|]. rewrite !concat_cons, <- Htext, <- Hout.
        split; [reflexivity|].
        split; [constructor; [reflexivity | exact Hfree] | reflexivity].
      * destruct (IH s) as (pieces & Hne & Htext & Hfree & Hout).
        { cbn [String.length] in Hlen. lia. }
        destruct pieces as [|p ps]; [congruence|].
        exists (String c p :: ps). split; [discriminate|].
        assert (Hhead : forall sep,
                   String.concat sep (String c p :: ps)
                   = String c (String.concat sep (p :: ps))).
        { intros sep. cbn [String.concat]. now destruct ps. }
        rewrite !Hhead, <- Htext, <- Hout.
        split; [reflexivity|]. split; [|reflexivity].
        pose proof (Forall_inv Hfree) as Hp0.
        pose proof (Forall_inv_tail Hfree) as Hps. cbv beta in Hp0.
        constructor; [|exact Hps].
        cbn [contains]. rewrite Hp0, orb_false_r.
        destruct (prefix (String o old') (String c p)) eqn:Hq; [|reflexivity].
        rewrite Htext in Hp.
        destruct ps as [|q qs].
        { cbn [String.concat] in Hp. congruence. }
        pose proof (prefix_extends _ (String c p)
                      (String o old' ++ String.concat (String o old') (q :: qs))
                      Hq) as Hfull.
        rewrite concat_cons in Hp. cbn [append] in Hp, Hfull. congruence.
Qed.

(** The variables are taken one after the other: the last one is applied,
    by one [str.replace], to the text the earlier ones produced. *)
Lemma substitute_variables_last (text : string) (variables : list (string * string))
    (key value : string) :
  substitute_variables text (variables ++ [(key, value)])
  = replace (token key) value (substitute_variables text variables).
Proof.
  unfold substitute_variables. rewrite fold_left_app. reflexivity.
Qed.

(** C6, counterexample: with [a] mapped to the text [{b}] and [b] mapped to
    [X], in this order, the pattern [{a}] expands to [X]: the value of [a]
    was scanned again for [b] and does not appear verbatim. *)
Lemma substituted_value_is_rescanned :
  process_spintax 0 "{a}" [("a", "{b}"); ("b", "X")] [] = Some ("X", [])
  /\ contains "{b}" "X" = false.
Proof. split; reflexivity. Qed.

(** C6, as amended: substitution is one literal [str.replace] per variable,
    in the order of the map. The value of the last variable is put in by
    one replacement of the text the earlier ones produced. One replacement
    takes every [{key}] token of the text, whatever the text, the key and
    the value: the text is a list of pieces with the token between them,
    none of which holds the token, and the result is the same pieces with
    the value between them, so what the pass put in is not scanned again by
    that pass. The passes of later variables do scan it: for two distinct
    brace-free keys, the token [{k2}] brought in as the value of [k1] is
    replaced by the value of [k2] when [k2] comes later in the map, and
    stays verbatim when [k2] came earlier. *)
Theorem substitution_is_sequential :
  forall (k1 k2 v2 : string) (fuel : nat) (g : Rng),
    brace_free k1 = true -> brace_free k2 = true -> k1 <> k2 ->
    mem_char pipe k2 = false -> mem_char pipe v2 = false ->
    (forall text variables key value,
        substitute_variables text (variables ++ [(key, value)])
        = replace (token key) value (substitute_variables text variables))
    /\ (forall text key value,
          exists pieces,
            text = String.concat (token key) pieces
            /\ Forall (fun piece => contains (token key) piece = false) pieces
            /\ replace_variable text (key, value) = String.concat value pieces)
    /\ (forall value, substitute_variables (token k1) [(k1, value)] = value)
    /\ process_spintax fuel (token k1) [(k1, token k2); (k2, v2)] g
       = Some (v2, g)
    /\ process_spintax fuel (token k1) [(k2, v2); (k1, token k2)] g
       = Some (token k2, g).
Proof.
  intros k1 k2 v2 fuel g H1 H2 Hne Hp2 Hpv.
  split; [exact substitute_variables_last|].
  split.
  { intros text key value.
    destruct (replace_from_pieces (token key) value ltac:(discriminate)
                (String.length text) text (Nat.le_refl _))
      as (pieces & _ & Htext & Hfree & Hout).
    exists pieces. split; [exact Htext|]. split; [exact Hfree|]. exact Hout. }
  split; [intros value; apply replace_token_self|].
  unfold process_spintax, substitute_variables, replace_variable.
  cbn [fold_left fst snd]. fold (token k1). fold (token k2). split.
  - rewrite !replace_token_self. now apply spintax_loop_without_pipe.
  - rewrite replace_other_token, replace_token_self by assumption.
    apply spintax_loop_without_pipe. now apply token_without_pipe.
Qed.

(** The amended statement at the keys [a] and [b], and one replacement on
    a text that holds the token of [a] twice: both tokens are replaced, and
    the token that the value brings in stays. *)
Lemma substitution_is_sequential_witness :
  process_spintax 3 "{a}" [("a", "{b}"); ("b", "X")] [] = Some ("X", [])
  /\ process_spintax 3 "{a}" [("b", "X"); ("a", "{b}")] [] = Some ("{b}", [])
  /\ replace_variable "{a} and {a}" ("a", "{a}{b}") = "{a}{b} and {a}{b}"
  /\ exists pieces,
      "{a} and {a}" = String.concat "{a}" pieces
      /\ Forall (fun piece => contains "{a}" piece = false) pieces
      /\ replace_variable "{a} and {a}" ("a", "{a}{b}")
         = String.concat "{a}{b}" pieces.
Proof.
  pose proof (substitution_is_sequential "a" "b" "X" 3 []
                eq_refl eq_refl ltac:(discriminate) eq_refl eq_refl)
    as (_ & Hevery & _ & Hlater & Hearlier).
  split; [exact Hlater|]. split; [exact Hearlier|].
  split; [reflexivity|].
  exact (Hevery "{a} and {a}" "a" "{a}{b}").
Defined.

End SubstitutionFacts.

(** ** Spam score *)
Section SpamFacts.

(** C3 (the code diverges from the claim): on the empty body
    [check_spam_score] divides the number of capitals by a length of zero
    and raises [ZeroDivisionError], whatever the subject; the claim has the
    ratio read as 0 there and no fault. *)
Theorem check_spam_score_empty_body_raises :
  forall subject : string,
    check_spam_score subject "" = Raised ZeroDivisionError.
Proof. intros subject. reflexivity. Qed.

Lemma len_nonempty (body : string) : body <> "" -> 0 < len body.
Proof. destruct body; [congruence|]. unfold len. simpl String.length. lia. Qed.

(** On every other body the score is computed, with the ratio of capitals
    to characters. *)
Lemma check_spam_score_nonempty (subject body : string) :
  body <> "" ->
  check_spam_score subject body
  = Ok (score_body (score_subject subject) (caps_ratio body) body).
Proof.
  intros H. apply len_nonempty in H.
  unfold check_spam_score, truediv, caps_ratio.
  destruct (Z.eqb_spec (len body) 0); [lia | reflexivity].
Qed.

Lemma Qgtb_true (a b : Q) : Qgtb a b = true <-> (b < a)%Q.
Proof.
  unfold Qgtb. rewrite negb_true_iff. split.
  - intros H. apply Qnot_le_lt. intros Hle.
    apply Qle_bool_iff in Hle. congruence.
  - intros H. destruct (Qle_bool a b) eqn:E; [|reflexivity].
    apply Qle_bool_iff in E. exfalso. revert E. now apply Qlt_not_le.
Qed.

Lemma Qgtb_false (a b : Q) : Qgtb a b = false <-> ~ (b < a)%Q.
Proof.
  rewrite <- Qgtb_true. destruct (Qgtb a b); split; congruence.
Qed.

(** On a non-empty body the score is computed; the excessive-capitals
    penalty of 2 enters it exactly when more than three characters in ten
    are upper case, and the rest of the score is what a ratio of 0 gives. *)
Theorem caps_penalty_threshold :
  forall subject body : string,
    body <> "" ->
    check_spam_score subject body
    = Ok (score_body (score_subject subject) (caps_ratio body) body)
    /\ (Qgtb (caps_ratio body) 0.3 = true
        <-> 3 * len body < 10 * Z.of_nat (count_upper body))
    /\ score_body (score_subject subject) (caps_ratio body) body
       = score_body (if Qgtb (caps_ratio body) 0.3
                     then (score_subject subject + 2)%Q
                     else score_subject subject) 0 body.
Proof.
  intros subject body Hne.
  split; [now apply check_spam_score_nonempty|]. split.
  - rewrite Qgtb_true. apply len_nonempty in Hne. unfold Qlt, caps_ratio.
    cbn [Qnum Qden]. rewrite Z2Pos.id by assumption. lia.
  - reflexivity.
Qed.

End SpamFacts.

(** A shouted body: 8 capitals among 10 characters. *)
Lemma caps_penalty_threshold_witness :
  check_spam_score "Hello" "BUY NOW ok" = Ok 2%Q.
Proof.
  destruct (caps_penalty_threshold "Hello" "BUY NOW ok" ltac:(discriminate))
    as (H & _).
  rewrite H. vm_compute. reflexivity.
Defined.

(** ** The queue *)
Section QueueFacts.

Lemma db_get_set_same (user_id : string) (v : list Email) (db : Db) :
  db_get user_id (db_set user_id v db) = Some v.
Proof.
  induction db as [|[k v'] db IH]; cbn [db_set db_get].
  - now rewrite String.eqb_refl.
  - destruct (String.eqb k user_id) eqn:E; cbn [db_get]; rewrite E; auto.
Qed.

Lemma db_get_set_other (user_id other : string) (v : list Email) (db : Db) :
  other <> user_id ->
  db_get other (db_set user_id v db) = db_get other db.
Proof.
  intros Hne. induction db as [|[k v'] db IH]; cbn [db_set db_get].
  - destruct (String.eqb_spec user_id other); congruence.
  - destruct (String.eqb_spec k user_id) as [->|]; cbn [db_get].
    + destruct (String.eqb_spec user_id other); congruence.
    + now rewrite IH.
Qed.

Lemma db_list_append_same (user_id : string) (entry : Email) (db : Db) :
  db_list user_id (db_append user_id entry db)
  = (db_list user_id db ++ [entry])%list.
Proof. unfold db_append, db_list at 1. now rewrite db_get_set_same. Qed.

Lemma db_get_append_other (user_id other : string) (entry : Email) (db : Db) :
  other <> user_id ->
  db_get other (db_append user_id entry db) = db_get other db.
Proof. intros H. unfold db_append. now apply db_get_set_other. Qed.

Lemma randint_range (a b : Z) (g : Rng) :
  a <= b -> a <= fst (randint a b g) <= b.
Proof.
  intros H. unfold randint. destruct (draw g) as [r g']. cbn [fst].
  pose proof (Z.mod_pos_bound (Z.of_N r) (b - a + 1)). lia.
Qed.

Lemma queue_email_unfold md5_hexdigest isoformat now g st
    user_id prospect_id subject body storyscore :
  queue_email md5_hexdigest isoformat now g st user_id prospect_id subject body
              storyscore
  = (substring 0 8 (md5_hexdigest (user_id ++ prospect_id ++ isoformat now)),
     mkStores
       (db_append user_id
          (new_entry md5_hexdigest isoformat now g user_id prospect_id subject
                     body storyscore)
          (email_queue st))
       (email_history st),
     snd (randint 5 30 g)).
Proof.
  unfold queue_email, new_entry. destruct (randint 5 30 g). reflexivity.
Qed.

(** C10: [queue_email] always enqueues. The tenant's queue is the one it
    had followed by one new entry, which carries the returned id and the
    arguments of the call; the queue of every other tenant and the whole
    history are what they were; and a second call for the same tenant and
    prospect is not refused: both entries are then in the queue. *)
Theorem queue_email_frame :
  forall (md5_hexdigest : string -> string) (isoformat : datetime -> string)
         (now now2 : datetime) (g : Rng) (st : Stores)
         (user_id prospect_id subject body : string) (storyscore : Z),
    let '(id1, st1, g1) :=
      queue_email md5_hexdigest isoformat now g st user_id prospect_id subject
                  body storyscore in
    let '(id2, st2, g2) :=
      queue_email md5_hexdigest isoformat now2 g1 st1 user_id prospect_id
                  subject body storyscore in
    (exists entry,
        db_list user_id (email_queue st1)
        = (db_list user_id (email_queue st) ++ [entry])%list
        /\ email_id entry = id1 /\ Emailer.prospect_id entry = prospect_id
        /\ Emailer.subject entry = subject /\ Emailer.body entry = body
        /\ Emailer.storyscore entry = storyscore)
    /\ (forall other, other <> user_id ->
          db_get other (email_queue st1) = db_get other (email_queue st))
    /\ email_history st1 = email_history st
    /\ (exists first second,
          db_list user_id (email_queue st2)
          = (db_list user_id (email_queue st) ++ [first; second])%list
          /\ email_id first = id1 /\ email_id second = id2
          /\ Emailer.prospect_id first = prospect_id
          /\ Emailer.prospect_id second = prospect_id).
Proof.
  intros. rewrite queue_email_unfold. rewrite queue_email_unfold.
  cbn [email_queue email_history].
  repeat split.
  - eexists. split; [apply db_list_append_same|]. repeat split.
  - intros other Hne. now apply db_get_append_other.
  - eexists. eexists. split.
    + rewrite !db_list_append_same, <- app_assoc. reflexivity.
    + repeat split.
Qed.

(** C9, counterexample: two distinct calls, for tenant [u1] and prospect
    [p1] at one clock reading (the same microsecond, or a local time that
    comes round again), get the same message id. *)
Lemma queue_email_repeats_id :
  same_id_twice 0 [3%N; 9%N] (mkStores [] []) "u1" "p1".
Proof.
  intros md5_hexdigest isoformat. rewrite !queue_email_unfold.
  split; [reflexivity|]. do 2 eexists. cbn. repeat split.
Qed.

(** C9, as amended: the id [queue_email] assigns is the first 8 hex digits
    of the MD5 digest of tenant id, prospect id and enqueue time written one
    after the other, so it tells calls apart only as far as that text and
    its digest do. The call takes one draw [r] from the generator; the new
    entry has status Queued, 0 attempts, was queued at the enqueue time and
    is scheduled for the enqueue time plus [5 + r mod 26] minutes, the
    offset [random.randint(5, 30)] makes of that draw. The offset is
    uniform: among any 26 consecutive values of the draw, each of the 26
    offsets 5 .. 30 is the one of exactly one. *)
Theorem queue_email_postcondition :
  forall (md5_hexdigest : string -> string) (isoformat : datetime -> string)
         (now : datetime) (g : Rng) (st : Stores)
         (user_id prospect_id subject body : string) (storyscore : Z),
    let '(id, st', g') :=
      queue_email md5_hexdigest isoformat now g st user_id prospect_id subject
                  body storyscore in
    id = substring 0 8 (md5_hexdigest (user_id ++ prospect_id ++ isoformat now))
    /\ g' = snd (draw g)
    /\ (exists entry,
          db_list user_id (email_queue st')
          = (db_list user_id (email_queue st) ++ [entry])%list
          /\ email_id entry = id
          /\ status entry = Queued
          /\ attempts entry = 0
          /\ queued_at entry = now
          /\ scheduled_for entry
             = now + minutes (5 + Z.of_N (fst (draw g)) mod 26)
          /\ now + minutes 5 <= scheduled_for entry <= now + minutes 30)
    /\ (forall (first : N) (offset : Z),
          5 <= offset <= 30 ->
          exists r : N,
            (first <= r < first + 26)%N
            /\ forall r' : N,
                (first <= r' < first + 26)%N ->
                (schedules_for md5_hexdigest isoformat now (r' :: g) st
                               user_id prospect_id subject body storyscore
                               (now + minutes offset)
                 <-> r' = r)).
Proof.
  intros. rewrite queue_email_unfold.
  split; [reflexivity|].
  split; [unfold randint; destruct (draw g); reflexivity|].
  split.
  - eexists. split; [apply db_list_append_same|].
    cbn [new_entry email_id status attempts queued_at scheduled_for].
    unfold randint. destruct (draw g) as [r g1]. cbn [fst].
    change (30 - 5 + 1) with 26.
    pose proof (Z.mod_pos_bound (Z.of_N r) 26 ltac:(lia)).
    unfold minutes. repeat split; lia.
  - intros first offset Hoffset.
    pose proof (Z.mod_pos_bound (offset - 5 - Z.of_N first) 26 ltac:(lia))
      as Hm.
    exists (Z.to_N (Z.of_N first + (offset - 5 - Z.of_N first) mod 26)).
    split; [lia|].
    intros r' Hr'. unfold schedules_for. rewrite queue_email_unfold.
    cbn [fst snd email_queue]. rewrite db_list_append_same.
    unfold new_entry, randint, draw. cbn [fst]. change (30 - 5 + 1) with 26.
    split.
    + intros (entry & Happ & Hat).
      apply app_inj_tail in Happ as [_ <-].
      cbn [scheduled_for] in Hat. unfold minutes in Hat.
      assert (Hoff : Z.of_N r' mod 26 = offset - 5) by lia.
      clear Hat. apply N2Z.inj. rewrite Z2N.id by lia.
      Z.to_euclidean_division_equations. lia.
    + intros ->. eexists. split; [reflexivity|].
      cbn [scheduled_for]. f_equal. f_equal.
      rewrite Z2N.id by lia.
      Z.to_euclidean_division_equations. lia.
Qed.

End QueueFacts.

(** ** The gate of the send route *)
Section GateFacts.

(** C8: when the spam score of a candidate is computed, the route rejects
    it exactly when the score exceeds 5. Then the answer is the failure
    "Spam score too high" and the stores (queue and history) and the
    generator are what they were. Otherwise the message is enqueued: the
    answer is a success that carries the id of the message, and the
    tenant's queue is the one it had followed by one new entry, which has
    that id, the prospect, subject and body of the request, the story score
    of the body, status Queued, 0 attempts and the time of the request as
    its enqueue time; the queue of every other tenant and the history are
    what they were, the generator has given one draw, and the whole outcome
    is the one of [queue_email]. *)
Theorem gate_decision :
  forall (md5_hexdigest : string -> string) (isoformat : datetime -> string)
         (has_api_key : bool) (openai_total_score : string -> option Z)
         (now : datetime) (g : Rng) (st : Stores)
         (user_id prospect_id subject body : string) (spam_score : Q),
    check_spam_score subject body = Ok spam_score ->
    let answer :=
      Main.send_email md5_hexdigest isoformat has_api_key openai_total_score
                      now g st user_id prospect_id subject body in
    let story :=
      Scoring.calculate_storyscore has_api_key openai_total_score body in
    let queued :=
      queue_email md5_hexdigest isoformat now g st user_id prospect_id subject
                  body story in
    let id :=
      substring 0 8 (md5_hexdigest (user_id ++ prospect_id ++ isoformat now)) in
    ((5 < spam_score)%Q ->
       answer = (Ok (Main.Failure "Spam score too high"), st, g))
    /\ (~ (5 < spam_score)%Q ->
          answer = (Ok (Main.Success (fst (fst queued))),
                    snd (fst queued), snd queued)
          /\ exists st' entry,
              answer = (Ok (Main.Success id), st', snd (draw g))
              /\ db_list user_id (email_queue st')
                 = (db_list user_id (email_queue st) ++ [entry])%list
              /\ email_id entry = id
              /\ Emailer.prospect_id entry = prospect_id
              /\ Emailer.subject entry = subject
              /\ Emailer.body entry = body
              /\ storyscore entry = story
              /\ status entry = Queued
              /\ attempts entry = 0
              /\ queued_at entry = now
              /\ (forall other, other <> user_id ->
                    db_get other (email_queue st')
                    = db_get other (email_queue st))
              /\ email_history st' = email_history st).
Proof.
  intros md5 iso key openai now g st user_id prospect_id subject body
         spam_score Hscore.
  cbv zeta. unfold Main.send_email. rewrite Hscore. split; intros H.
  - apply Qgtb_true in H. rewrite H. reflexivity.
  - apply Qgtb_false in H. rewrite H. rewrite queue_email_unfold.
    cbn [fst snd]. split; [reflexivity|].
    eexists. eexists. split.
    + unfold randint. destruct (draw g). reflexivity.
    + cbn [email_queue email_history].
      split; [apply db_list_append_same|].
      cbn [new_entry email_id Emailer.prospect_id Emailer.subject Emailer.body
                     storyscore status attempts queued_at].
      repeat (split; [reflexivity|]).
      split; [|reflexivity].
      intros other Hne. now apply db_get_append_other.
Qed.

End GateFacts.

(** A spam-laden message and a clean one, with stand-ins for the digest and
    the time format and no AI scorer: the first is refused and nothing is
    stored, the second is stored as the one entry of the queue of [u1]. *)
Lemma gate_decision_witness :
  Main.send_email (fun s => s) (fun _ => "T") false (fun _ => None)
                  0 [7%N] (mkStores [] []) "u1" "p1"
                  "FREE GUARANTEE"
                  "CLICK HERE, ACT NOW! limited time, risk free"
  = (Ok (Main.Failure "Spam score too high"), mkStores [] [], [7%N])
  /\ exists st' entry,
      Main.send_email (fun s => s) (fun _ => "T") false (fun _ => None)
                      0 [7%N] (mkStores [] []) "u1" "p1"
                      "Quick question" "Would you be open to a call?"
      = (Ok (Main.Success "u1p1T"), st', [])
      /\ db_list "u1" (email_queue st') = [entry]
      /\ email_id entry = "u1p1T"
      /\ Emailer.prospect_id entry = "p1"
      /\ Emailer.subject entry = "Quick question"
      /\ Emailer.body entry = "Would you be open to a call?"
      /\ status entry = Queued
      /\ attempts entry = 0
      /\ email_history st' = [].
Proof.
  split.
  - pose proof (gate_decision (fun s => s) (fun _ => "T") false (fun _ => None)
                  0 [7%N] (mkStores [] []) "u1" "p1" "FREE GUARANTEE"
                  "CLICK HERE, ACT NOW! limited time, risk free" _ eq_refl)
      as [Hreject _].
    apply Hreject. vm_compute. reflexivity.
  - pose proof (gate_decision (fun s => s) (fun _ => "T") false (fun _ => None)
                  0 [7%N] (mkStores [] []) "u1" "p1" "Quick question"
                  "Would you be open to a call?" _ eq_refl)
      as [_ Haccept].
    destruct Haccept
      as (_ & st' & entry & Hanswer & Hqueue & Hid & Hprospect & Hsubject
          & Hbody & _ & Hstatus & Hattempts & _ & _ & Hhistory).
    + vm_compute. discriminate.
    + exists st', entry. repeat split; assumption.
Defined.

(** ** The dispatch sweep *)
Section DeliveryFacts.

Variable Wire : Type.
Variable smtp_deliver : Wire -> string -> Email -> bool * Wire.
Variable smtp_user : string.

Lemma status_eqb_eq (a b : Status) : status_eqb a b = true <-> a = b.
Proof. destruct a, b; cbn; split; congruence. Qed.

Lemma status_eqb_neq (a b : Status) : status_eqb a b = false <-> a <> b.
Proof. destruct a, b; cbn; split; congruence. Qed.

(** An entry that is not Queued goes through [dispatch] untouched, and so
    does the state of the sweep. *)
Lemma dispatch_terminal (current_time : datetime) (user_id : string)
    (e : Email) (s : Sweep Wire) :
  status e <> Queued ->
  dispatch smtp_deliver smtp_user current_time user_id e s = (e, s).
Proof.
  intros H. unfold dispatch. apply status_eqb_neq in H.
  now rewrite H.
Qed.

Lemma dispatch_attempts_mono (current_time : datetime) (user_id : string)
    (e : Email) (s : Sweep Wire) :
  attempts e
  <= attempts (fst (dispatch smtp_deliver smtp_user current_time user_id e s)).
Proof.
  unfold dispatch.
  destruct (negb (status_eqb (status e) Queued)); cbn [fst]; [lia|].
  destruct (scheduled_for e <=? current_time); cbn [fst]; [|lia].
  destruct (_send_email smtp_deliver smtp_user user_id e (world s))
    as [[|] w]; cbn [fst].
  - cbn. lia.
  - cbn [set_attempts attempts].
    destruct (3 <=? attempts e + 1); cbn; lia.
Qed.

(** A send attempt that fails before the third time: one more attempt is
    counted, the entry stays Queued, and it is scheduled one hour after
    [current_time]. *)
Lemma dispatch_retry (current_time : datetime) (user_id : string)
    (e : Email) (s : Sweep Wire) :
  failed_send smtp_deliver smtp_user current_time user_id e s = true ->
  attempts e + 1 < 3 ->
  let e' := fst (dispatch smtp_deliver smtp_user current_time user_id e s) in
  status e' = Queued
  /\ attempts e' = attempts e + 1
  /\ scheduled_for e' = current_time + minutes 60.
Proof.
  unfold failed_send, dispatch. intros H Hlt.
  apply andb_true_iff in H as [H Hsend]. apply andb_true_iff in H as [Hq Hdue].
  rewrite Hq, Hdue. cbn [negb]. apply status_eqb_eq in Hq.
  destruct (_send_email smtp_deliver smtp_user user_id e (world s))
    as [[|] w]; [discriminate|].
  cbn [set_attempts attempts].
  destruct (Z.leb_spec 3 (attempts e + 1)); [lia|].
  cbn. repeat split; auto.
Qed.

(** What holds along the life of a message. *)
Lemma lifecycle_invariant (e : Email) (n : nat) :
  lifecycle smtp_deliver smtp_user e n ->
  attempts e = Z.of_nat n
  /\ (status e = Queued -> (n <= 2)%nat)
  /\ (status e = Sent -> (n <= 2)%nat)
  /\ (status e = Failed -> n = 3%nat).
Proof.
  induction 1 as [e Hq Ha | e n current_time user_id s _ IH].
  - rewrite Hq, Ha. repeat split; intros; try discriminate; lia.
  - destruct IH as (Ha & Hqueued & Hsent & Hfailed).
    unfold failed_send, dispatch.
    destruct (status_eqb (status e) Queued) eqn:Hq; cbn [negb andb fst].
    2:{ rewrite Nat.add_0_r. repeat split; auto. }
    apply status_eqb_eq in Hq. specialize (Hqueued Hq).
    destruct (scheduled_for e <=? current_time); cbn [andb fst].
    2:{ rewrite Nat.add_0_r. repeat split; auto. }
    destruct (_send_email smtp_deliver smtp_user user_id e (world s))
      as [[|] w]; cbn [fst negb].
    + rewrite Nat.add_0_r.
      cbn [set_sent_at set_status status attempts].
      repeat split; intros; try discriminate; assumption.
    + cbn [set_attempts attempts].
      destruct (Z.leb_spec 3 (attempts e + 1));
        cbn [fst set_status set_scheduled_for set_attempts status attempts];
        repeat split; intros; try discriminate; try congruence; lia.
Qed.

(** Each entry a sweep meets in a tenant's queue is what [dispatch] made of
    it, at some state of the sweep. *)
Lemma process_user_queue_entries (current_time : datetime) (user_id : string) :
  forall (user_queue : list Email) (s : Sweep Wire),
    Forall2
      (fun e e' =>
         exists s0,
           e' = fst (dispatch smtp_deliver smtp_user current_time user_id e s0))
      user_queue
      (fst (process_user_queue smtp_deliver smtp_user current_time user_id
                               user_queue s)).
Proof.
  induction user_queue as [|e rest IH]; intros s; cbn [process_user_queue].
  - constructor.
  - destruct (dispatch smtp_deliver smtp_user current_time user_id e s)
      as [e' s1] eqn:E.
    specialize (IH s1).
    destruct (process_user_queue _ _ _ _ rest s1) as [rest' s2].
    cbn [fst] in *. constructor; [|exact IH].
    exists s. now rewrite E.
Qed.

Lemma process_users_entries (current_time : datetime) :
  forall (queue : Db) (s : Sweep Wire),
    Forall2 (swept_by smtp_deliver smtp_user current_time) queue
            (fst (process_users smtp_deliver smtp_user current_time queue s)).
Proof.
  induction queue as [|[user_id user_queue] rest IH]; intros s;
    cbn [process_users].
  - constructor.
  - pose proof (process_user_queue_entries current_time user_id user_queue s)
      as Hq.
    destruct (process_user_queue _ _ _ _ user_queue s) as [user_queue' s1].
    specialize (IH s1).
    destruct (process_users _ _ _ rest s1) as [rest' s2].
    cbn [fst] in *. constructor; [|exact IH]. split; [reflexivity | exact Hq].
Qed.

(** The clean-up keeps, tenant by tenant, the entries that are still
    active. *)
Lemma db_list_clean_up (user_id : string) (queue : Db) :
  db_list user_id (clean_up queue) = filter still_active (db_list user_id queue).
Proof.
  unfold db_list. induction queue as [|[k v] queue IH]; [reflexivity|].
  cbn [clean_up map db_get fst snd].
  destruct (String.eqb k user_id); [reflexivity | exact IH].
Qed.

Lemma still_active_queued (e : Email) :
  still_active e = true -> status e = Queued.
Proof. unfold still_active. destruct (status e); cbn; congruence. Qed.

Lemma db_list_append (user_id other : string) (x : Email) (db : Db) (e : Email) :
  In e (db_list other (db_append user_id x db)) ->
  In e (db_list other db) \/ e = x.
Proof.
  destruct (String.eqb_spec other user_id) as [->|Hne].
  - rewrite db_list_append_same, in_app_iff. cbn. intuition.
  - unfold db_list. rewrite db_get_append_other by assumption. auto.
Qed.

(** [dispatch] appends to the history nothing but the entry it has just
    marked Sent. *)
Lemma dispatch_history (before : Db) (current_time : datetime)
    (user_id : string) (e : Email) (s : Sweep Wire) :
  only_sent_added before (history s) ->
  only_sent_added before
    (history (snd (dispatch smtp_deliver smtp_user current_time user_id e s))).
Proof.
  intros H. unfold dispatch.
  destruct (negb (status_eqb (status e) Queued)); [exact H|].
  destruct (scheduled_for e <=? current_time); [|exact H].
  destruct (_send_email smtp_deliver smtp_user user_id e (world s))
    as [[|] w]; cbn [snd history].
  - intros other e' Hin. apply db_list_append in Hin as [Hin | ->].
    + now apply H.
    + right. reflexivity.
  - destruct (3 <=? _); exact H.
Qed.

Lemma process_user_queue_history (before : Db) (current_time : datetime)
    (user_id : string) :
  forall (user_queue : list Email) (s : Sweep Wire),
    only_sent_added before (history s) ->
    only_sent_added before
      (history (snd (process_user_queue smtp_deliver smtp_user current_time
                                        user_id user_queue s))).
Proof.
  induction user_queue as [|e rest IH]; intros s H; cbn [process_user_queue].
  - exact H.
  - pose proof (dispatch_history before current_time user_id e s H) as H1.
    destruct (dispatch _ _ current_time user_id e s) as [e' s1].
    specialize (IH s1 H1).
    destruct (process_user_queue _ _ _ _ rest s1) as [rest' s2]. exact IH.
Qed.

Lemma process_users_history (before : Db) (current_time : datetime) :
  forall (queue : Db) (s : Sweep Wire),
    only_sent_added before (history s) ->
    only_sent_added before
      (history (snd (process_users smtp_deliver smtp_user current_time queue s))).
Proof.
  induction queue as [|[user_id user_queue] rest IH]; intros s H;
    cbn [process_users].
  - exact H.
  - pose proof (process_user_queue_history before current_time user_id
                  user_queue s H) as H1.
    destruct (process_user_queue _ _ _ _ user_queue s) as [user_queue' s1].
    specialize (IH s1 H1).
    destruct (process_users _ _ _ rest s1) as [rest' s2]. exact IH.
Qed.

(** After a sweep every entry of the queue is Queued, and the history has
    gained Sent entries only: an entry that became Failed is in neither. *)
Lemma process_queue_keeps_no_failed (st : Stores) (w : World Wire) :
  let st' := snd (fst (process_queue smtp_deliver smtp_user st w)) in
  (forall user_id e,
      In e (db_list user_id (email_queue st')) -> status e = Queued)
  /\ only_sent_added (email_history st) (email_history st').
Proof.
  unfold process_queue.
  pose proof (process_users_history (email_history st) (clock w)
                (email_queue st) (mkSweep 0 (email_history st) w)) as H.
  destruct (process_users _ _ _ _ _) as [queue' s].
  cbn [fst snd email_queue email_history] in *. split.
  - intros user_id e Hin. rewrite db_list_clean_up in Hin.
    apply filter_In in Hin as [_ Hin]. now apply still_active_queued.
  - apply H. intros user_id e Hin. now left.
Qed.

(** C4, as amended: through every [dispatch] the attempts of a message
    never go down; an entry that is Sent or Failed is left as it is; a
    message that started fresh is Failed exactly when three of its send
    attempts have failed, and its attempts count those failures; after a
    failed attempt that is not the third the entry is still Queued and is
    scheduled for [current_time] plus 60 minutes, where [current_time] is
    the one reading of the clock a sweep takes when it starts (every entry
    of the queue file goes through [dispatch] with that reading), not the
    time at which the attempt failed. *)
Theorem delivery_state_machine :
  (forall current_time user_id e (s : Sweep Wire),
      attempts e
      <= attempts (fst (dispatch smtp_deliver smtp_user current_time user_id e s)))
  /\ (forall current_time user_id e (s : Sweep Wire),
        status e <> Queued ->
        dispatch smtp_deliver smtp_user current_time user_id e s = (e, s))
  /\ (forall e n,
        lifecycle smtp_deliver smtp_user e n ->
        attempts e = Z.of_nat n /\ (status e = Failed <-> n = 3%nat))
  /\ (forall current_time user_id e (s : Sweep Wire),
        failed_send smtp_deliver smtp_user current_time user_id e s = true ->
        attempts e + 1 < 3 ->
        let e' := fst (dispatch smtp_deliver smtp_user current_time user_id e s) in
        status e' = Queued
        /\ attempts e' = attempts e + 1
        /\ scheduled_for e' = current_time + minutes 60)
  /\ (forall (st : Stores) (w : World Wire),
        exists queue',
          Forall2 (swept_by smtp_deliver smtp_user (clock w)) (email_queue st) queue'
          /\ email_queue (snd (fst (process_queue smtp_deliver smtp_user st w)))
             = clean_up queue').
Proof.
  split; [exact dispatch_attempts_mono|].
  split; [exact dispatch_terminal|].
  split.
  { intros e n H. apply lifecycle_invariant in H as (Ha & Hq & Hs & Hf).
    split; [exact Ha|]. split; [exact Hf|].
    intros ->. destruct (status e); [specialize (Hq eq_refl) |
                                     specialize (Hs eq_refl) | reflexivity]; lia. }
  split; [exact dispatch_retry|].
  intros st w. unfold process_queue.
  pose proof (process_users_entries (clock w) (email_queue st)
                (mkSweep 0 (email_history st) w)) as H.
  destruct (process_users _ _ _ _ _) as [queue' s]. cbn [fst snd] in *.
  exists queue'. split; [exact H | reflexivity].
Qed.

End DeliveryFacts.

(** A mail server that refuses everything: the first failure of a fresh
    message reschedules it, the third one makes it Failed. *)
Lemma delivery_state_machine_witness :
  let refuse := fun (w : unit) (_ : string) (_ : Email) => (false, w) in
  let s := mkSweep 0 [] (mkWorld 1000 [] tt) in
  let m0 := mkEmail "0a1b2c3d" "p1" "Hello" "Body" 10 0 Queued 0 0 None in
  let m1 := fst (dispatch refuse "mailer" 1000 "u1" m0 s) in
  let m2 := fst (dispatch refuse "mailer" (minutes 90) "u1" m1 s) in
  let m3 := fst (dispatch refuse "mailer" (minutes 180) "u1" m2 s) in
  (status m1 = Queued /\ attempts m1 = 1
   /\ scheduled_for m1 = 1000 + minutes 60)
  /\ attempts m3 = 3 /\ status m3 = Failed.
Proof.
  intros refuse s m0 m1 m2 m3.
  pose proof (delivery_state_machine unit refuse "mailer")
    as (_ & _ & Hlife & Hretry & _).
  split; [exact (Hretry 1000 "u1" m0 s eq_refl eq_refl)|].
  assert (L : lifecycle refuse "mailer" m3 3).
  { exact (swept refuse "mailer" m2 2 (minutes 180) "u1" s
             (swept refuse "mailer" m1 1 (minutes 90) "u1" s
                (swept refuse "mailer" m0 0 1000 "u1" s
                   (fresh refuse "mailer" m0 eq_refl eq_refl)))). }
  destruct (Hlife m3 3%nat L) as [Ha Hf]. split; [exact Ha|].
  apply Hf. reflexivity.
Defined.

(** C4, counterexample: a sweep starts when the clock reads 1000; the
    message [m1] is sent and the sweep pauses 45 seconds; the send of [m2]
    then fails, at 1000 + 45 s. [m2] stays Queued with one attempt and is
    scheduled for 1000 + 60 min: the start of the sweep plus 60 minutes, and
    not the failure time plus 60 minutes. *)
Lemma retry_is_timed_from_sweep_start :
  let m1 := mkEmail "m1" "p1" "Hello" "Body" 10 0 Queued 0 0 None in
  let m2 := mkEmail "m2" "p2" "Hello" "Body" 10 0 Queued 0 0 None in
  let w := mkWorld 1000 [] tt in
  let first := dispatch accepts_m1 "mailer" 1000 "u1" m1 (mkSweep 0 [] w) in
  let second := dispatch accepts_m1 "mailer" 1000 "u1" m2 (snd first) in
  clock (world (snd first)) = 1000 + 45000000
  /\ failed_send accepts_m1 "mailer" 1000 "u1" m2 (snd first) = true
  /\ clock (world (snd second)) = 1000 + 45000000
  /\ status (fst second) = Queued
  /\ attempts (fst second) = 1
  /\ scheduled_for (fst second) = 1000 + minutes 60
  /\ scheduled_for (fst second) <> clock (world (snd first)) + minutes 60
  /\ process_queue accepts_m1 "mailer" (mkStores [("u1", [m1; m2])] []) w
     = (1%nat,
        mkStores [("u1", [fst second])] [("u1", [fst first])],
        world (snd second)).
Proof. cbv zeta. repeat split; try reflexivity. vm_compute. discriminate. Qed.

(** C1 (the code diverges from the claim): whatever the stores, the mail
    server and the clock, a sweep leaves nothing but Queued entries in the
    queue and adds nothing but Sent entries to the history, so a message
    that became Failed is kept nowhere. So it is when the third send
    attempt of the only queued message fails: after the sweep the tenant's
    queue is empty and the history is as empty as before, where the claim
    has the record moved into the history and never in neither store. *)
Theorem third_failure_leaves_no_record :
  (forall (Wire : Type) (smtp_deliver : Wire -> string -> Email -> bool * Wire)
          (smtp_user : string) (st : Stores) (w : World Wire),
      let st' := snd (fst (process_queue smtp_deliver smtp_user st w)) in
      (forall user_id e,
          In e (db_list user_id (email_queue st')) -> status e = Queued)
      /\ only_sent_added (email_history st) (email_history st'))
  /\ (let refuse := fun (w : unit) (_ : string) (_ : Email) => (false, w) in
      let m :=
        mkEmail "0a1b2c3d" "p1" "Hello" "Body" 10 0 Queued 2 (hours 2) None in
      let w := mkWorld (hours 3) [] tt in
      fst (dispatch refuse "mailer" (hours 3) "u1" m (mkSweep 0 [] w))
      = set_status Failed (set_attempts 3 m)
      /\ process_queue refuse "mailer" (mkStores [("u1", [m])] []) w
         = (0%nat, mkStores [("u1", [])] [], w)).
Proof.
  split.
  - intros Wire smtp_deliver smtp_user st w.
    apply process_queue_keeps_no_failed.
  - cbv zeta. split; reflexivity.
Qed.

(** The path of a successful send does move the entry: it leaves the queue
    and is appended, as Sent, to the history. *)
Example sent_entry_is_moved :
  let m :=
    mkEmail "0a1b2c3d" "p1" "Hello" "Body" 10 0 Queued 2 (hours 2) None in
  let w := mkWorld (hours 3) [] tt in
  let '(n, st, _) :=
    process_queue (fun w _ _ => (false, w)) "" (mkStores [("u1", [m])] []) w in
  n = 1%nat
  /\ email_queue st = [("u1", [])]
  /\ email_history st = [("u1", [set_sent_at (hours 3) (set_status Sent m)])].
Proof. cbv zeta. repeat split. Qed.

(** ** Trust score *)

(** Goes through the comparisons of a cascade of [if]s on integers, and
    drops the branches the hypotheses rule out. *)
Ltac by_steps :=
  repeat match goal with
         | |- context [(?a <=? ?b)%Z] => destruct (Z.leb_spec a b); try lia
         end.

Section TrustFacts.
Import Scoring.
Open Scope Q_scope.

Variable fromisoformat : string -> parsed.

(** Age in whole days against age in microseconds. *)
Lemma days_le (delta k : Z) :
  (days delta <= k <-> delta < (k + 1) * microseconds_per_day)%Z.
Proof.
  unfold days, microseconds_per_day.
  pose proof (Z.div_mod delta 86400000000 ltac:(lia)) as E.
  pose proof (Z.mod_pos_bound delta 86400000000 ltac:(lia)) as B.
  lia.
Qed.

(** C7: intent freshness is 0.2 without a signal and 0.3 when the timestamp
    does not parse; otherwise it is the step function of the age in whole
    days: 1.0 up to 1 day (an age under two full days), then 0.9 up to 3,
    0.7 up to 7, 0.5 up to 14, 0.3 up to 30 and 0.1 beyond; a signal
    timestamped exactly 2 days before now scores 0.9. *)
Theorem intent_freshness_steps :
  forall (now : Z) (signal : option Signal),
    let score := calculate_intent_freshness fromisoformat now signal in
    (signal = None -> score = 0.2)
    /\ (forall sig, signal = Some sig ->
          fromisoformat (timestamp sig) = ValueError -> score = 0.3)
    /\ (forall sig t, signal = Some sig ->
          fromisoformat (timestamp sig) = Naive t ->
          let age := days (now - t) in
          ((age <= 1)%Z -> score = 1.0)
          /\ ((now - t < 2 * microseconds_per_day)%Z -> score = 1.0)
          /\ ((1 < age <= 3)%Z -> score = 0.9)
          /\ ((3 < age <= 7)%Z -> score = 0.7)
          /\ ((7 < age <= 14)%Z -> score = 0.5)
          /\ ((14 < age <= 30)%Z -> score = 0.3)
          /\ ((30 < age)%Z -> score = 0.1)
          /\ ((now - t = 2 * microseconds_per_day)%Z -> score = 0.9)).
Proof.
  intros now signal score. subst score. split; [intros ->; reflexivity|].
  split.
  - intros sig -> Hparse. cbn. now rewrite Hparse.
  - intros sig t -> Hparse age. cbn [calculate_intent_freshness].
    rewrite Hparse. fold age.
    assert (Hexact : ((now - t = 2 * microseconds_per_day) -> age = 2)%Z).
    { intros E. subst age. rewrite E. reflexivity. }
    assert (Hfirst : ((now - t < 2 * microseconds_per_day) -> age <= 1)%Z).
    { intros E. subst age. apply days_le. exact E. }
    repeat split; intros H; try apply Hexact in H; try apply Hfirst in H;
      by_steps; reflexivity.
Qed.

Lemma pymin_le_r (a b : Q) : pymin a b <= b.
Proof.
  unfold pymin, Qgtb. destruct (Qle_bool a b) eqn:E; cbn [negb].
  - now apply Qle_bool_iff.
  - apply Qle_refl.
Qed.

Lemma pymin_ge (a b c : Q) : c <= a -> c <= b -> c <= pymin a b.
Proof. intros Ha Hb. unfold pymin. now destruct (Qgtb a b). Qed.



Lemma random_range (g : Rng) : 0 <= fst (random g) /\ fst (random g) < 1.
Proof.
  unfold random. destruct (draw g) as [r g']. cbn [fst].
  assert (H : (r mod 2 ^ 53 < 2 ^ 53)%N).
  { apply N.mod_lt. intros E. vm_compute in E. discriminate. }
  change (2 ^ 53)%N with 9007199254740992%N in *.
  change (Pos.pow 2 53) with 9007199254740992%positive.
  unfold Qle, Qlt. cbn [Qnum Qden].
  set (m := (r mod 9007199254740992)%N) in *. clearbody m. lia.
Qed.

Lemma uniform_range (a b : Q) (g : Rng) :
  a <= b -> a <= fst (uniform a b g) <= b.
Proof.
  intros Hab. unfold uniform. pose proof (random_range g) as [H0 H1].
  destruct (random g) as [u g']. cbn [fst] in *. nra.
Qed.

Lemma linkedin_trust_score_range (p : Profile) :
  (0 <= calculate_linkedin_trust_score p <= 100)%Z.
Proof. unfold calculate_linkedin_trust_score. lia. Qed.

Lemma inject_Z_nonneg (z : Z) : (0 <= z)%Z -> 0 <= inject_Z z.
Proof. intros H. unfold Qle. cbn. lia. Qed.

Lemma relationship_range (prospect : Prospect) (profile : option Profile)
    (g : Rng) :
  0 <= fst (calculate_relationship_score prospect profile g) <= 1.
Proof.
  unfold calculate_relationship_score.
  destruct (randint 0 5 g) as [shared g1].
  destruct (random g1) as [chance g2]. cbn [fst].
  split; [|eapply Qle_trans; [apply pymin_le_r | lra]].
  assert (Hshared : (0 <? shared)%Z = true -> 0 <= inject_Z (Z.min shared 3)).
  { intros H. apply Z.ltb_lt in H. apply inject_Z_nonneg. lia. }
  apply pymin_ge; [|lra].
  destruct profile as [profile|].
  - pose proof (linkedin_trust_score_range profile) as [Hl _].
    apply inject_Z_nonneg in Hl.
    set (l := inject_Z (calculate_linkedin_trust_score profile)) in *.
    assert (Hdiv : l / 100 == l * (1 # 100)) by (unfold Qdiv; reflexivity).
    destruct (_ && _); destruct (0 <? shared)%Z;
      try specialize (Hshared eq_refl);
      destruct (contains "alumni" _); destruct (Qgtb chance 0.7);
      rewrite ?Hdiv; lra.
  - destruct (0 <? shared)%Z; try specialize (Hshared eq_refl);
      destruct (contains "alumni" _); destruct (Qgtb chance 0.7); lra.
Qed.

Lemma intent_freshness_range (now : Z) (signal : option Signal) :
  0 <= calculate_intent_freshness fromisoformat now signal <= 1.
Proof.
  unfold calculate_intent_freshness.
  destruct signal as [sig|]; [|lra].
  destruct (fromisoformat (timestamp sig)); try lra.
  by_steps; lra.
Qed.

Lemma story_quality_range (prospect : Prospect) (signal : option Signal) :
  (forall sig m, signal = Some sig -> match_score sig = Some m -> 0 <= m <= 1) ->
  0 <= calculate_story_quality prospect signal <= 1.
Proof.
  intros Hm. unfold calculate_story_quality.
  split; [|eapply Qle_trans; [apply pymin_le_r | lra]]. apply pymin_ge; [|lra].
  destruct signal as [sig|].
  - destruct (match_score sig) as [m|] eqn:E.
    + pose proof (Hm sig m eq_refl E). destruct (any_in _ _); lra.
    + destruct (any_in _ _); lra.
  - destruct (any_in _ _); lra.
Qed.



Lemma tenths (n : Z) : n # 10 == inject_Z n * (1 # 10).
Proof. unfold Qeq. cbn. lia. Qed.




End TrustFacts.

(** A signal observed exactly two days before now. *)
Lemma intent_freshness_steps_witness :
  Scoring.calculate_intent_freshness parse_as_zero
    (2 * Scoring.microseconds_per_day)
    (Some (Scoring.mkSignal "2026-11-01T09:00:00" (Some 0.85%Q)))
  = 0.9%Q.
Proof.
  pose proof (intent_freshness_steps parse_as_zero
                (2 * Scoring.microseconds_per_day)
                (Some (Scoring.mkSignal "2026-11-01T09:00:00" (Some 0.85%Q))))
    as (_ & _ & Hsteps).
  destruct (Hsteps _ 0 eq_refl eq_refl) as (_ & _ & _ & _ & _ & _ & _ & Htwo).
  apply Htwo. reflexivity.
Defined.



(** ** Ranges of the scores *)
Section ScoreRanges.
Import Scoring.
Open Scope Q_scope.

Variable fromisoformat : string -> parsed.

Lemma deliverability_between (prospect : Prospect) :
  0.4 <= calculate_deliverability prospect <= 0.9.
Proof.
  unfold calculate_deliverability.
  destruct (existsb _ _); destruct (any_in _ _); vm_compute;
    split; discriminate.
Qed.

(** The deliverability score is 0.9 less 0.3 for a free-mail domain and
    less 0.2 for a role account, up to the margin of float arithmetic: it
    is near 0.9, 0.7, 0.6 or 0.4 according to these two tests and lies
    between 0.4 and 0.9, so the floor at 0.1 is never reached; an address
    without [@] has neither a domain nor a local part and scores the full
    0.9. *)
Theorem deliverability_values :
  forall prospect : Prospect,
    let d := calculate_deliverability prospect in
    let address := email prospect in
    let domain :=
      if mem_char at_sign address
      then nth 1 (split_on at_sign address) "" else "" in
    let local_part :=
      if mem_char at_sign address
      then nth 0 (split_on at_sign address) "" else "" in
    let free_mail :=
      existsb (String.eqb domain)
              ["gmail.com"; "yahoo.com"; "hotmail.com"; "outlook.com"] in
    let role_account :=
      any_in ["info"; "contact"; "admin"; "sales"] local_part in
    near d (0.9 - (if free_mail then 0.3 else 0)
                - (if role_account then 0.2 else 0))
    /\ (near d 0.9 \/ near d 0.7 \/ near d 0.6 \/ near d 0.4)
    /\ 0.4 <= d <= 0.9
    /\ (mem_char at_sign address = false -> d == 0.9).
Proof.
  intros prospect d address domain local_part free_mail role_account.
  subst d free_mail role_account local_part domain address.
  split; [|split; [|split; [apply deliverability_between|]]];
    unfold calculate_deliverability, near, float_tolerance.
  - destruct (existsb _ _); destruct (any_in _ _); vm_compute; discriminate.
  - destruct (existsb _ _); destruct (any_in _ _);
      [right; right; right | right; right; left | right; left | left];
      vm_compute; discriminate.
  - intros ->. reflexivity.
Qed.

(** The local story score stays between 8 and 16, so its clamp to 0 .. 20
    never acts; [calculate_storyscore] is that score when there is no API
    key or the scorer fails, and otherwise the scorer's [total_score] as it
    comes, with no clamp. *)
Theorem storyscore_fallback :
  (forall email_body, (8 <= mock_storyscore email_body <= 16)%Z)
  /\ (forall has_api_key openai_total_score email_body,
        has_api_key = false \/ openai_total_score email_body = None ->
        calculate_storyscore has_api_key openai_total_score email_body
        = mock_storyscore email_body)
  /\ (forall openai_total_score email_body total_score,
        openai_total_score email_body = Some total_score ->
        calculate_storyscore true openai_total_score email_body = total_score).
Proof.
  split; [|split].
  - intros email_body. unfold mock_storyscore.
    repeat match goal with
           | |- context [if ?c then _ else _] => destruct c
           end; lia.
  - intros key openai email_body [-> | H]; unfold calculate_storyscore;
      [reflexivity|].
    rewrite H. now destruct key.
  - intros openai email_body total_score H. unfold calculate_storyscore.
    cbn [negb]. now rewrite H.
Qed.

Lemma completeness_range (p : Profile) : (0 <= completeness p <= 100)%Z.
Proof.
  unfold completeness.
  repeat match goal with
         | |- context [if ?c then _ else _] => destruct c
         end; lia.
Qed.

Lemma headline_quality_range (p : Profile) : (0 <= headline_quality p <= 100)%Z.
Proof.
  unfold headline_quality.
  repeat match goal with
         | |- context [if ?c then _ else _] => destruct c
         end; lia.
Qed.

Lemma Qfloor_le_Z (x : Q) (k : Z) : x <= inject_Z k -> (Qfloor x <= k)%Z.
Proof.
  intros H. rewrite <- (Qfloor_Z k). now apply Qfloor_resp_le.
Qed.

Lemma Qfloor_ge_Z (x : Q) (k : Z) : inject_Z k <= x -> (k <= Qfloor x)%Z.
Proof.
  intros H. rewrite <- (Qfloor_Z k). now apply Qfloor_resp_le.
Qed.

Lemma inject_Z_percent (z : Z) : (0 <= z <= 100)%Z -> 0 <= inject_Z z <= 100.
Proof. intros H. unfold Qle. cbn. lia. Qed.

(** The LinkedIn trust score never exceeds 80 (the network strength, worth
    the last 20 points, is always 0), stays at 54 or less without a profile
    picture, and is 0 for a profile with no field set. *)
Theorem linkedin_trust_score_ceiling :
  forall p : Profile,
    (0 <= calculate_linkedin_trust_score p <= 80)%Z
    /\ (profilePicture p = "" -> (calculate_linkedin_trust_score p <= 54)%Z)
    /\ (firstName p = "" -> lastName p = "" -> profile_email p = "" ->
        headline p = "" -> profilePicture p = "" ->
        calculate_linkedin_trust_score p = 0%Z).
Proof.
  intros p.
  pose proof (inject_Z_percent _ (completeness_range p)) as Hc.
  pose proof (inject_Z_percent _ (headline_quality_range p)) as Hh.
  split; [|split].
  - unfold calculate_linkedin_trust_score. split; [lia|].
    apply Z.min_le_iff. right. apply Z.max_lub; [lia|].
    apply Qfloor_le_Z. change (inject_Z 80) with 80.
    destruct (truthy (profilePicture p));
      [change (inject_Z 100) with 100 | change (inject_Z 0) with 0]; lra.
  - intros Hpic. unfold calculate_linkedin_trust_score.
    assert (Hc80 : inject_Z (completeness p) <= 80).
    { change 80 with (inject_Z 80). rewrite <- Zle_Qle.
      unfold completeness. rewrite Hpic. cbn [truthy String.eqb negb].
      repeat match goal with
             | |- context [if ?c then _ else _] => destruct c
             end; lia. }
    rewrite Hpic. cbn [truthy String.eqb negb].
    apply Z.min_le_iff. right. apply Z.max_lub; [lia|].
    apply Qfloor_le_Z. change (inject_Z 54) with 54.
    change (inject_Z 0) with 0. lra.
  - intros H1 H2 H3 H4 H5.
    unfold calculate_linkedin_trust_score, completeness, headline_quality.
    rewrite H1, H2, H3, H4, H5. reflexivity.
Qed.

Lemma relationship_floor (prospect : Prospect) (profile : option Profile)
    (g : Rng) :
  0.3 <= fst (calculate_relationship_score prospect profile g).
Proof.
  unfold calculate_relationship_score.
  destruct (randint 0 5 g) as [shared g1].
  destruct (random g1) as [chance g2]. cbn [fst].
  assert (Hshared : (0 <? shared)%Z = true -> 0 <= inject_Z (Z.min shared 3)).
  { intros H. apply Z.ltb_lt in H. apply inject_Z_nonneg. lia. }
  apply pymin_ge; [|lra].
  destruct profile as [profile|].
  - pose proof (linkedin_trust_score_range profile) as [Hl _].
    apply inject_Z_nonneg in Hl.
    set (l := inject_Z (calculate_linkedin_trust_score profile)) in *.
    assert (Hdiv : l / 100 == l * (1 # 100)) by (unfold Qdiv; reflexivity).
    destruct (_ && _); destruct (0 <? shared)%Z;
      try specialize (Hshared eq_refl);
      destruct (contains "alumni" _); destruct (Qgtb chance 0.7);
      rewrite ?Hdiv; lra.
  - destruct (0 <? shared)%Z; try specialize (Hshared eq_refl);
      destruct (contains "alumni" _); destruct (Qgtb chance 0.7); lra.
Qed.

Lemma intent_freshness_floor (now : Z) (signal : option Signal) :
  0.1 <= calculate_intent_freshness fromisoformat now signal.
Proof.
  unfold calculate_intent_freshness.
  destruct signal as [sig|]; [|lra].
  destruct (fromisoformat (timestamp sig)); try lra.
  by_steps; lra.
Qed.

Lemma story_quality_floor (prospect : Prospect) (signal : option Signal) :
  (forall sig m, signal = Some sig -> match_score sig = Some m -> 0 <= m <= 1) ->
  0.3 <= calculate_story_quality prospect signal.
Proof.
  intros Hm. unfold calculate_story_quality. apply pymin_ge; [|lra].
  destruct signal as [sig|].
  - destruct (match_score sig) as [m|] eqn:E.
    + pose proof (Hm sig m eq_refl E). destruct (any_in _ _); lra.
    + destruct (any_in _ _); lra.
  - destruct (any_in _ _); lra.
Qed.

Lemma round_half_even_ge_floor (x : Q) : (Qfloor x <= round_half_even x)%Z.
Proof.
  unfold round_half_even.
  destruct (x - inject_Z (Qfloor x) ?= 1 # 2); [destruct (Z.even _)|..]; lia.
Qed.

Lemma round_half_even_le_Z (x : Q) (k : Z) :
  x <= inject_Z k -> (round_half_even x <= k)%Z.
Proof.
  intros H. unfold round_half_even.
  pose proof (Qfloor_le x) as Hlo. pose proof (Qfloor_le_Z x k H) as Hf.
  set (f := Qfloor x) in *.
  assert (Hstrict : (1 # 2) <= x - inject_Z f -> (f + 1 <= k)%Z).
  { intros Hhalf. assert (Hlt : inject_Z f < inject_Z k) by lra.
    rewrite <- Zlt_Qlt in Hlt. lia. }
  destruct (x - inject_Z f ?= 1 # 2) eqn:E.
  - apply Qeq_alt in E. destruct (Z.even f); [lia|]. apply Hstrict. lra.
  - lia.
  - apply Qgt_alt in E. apply Hstrict. lra.
Qed.

(** A bound that is a whole number of tenths survives the rounding. *)
Lemma round1_between (x : Q) (lo hi : Z) :
  lo # 10 <= x <= hi # 10 -> lo # 10 <= round1 x <= hi # 10.
Proof.
  rewrite (tenths lo), (tenths hi). intros [Hlo Hhi]. unfold round1.
  rewrite (tenths (round_half_even (x * 10))).
  assert (H1 : (lo <= round_half_even (x * 10))%Z).
  { etransitivity; [|apply round_half_even_ge_floor].
    apply Qfloor_ge_Z. lra. }
  assert (H2 : (round_half_even (x * 10) <= hi)%Z).
  { apply round_half_even_le_Z. lra. }
  rewrite Zle_Qle in H1, H2. lra.
Qed.

(** For a signal whose match score lies in [0, 1] (or no signal), the trust
    score lies between 26.5 and 97: the five sub-scores cannot all reach
    their ends of [0, 1]. *)
Theorem trustscore_range :
  forall (prospect : Prospect) (profile : option Profile)
         (signal : option Signal) (now : Z) (g : Rng),
    (forall sig m,
        signal = Some sig -> match_score sig = Some m -> 0 <= m <= 1) ->
    26.5 <= fst (calculate_trustscore fromisoformat prospect profile signal
                                      now g) <= 97.
Proof.
  intros prospect profile signal now g Hm. unfold calculate_trustscore.
  pose proof (relationship_floor prospect profile g) as Hr1.
  pose proof (relationship_range prospect profile g) as [_ Hr2].
  destruct (calculate_relationship_score prospect profile g) as [r g1].
  pose proof (uniform_range 0.3 0.9 g1 ltac:(lra)) as He.
  destruct (uniform 0.3 0.9 g1) as [e g2]. cbn [fst] in *.
  pose proof (intent_freshness_floor now signal) as Hi1.
  pose proof (intent_freshness_range fromisoformat now signal) as [_ Hi2].
  pose proof (story_quality_floor prospect signal Hm) as Hs1.
  pose proof (story_quality_range prospect signal Hm) as [_ Hs2].
  pose proof (deliverability_between prospect) as Hd.
  set (x := composite _ _ _ _ _).
  assert (H : 265 # 10 <= round1 x <= 970 # 10).
  { apply round1_between. subst x. unfold composite. lra. }
  lra.
Qed.

(** An older signal never scores higher: intent freshness goes down, or
    stays, as the timestamp moves back. *)
Theorem intent_freshness_antitone :
  forall (now : Z) (older newer : Signal) (t_old t_new : Z),
    fromisoformat (timestamp older) = Naive t_old ->
    fromisoformat (timestamp newer) = Naive t_new ->
    (t_old <= t_new)%Z ->
    calculate_intent_freshness fromisoformat now (Some older)
    <= calculate_intent_freshness fromisoformat now (Some newer).
Proof.
  intros now older newer t_old t_new Ho Hn Hle.
  cbn [calculate_intent_freshness]. rewrite Ho, Hn.
  assert (Hd : (days (now - t_new) <= days (now - t_old))%Z).
  { unfold days, microseconds_per_day. apply Z.div_le_mono; lia. }
  by_steps; lra.
Qed.

End ScoreRanges.

(** A two-day-old and a ten-day-old signal. *)
Lemma intent_freshness_antitone_witness :
  (Scoring.calculate_intent_freshness
     (fun s => if String.eqb s "old" then Scoring.Naive 0
               else Scoring.Naive (8 * Scoring.microseconds_per_day))
     (10 * Scoring.microseconds_per_day) (Some (Scoring.mkSignal "old" None))
   <= Scoring.calculate_intent_freshness
        (fun s => if String.eqb s "old" then Scoring.Naive 0
                  else Scoring.Naive (8 * Scoring.microseconds_per_day))
        (10 * Scoring.microseconds_per_day)
        (Some (Scoring.mkSignal "new" None)))%Q.
Proof.
  apply (intent_freshness_antitone
           (fun s => if String.eqb s "old" then Scoring.Naive 0
                     else Scoring.Naive (8 * Scoring.microseconds_per_day))
           (10 * Scoring.microseconds_per_day)
           (Scoring.mkSignal "old" None) (Scoring.mkSignal "new" None)
           0 (8 * Scoring.microseconds_per_day) eq_refl eq_refl).
  vm_compute. discriminate.
Defined.

(** The trust score of a prospect with a fresh signal of match score 0.85. *)
Lemma trustscore_range_witness :
  (26.5 <= fst (Scoring.calculate_trustscore parse_as_zero
                  (Scoring.mkProspect "VP Quality" "ann@acme.com") None
                  (Some (Scoring.mkSignal "2026-11-01T09:00:00" (Some 0.85)))
                  Scoring.microseconds_per_day [3; 1; 2]%N) <= 97)%Q.
Proof.
  apply (trustscore_range parse_as_zero
           (Scoring.mkProspect "VP Quality" "ann@acme.com") None
           (Some (Scoring.mkSignal "2026-11-01T09:00:00" (Some 0.85%Q)))
           Scoring.microseconds_per_day [3; 1; 2]%N).
  intros sig m Hsig Hm. injection Hsig as <-. injection Hm as <-.
  split; vm_compute; discriminate.
Defined.

(** ** What a sweep accounts for *)
Section SweepFacts.

Variable Wire : Type.
Variable smtp_deliver : Wire -> string -> Email -> bool * Wire.
Variable smtp_user : string.

Lemma send_keeps_clock (user_id : string) (e : Email) (w : World Wire) :
  clock (snd (_send_email smtp_deliver smtp_user user_id e w)) = clock w.
Proof.
  unfold _send_email. destruct (String.eqb smtp_user ""); [reflexivity|].
  destruct (smtp_deliver _ _ _). reflexivity.
Qed.

(** The pause after a send lasts between 45 and 90 seconds. *)
Lemma rate_limit_clock (w : World Wire) :
  clock w + 45000000 <= clock (rate_limit w) <= clock w + 90000000.
Proof.
  unfold rate_limit.
  pose proof (uniform_range 45 90 (rng w) ltac:(lra)) as [Hlo Hhi].
  destruct (uniform 45 90 (rng w)) as [seconds g']. cbn [fst] in *.
  unfold sleep. cbn [clock].
  assert (45000000 <= Qfloor (seconds * 1000000)).
  { apply Qfloor_ge_Z. change (inject_Z 45000000) with 45000000%Q. lra. }
  assert (Qfloor (seconds * 1000000) <= 90000000).
  { apply Qfloor_le_Z. change (inject_Z 90000000) with 90000000%Q. lra. }
  lia.
Qed.

Lemma sweep_progress_refl (s : Sweep Wire) : sweep_progress s s.
Proof. unfold sweep_progress. lia. Qed.

Lemma sweep_progress_trans (a b c : Sweep Wire) :
  sweep_progress a b -> sweep_progress b c -> sweep_progress a c.
Proof. unfold sweep_progress. lia. Qed.

Lemma db_size_cons (k : string) (v : list Email) (db : Db) :
  db_size ((k, v) :: db) = (List.length v + db_size db)%nat.
Proof. reflexivity. Qed.

Lemma db_size_set (user_id : string) (v : list Email) (db : Db) :
  (db_size (db_set user_id v db) + List.length (db_list user_id db)
   = db_size db + List.length v)%nat.
Proof.
  unfold db_list.
  induction db as [|[k v'] db IH]; cbn [db_set db_size db_get fold_right snd].
  - cbn. lia.
  - destruct (String.eqb k user_id); cbn [db_size fold_right snd].
    + fold (db_size db). lia.
    + fold (db_size db) (db_size (db_set user_id v db)). lia.
Qed.

Lemma db_size_append (user_id : string) (e : Email) (db : Db) :
  db_size (db_append user_id e db) = S (db_size db).
Proof.
  unfold db_append.
  pose proof (db_size_set user_id (db_list user_id db ++ [e]) db) as H.
  rewrite length_app in H. cbn [List.length] in H. lia.
Qed.

Lemma dispatch_progress (current_time : datetime) (user_id : string)
    (e : Email) (s : Sweep Wire) :
  sweep_progress s
    (snd (dispatch smtp_deliver smtp_user current_time user_id e s)).
Proof.
  unfold dispatch.
  destruct (negb (status_eqb (status e) Queued));
    [apply sweep_progress_refl|].
  destruct (scheduled_for e <=? current_time); [|apply sweep_progress_refl].
  pose proof (send_keeps_clock user_id e (world s)) as Hclock.
  destruct (_send_email smtp_deliver smtp_user user_id e (world s))
    as [[|] w]; cbn [snd] in *.
  - pose proof (rate_limit_clock w) as Hpause.
    unfold sweep_progress. cbn [emails_sent history world].
    rewrite db_size_append. lia.
  - destruct (3 <=? _); unfold sweep_progress;
      cbn [snd emails_sent history world]; lia.
Qed.

Lemma process_user_queue_progress (current_time : datetime)
    (user_id : string) :
  forall (user_queue : list Email) (s : Sweep Wire),
    sweep_progress s
      (snd (process_user_queue smtp_deliver smtp_user current_time user_id
                               user_queue s)).
Proof.
  induction user_queue as [|e rest IH]; intros s; cbn [process_user_queue].
  - apply sweep_progress_refl.
  - pose proof (dispatch_progress current_time user_id e s) as H1.
    destruct (dispatch _ _ current_time user_id e s) as [e' s1].
    specialize (IH s1).
    destruct (process_user_queue _ _ _ _ rest s1) as [rest' s2].
    cbn [snd] in *. eapply sweep_progress_trans; eassumption.
Qed.

Lemma process_users_progress (current_time : datetime) :
  forall (queue : Db) (s : Sweep Wire),
    sweep_progress s
      (snd (process_users smtp_deliver smtp_user current_time queue s)).
Proof.
  induction queue as [|[user_id user_queue] rest IH]; intros s;
    cbn [process_users].
  - apply sweep_progress_refl.
  - pose proof (process_user_queue_progress current_time user_id
                  user_queue s) as H1.
    destruct (process_user_queue _ _ _ _ user_queue s) as [user_queue' s1].
    specialize (IH s1).
    destruct (process_users _ _ _ rest s1) as [rest' s2].
    cbn [snd] in *. eapply sweep_progress_trans; eassumption.
Qed.

(** A message that is sent leaves the queue: what the clean-up keeps of a
    tenant's queue, plus the sends made for it, is no more than the queue
    held. *)
Lemma process_user_queue_kept (current_time : datetime) (user_id : string) :
  forall (user_queue : list Email) (s : Sweep Wire),
    let r :=
      process_user_queue smtp_deliver smtp_user current_time user_id
                         user_queue s in
    (List.length (filter still_active (fst r)) + emails_sent (snd r)
     <= List.length user_queue + emails_sent s)%nat.
Proof.
  induction user_queue as [|e rest IH]; intros s; cbn [process_user_queue].
  - cbn. lia.
  - assert (H1 :
      let d := dispatch smtp_deliver smtp_user current_time user_id e s in
      ((if still_active (fst d) then 1 else 0) + emails_sent (snd d)
       <= 1 + emails_sent s)%nat).
    { unfold dispatch.
      destruct (negb (status_eqb (status e) Queued));
        [cbn; destruct (still_active e); lia|].
      destruct (scheduled_for e <=? current_time);
        [|cbn; destruct (still_active e); lia].
      destruct (_send_email smtp_deliver smtp_user user_id e (world s))
        as [[|] w]; [cbn; lia|].
      destruct (3 <=? _); cbn [fst snd emails_sent];
        match goal with |- context [still_active ?x] =>
          destruct (still_active x) end; lia. }
    cbv zeta in H1.
    destruct (dispatch _ _ current_time user_id e s) as [e' s1].
    specialize (IH s1). cbv zeta in IH.
    destruct (process_user_queue _ _ _ _ rest s1) as [rest' s2].
    cbn [fst snd filter] in *.
    destruct (still_active e'); cbn [List.length]; lia.
Qed.

Lemma process_users_kept (current_time : datetime) :
  forall (queue : Db) (s : Sweep Wire),
    let r := process_users smtp_deliver smtp_user current_time queue s in
    (db_size (clean_up (fst r)) + emails_sent (snd r)
     <= db_size queue + emails_sent s)%nat.
Proof.
  induction queue as [|[user_id user_queue] rest IH]; intros s;
    cbn [process_users].
  - cbn. lia.
  - pose proof (process_user_queue_kept current_time user_id user_queue s)
      as H1. cbv zeta in H1.
    destruct (process_user_queue _ _ _ _ user_queue s) as [user_queue' s1].
    specialize (IH s1). cbv zeta in IH.
    destruct (process_users _ _ _ rest s1) as [rest' s2].
    cbn [fst snd] in *.
    change (clean_up ((user_id, user_queue') :: rest'))
      with ((user_id, filter still_active user_queue') :: clean_up rest').
    rewrite !db_size_cons. lia.
Qed.

(** The accounting of a sweep that reports [n] sends: the history has [n]
    more entries than before; the queue afterwards and the [n] sends
    together are no more than the queue held, so no message is sent twice
    or both sent and kept; and the clock has moved on by 45 to 90 seconds
    per send. *)
Theorem sweep_accounting :
  forall (st : Stores) (w : World Wire),
    let '(n, st', w') := process_queue smtp_deliver smtp_user st w in
    db_size (email_history st') = (db_size (email_history st) + n)%nat
    /\ (db_size (email_queue st') + n <= db_size (email_queue st))%nat
    /\ clock w + 45000000 * Z.of_nat n
       <= clock w'
       <= clock w + 90000000 * Z.of_nat n.
Proof.
  intros st w. unfold process_queue.
  pose proof (process_users_progress (clock w) (email_queue st)
                (mkSweep 0 (email_history st) w)) as (_ & Hh & Hc).
  pose proof (process_users_kept (clock w) (email_queue st)
                (mkSweep 0 (email_history st) w)) as Hq.
  cbv zeta in Hq.
  destruct (process_users _ _ _ _ _) as [queue' s].
  cbn [fst snd emails_sent history world email_queue email_history] in *.
  repeat split; lia.
Qed.

End SweepFacts.

(** ** Entries a sweep leaves alone *)
Section WaitingFacts.

Variable Wire : Type.
Variable smtp_deliver : Wire -> string -> Email -> bool * Wire.
Variable smtp_user : string.

Lemma dispatch_waiting (current_time : datetime) (user_id : string)
    (e : Email) (s : Sweep Wire) :
  waiting current_time e = true ->
  dispatch smtp_deliver smtp_user current_time user_id e s = (e, s).
Proof.
  unfold waiting, dispatch. intros H.
  apply andb_true_iff in H as [Hq Hd]. apply negb_true_iff in Hd.
  now rewrite Hq, Hd.
Qed.

Lemma waiting_still_active (current_time : datetime) (e : Email) :
  waiting current_time e = true -> still_active e = true.
Proof.
  unfold waiting, still_active. intros H.
  apply andb_true_iff in H as [Hq _]. apply status_eqb_eq in Hq.
  now rewrite Hq.
Qed.

Lemma process_user_queue_waiting (current_time : datetime)
    (user_id : string) :
  forall (user_queue : list Email) (s : Sweep Wire),
    (forall e, In e user_queue -> waiting current_time e = true) ->
    process_user_queue smtp_deliver smtp_user current_time user_id
                       user_queue s
    = (user_queue, s).
Proof.
  induction user_queue as [|e rest IH]; intros s H; cbn [process_user_queue].
  - reflexivity.
  - rewrite dispatch_waiting by (apply H; now left).
    rewrite IH by (intros e' He'; apply H; now right). reflexivity.
Qed.

Lemma filter_all (A : Type) (f : A -> bool) (l : list A) :
  (forall x, In x l -> f x = true) -> filter f l = l.
Proof.
  induction l as [|x l IH]; intros H; cbn [filter]; [reflexivity|].
  rewrite (H x) by now left. f_equal. apply IH. intros y Hy. apply H.
  now right.
Qed.

(** A sweep that finds every entry Queued and scheduled for later sends
    nothing and leaves the queue, the history, the clock, the generator and
    the mail server exactly as they were. *)
Theorem sweep_before_due :
  forall (st : Stores) (w : World Wire),
    (forall user_id user_queue e,
        In (user_id, user_queue) (email_queue st) -> In e user_queue ->
        status e = Queued /\ clock w < scheduled_for e) ->
    process_queue smtp_deliver smtp_user st w = (0%nat, st, w).
Proof.
  intros [queue hist] w H. unfold process_queue. cbn [email_queue email_history] in *.
  assert (Hw : forall user_id user_queue e,
             In (user_id, user_queue) queue -> In e user_queue ->
             waiting (clock w) e = true).
  { intros u q e Hq He. destruct (H u q e Hq He) as [Hs Hd].
    unfold waiting. rewrite Hs. cbn [status_eqb andb].
    apply negb_true_iff, Z.leb_gt. exact Hd. }
  clear H.
  assert (Hu : forall s : Sweep Wire,
             process_users smtp_deliver smtp_user (clock w) queue s
             = (queue, s)).
  { induction queue as [|[u q] rest IH]; intros s; cbn [process_users];
      [reflexivity|].
    rewrite process_user_queue_waiting
      by (intros e He; apply (Hw u q e); [now left | exact He]).
    rewrite IH by (intros u' q' e Hq He; apply (Hw u' q' e);
                   [now right | exact He]).
    reflexivity. }
  rewrite Hu. cbn [emails_sent history world].
  assert (Hc : clean_up queue = queue).
  { induction queue as [|[u q] rest IH]; [reflexivity|].
    cbn [clean_up map fst snd]. fold (clean_up rest).
    rewrite (filter_all _ still_active q).
    - rewrite IH; [reflexivity | |].
      + intros u' q' e Hq He. apply (Hw u' q' e); [now right | exact He].
      + intros s. specialize (Hu s). cbn [process_users] in Hu.
        rewrite process_user_queue_waiting in Hu
          by (intros e He; apply (Hw u q e); [now left | exact He]).
        destruct (process_users _ _ _ rest s) as [rest' s'].
        now injection Hu as -> ->.
    - intros e He. apply (waiting_still_active (clock w)).
      apply (Hw u q e); [now left | exact He]. }
  now rewrite Hc.
Qed.

(** What a sweep makes of the queue of one tenant is the inner loop run on
    the queue that tenant had. *)
Lemma process_users_db_list (current_time : datetime) (user_id : string) :
  forall (queue : Db) (s : Sweep Wire),
    exists s0,
      db_list user_id
        (fst (process_users smtp_deliver smtp_user current_time queue s))
      = fst (process_user_queue smtp_deliver smtp_user current_time user_id
                                (db_list user_id queue) s0).
Proof.
  unfold db_list.
  induction queue as [|[k q] rest IH]; intros s; cbn [process_users].
  - exists s. reflexivity.
  - destruct (process_user_queue _ _ current_time k q s) as [q' s1] eqn:Eq.
    destruct (IH s1) as [s0 H0].
    destruct (process_users _ _ _ rest s1) as [rest' s2].
    cbn [fst db_get] in *.
    destruct (String.eqb_spec k user_id) as [->|].
    + exists s. now rewrite Eq.
    + exists s0. exact H0.
Qed.

Lemma process_user_queue_keeps_waiting (current_time : datetime)
    (user_id : string) (e : Email) :
  waiting current_time e = true ->
  forall (user_queue : list Email) (s : Sweep Wire),
    In e user_queue ->
    In e (fst (process_user_queue smtp_deliver smtp_user current_time
                                  user_id user_queue s)).
Proof.
  intros Hw. induction user_queue as [|x rest IH]; intros s Hin;
    [contradiction|].
  cbn [process_user_queue].
  destruct (dispatch _ _ current_time user_id x s) as [x' s1] eqn:Ed.
  specialize (IH s1).
  destruct (process_user_queue _ _ _ _ rest s1) as [rest' s2].
  cbn [fst] in *. destruct Hin as [->|Hin].
  - rewrite dispatch_waiting in Ed by assumption. injection Ed as <- _.
    now left.
  - right. now apply IH.
Qed.

(** An entry that is Queued and scheduled for later is still in its
    tenant's queue after the sweep. *)
Lemma waiting_entry_survives (st : Stores) (w : World Wire)
    (user_id : string) (e : Email) :
  In e (db_list user_id (email_queue st)) ->
  waiting (clock w) e = true ->
  In e (db_list user_id
          (email_queue (snd (fst (process_queue smtp_deliver smtp_user st w))))).
Proof.
  intros Hin Hw. unfold process_queue.
  destruct (process_users_db_list (clock w) user_id (email_queue st)
              (mkSweep 0 (email_history st) w)) as [s0 H0].
  destruct (process_users _ _ _ _ _) as [queue' s].
  cbn [fst snd email_queue] in *.
  rewrite db_list_clean_up, H0. apply filter_In. split.
  - now apply process_user_queue_keeps_waiting.
  - now apply (waiting_still_active (clock w)).
Qed.

(** A message enqueued at [now] is scheduled at least five minutes later: a
    sweep that starts before [now] plus five minutes leaves it in the
    tenant's queue, as [queue_email] stored it. *)
Theorem fresh_entry_survives_early_sweep :
  forall (md5_hexdigest : string -> string) (isoformat : datetime -> string)
         (now : datetime) (g : Rng) (st : Stores)
         (user_id prospect_id subject body : string) (storyscore : Z)
         (w : World Wire),
    clock w < now + minutes 5 ->
    let '(id, st1, g1) :=
      queue_email md5_hexdigest isoformat now g st user_id prospect_id subject
                  body storyscore in
    exists entry,
      email_id entry = id
      /\ status entry = Queued /\ attempts entry = 0
      /\ In entry (db_list user_id (email_queue st1))
      /\ In entry
           (db_list user_id
              (email_queue
                 (snd (fst (process_queue smtp_deliver smtp_user st1 w))))).
Proof.
  intros md5 iso now g st user_id prospect_id subject body storyscore w Hw.
  rewrite queue_email_unfold.
  set (entry := new_entry md5 iso now g user_id prospect_id subject body
                          storyscore).
  assert (Hin : In entry
                  (db_list user_id
                     (db_append user_id entry (email_queue st)))).
  { rewrite db_list_append_same. apply in_or_app. right. now left. }
  exists entry. repeat split; [exact Hin|].
  apply waiting_entry_survives; [exact Hin|].
  unfold waiting, entry, new_entry. cbn [status scheduled_for status_eqb andb].
  apply negb_true_iff, Z.leb_gt.
  pose proof (randint_range 5 30 g ltac:(lia)) as Hr. unfold minutes in *.
  lia.
Qed.

(** After a sweep the status of every tenant reports no failed message,
    whatever happened, and counts every entry of the queue as queued. *)
Theorem status_after_sweep :
  forall (st : Stores) (w : World Wire) (now : datetime) (user_id : string),
    let st' := snd (fst (process_queue smtp_deliver smtp_user st w)) in
    failed (get_queue_status now st' user_id) = 0%nat
    /\ queued (get_queue_status now st' user_id)
       = List.length (db_list user_id (email_queue st')).
Proof.
  intros st w now user_id st'.
  pose proof (process_queue_keeps_no_failed Wire smtp_deliver smtp_user st w)
    as [Hq _]. cbv zeta in Hq. fold st' in Hq. specialize (Hq user_id).
  unfold get_queue_status. cbn [failed queued]. unfold count_if.
  induction (db_list user_id (email_queue st')) as [|e l IH];
    [split; reflexivity|].
  cbn [filter]. rewrite (Hq e) by now left. cbn [status_eqb List.length].
  destruct IH as [IH1 IH2]; [intros e' He'; apply Hq; now right|].
  split; [exact IH1 | now rewrite IH2].
Qed.

End WaitingFacts.

(** ** The status after an enqueue *)
Section StatusFacts.

Lemma count_if_app (test : Email -> bool) (l l' : list Email) :
  count_if test (l ++ l') = (count_if test l + count_if test l')%nat.
Proof. unfold count_if. now rewrite filter_app, length_app. Qed.

(** An enqueue raises the tenant's queued count by one and changes nothing
    else in anybody's status. *)
Theorem status_after_enqueue :
  forall (md5_hexdigest : string -> string) (isoformat : datetime -> string)
         (now later : datetime) (g : Rng) (st : Stores)
         (user_id prospect_id subject body : string) (storyscore : Z),
    let '(id, st1, g1) :=
      queue_email md5_hexdigest isoformat now g st user_id prospect_id subject
                  body storyscore in
    queued (get_queue_status later st1 user_id)
    = S (queued (get_queue_status later st user_id))
    /\ failed (get_queue_status later st1 user_id)
       = failed (get_queue_status later st user_id)
    /\ sent_today (get_queue_status later st1 user_id)
       = sent_today (get_queue_status later st user_id)
    /\ total_sent (get_queue_status later st1 user_id)
       = total_sent (get_queue_status later st user_id)
    /\ (forall other, other <> user_id ->
          get_queue_status later st1 other = get_queue_status later st other).
Proof.
  intros. rewrite queue_email_unfold. unfold get_queue_status.
  cbn [email_queue email_history queued failed sent_today total_sent].
  rewrite db_list_append_same, !count_if_app.
  repeat split.
  - unfold count_if at 2. cbn. lia.
  - unfold count_if at 2. cbn. lia.
  - intros other Hne. unfold db_list.
    now rewrite db_get_append_other.
Qed.

End StatusFacts.

(** ** The sweep without an SMTP user *)
Section MockSweep.

Variable Wire : Type.
Variable smtp_deliver : Wire -> string -> Email -> bool * Wire.

Lemma dispatch_mock_due (current_time : datetime) (user_id : string)
    (e : Email) (s : Sweep Wire) :
  due current_time e = true ->
  dispatch smtp_deliver "" current_time user_id e s
  = (mark_sent current_time e,
     mkSweep (S (emails_sent s))
             (db_append user_id (mark_sent current_time e) (history s))
             (rate_limit (world s))).
Proof.
  unfold due, dispatch, _send_email. intros H.
  apply andb_true_iff in H as [Hq Hd]. rewrite Hq, Hd. reflexivity.
Qed.

Lemma dispatch_not_queued (smtp_user : string) (current_time : datetime)
    (user_id : string) (e : Email) (s : Sweep Wire) :
  status_eqb (status e) Queued = false ->
  dispatch smtp_deliver smtp_user current_time user_id e s = (e, s).
Proof. unfold dispatch. now intros ->. Qed.

Lemma db_list_append_keeps (user_id other : string) (x y : Email) (db : Db) :
  In x (db_list other db) -> In x (db_list other (db_append user_id y db)).
Proof.
  intros H. destruct (String.eqb_spec other user_id) as [->|Hne].
  - rewrite db_list_append_same. apply in_or_app. now left.
  - unfold db_list. now rewrite db_get_append_other.
Qed.

Lemma dispatch_history_grows (smtp_user : string) (current_time : datetime)
    (user_id : string) (e : Email) (s : Sweep Wire) (other : string)
    (x : Email) :
  In x (db_list other (history s)) ->
  In x (db_list other
          (history (snd (dispatch smtp_deliver smtp_user current_time user_id
                                  e s)))).
Proof.
  intros H. unfold dispatch.
  destruct (negb (status_eqb (status e) Queued)); [exact H|].
  destruct (scheduled_for e <=? current_time); [|exact H].
  destruct (_send_email smtp_deliver smtp_user user_id e (world s))
    as [[|] w]; cbn [snd history].
  - now apply db_list_append_keeps.
  - destruct (3 <=? _); exact H.
Qed.

Lemma process_user_queue_history_grows (smtp_user : string)
    (current_time : datetime) (user_id other : string) (x : Email) :
  forall (user_queue : list Email) (s : Sweep Wire),
    In x (db_list other (history s)) ->
    In x (db_list other
            (history (snd (process_user_queue smtp_deliver smtp_user
                             current_time user_id user_queue s)))).
Proof.
  induction user_queue as [|e rest IH]; intros s H; cbn [process_user_queue];
    [exact H|].
  pose proof (dispatch_history_grows smtp_user current_time user_id e s
                other x H) as H1.
  destruct (dispatch _ _ current_time user_id e s) as [e' s1].
  specialize (IH s1 H1).
  destruct (process_user_queue _ _ _ _ rest s1) as [rest' s2]. exact IH.
Qed.

Lemma process_users_history_grows (smtp_user : string)
    (current_time : datetime) (other : string) (x : Email) :
  forall (queue : Db) (s : Sweep Wire),
    In x (db_list other (history s)) ->
    In x (db_list other
            (history (snd (process_users smtp_deliver smtp_user current_time
                                         queue s)))).
Proof.
  induction queue as [|[user_id user_queue] rest IH]; intros s H;
    cbn [process_users]; [exact H|].
  pose proof (process_user_queue_history_grows smtp_user current_time user_id
                other x user_queue s H) as H1.
  destruct (process_user_queue _ _ _ _ user_queue s) as [user_queue' s1].
  specialize (IH s1 H1).
  destruct (process_users _ _ _ rest s1) as [rest' s2]. exact IH.
Qed.

(** The inner loop without an SMTP user: what stays active is what was
    waiting, the due entries are counted as sent, and each is in the
    tenant's history, marked Sent at the time of the sweep. *)
Lemma process_user_queue_mock (current_time : datetime) (user_id : string) :
  forall (user_queue : list Email) (s : Sweep Wire),
    let r :=
      process_user_queue smtp_deliver "" current_time user_id user_queue s in
    filter still_active (fst r) = filter (waiting current_time) user_queue
    /\ emails_sent (snd r)
       = (emails_sent s
          + List.length (filter (due current_time) user_queue))%nat
    /\ (forall e, In e user_queue -> due current_time e = true ->
          In (mark_sent current_time e)
             (db_list user_id (history (snd r)))).
Proof.
  induction user_queue as [|e rest IH]; intros s; cbn [process_user_queue].
  - cbn. repeat split; [lia | contradiction].
  - destruct (status_eqb (status e) Queued) eqn:Hq.
    + destruct (scheduled_for e <=? current_time) eqn:Hd.
      * assert (Hdue : due current_time e = true)
          by (unfold due; now rewrite Hq, Hd).
        rewrite dispatch_mock_due by assumption.
        set (s1 := mkSweep _ _ _).
        pose proof (process_user_queue_history_grows "" current_time user_id
                      user_id (mark_sent current_time e) rest s1) as Hg.
        specialize (IH s1). cbv zeta in IH.
        destruct (process_user_queue _ _ _ _ rest s1) as [rest' s2].
        destruct IH as (IH1 & IH2 & IH3). cbn [fst snd filter] in *.
        unfold waiting at 1. rewrite Hq, Hd, Hdue. cbn [andb negb].
        replace (still_active (mark_sent current_time e)) with false
          by reflexivity.
        repeat split.
        -- exact IH1.
        -- rewrite IH2. subst s1. cbn [emails_sent List.length]. lia.
        -- intros e' [<-|Hin] He'; [|now apply IH3].
           apply Hg. subst s1. cbn [history].
           rewrite db_list_append_same. apply in_or_app. right. now left.
      * rewrite dispatch_waiting by (unfold waiting; now rewrite Hq, Hd).
        specialize (IH s). cbv zeta in IH.
        destruct (process_user_queue _ _ _ _ rest s) as [rest' s2].
        destruct IH as (IH1 & IH2 & IH3). cbn [fst snd filter] in *.
        unfold waiting at 1, due at 1. rewrite Hq, Hd. cbn [andb negb].
        replace (still_active e) with true
          by (unfold still_active; apply status_eqb_eq in Hq; now rewrite Hq).
        repeat split.
        -- now rewrite IH1.
        -- exact IH2.
        -- intros e' [<-|Hin] He'; [|now apply IH3].
           unfold due in He'. rewrite Hq, Hd in He'. discriminate.
    + rewrite dispatch_not_queued by assumption.
      specialize (IH s). cbv zeta in IH.
      destruct (process_user_queue _ _ _ _ rest s) as [rest' s2].
      destruct IH as (IH1 & IH2 & IH3). cbn [fst snd filter] in *.
      unfold waiting at 1, due at 1. rewrite Hq. cbn [andb].
      replace (still_active e) with false
        by (unfold still_active; destruct (status e); cbn in *; congruence).
      repeat split.
      * exact IH1.
      * exact IH2.
      * intros e' [<-|Hin] He'; [|now apply IH3].
        unfold due in He'. rewrite Hq in He'. discriminate.
Qed.

(** Without an SMTP user every send succeeds: the sweep keeps in each
    tenant's queue exactly the entries that were Queued and not yet due,
    reports as many sends as there were due entries, and each due entry is
    in its tenant's history, marked Sent at the time the sweep started. *)
Theorem mock_sweep :
  forall (st : Stores) (w : World Wire),
    let '(n, st', w') := process_queue smtp_deliver "" st w in
    email_queue st'
    = map (fun kv => (fst kv, filter (waiting (clock w)) (snd kv)))
          (email_queue st)
    /\ n = count_due (clock w) (email_queue st)
    /\ (forall user_id user_queue e,
          In (user_id, user_queue) (email_queue st) -> In e user_queue ->
          due (clock w) e = true ->
          In (mark_sent (clock w) e) (db_list user_id (email_history st'))).
Proof.
  intros st w. unfold process_queue.
  set (ct := clock w).
  assert (H : forall (queue : Db) (s : Sweep Wire),
             let r := process_users smtp_deliver "" ct queue s in
             clean_up (fst r)
             = map (fun kv => (fst kv, filter (waiting ct) (snd kv))) queue
             /\ emails_sent (snd r)
                = (emails_sent s + count_due ct queue)%nat
             /\ (forall user_id user_queue e,
                   In (user_id, user_queue) queue -> In e user_queue ->
                   due ct e = true ->
                   In (mark_sent ct e) (db_list user_id (history (snd r))))).
  { induction queue as [|[u q] rest IH]; intros s; cbn [process_users].
    - cbn. repeat split; [lia | contradiction].
    - pose proof (process_user_queue_mock ct u q s) as Hq. cbv zeta in Hq.
      destruct (process_user_queue _ _ _ _ q s) as [q' s1].
      destruct Hq as (Hq1 & Hq2 & Hq3).
      pose proof (fun x Hx =>
                    process_users_history_grows "" ct u x rest s1 Hx) as Hg.
      specialize (IH s1). cbv zeta in IH.
      destruct (process_users _ _ _ rest s1) as [rest' s2].
      destruct IH as (IH1 & IH2 & IH3). cbn [fst snd] in *.
      repeat split.
      + cbn [clean_up map fst snd]. fold (clean_up rest').
        now rewrite Hq1, IH1.
      + rewrite IH2, Hq2. cbn [count_due fold_right snd].
        fold (count_due ct rest). lia.
      + intros u' q0 e [Heq|Hin] He Hd.
        * injection Heq as <- <-. apply Hg. now apply Hq3.
        * now apply (IH3 u' q0 e). }
  specialize (H (email_queue st) (mkSweep 0 (email_history st) w)).
  cbv zeta in H.
  destruct (process_users _ _ _ _ _) as [queue' s].
  cbn [fst snd emails_sent email_queue email_history] in *.
  destruct H as (H1 & H2 & H3). repeat split; assumption.
Qed.

End MockSweep.

(** A queue whose only entry is scheduled an hour after the sweep. *)
Lemma sweep_before_due_witness :
  process_queue (fun (w : unit) (_ : string) (_ : Email) => (false, w))
    "mailer"
    (mkStores
       [("u1", [mkEmail "0a1b2c3d" "p1" "Hello" "Body" 10 0 Queued 1
                        (hours 4) None])] [])
    (mkWorld (hours 3) [5%N] tt)
  = (0%nat,
     mkStores
       [("u1", [mkEmail "0a1b2c3d" "p1" "Hello" "Body" 10 0 Queued 1
                        (hours 4) None])] [],
     mkWorld (hours 3) [5%N] tt).
Proof.
  apply sweep_before_due.
  intros user_id user_queue e [H|[]] He. injection H as <- <-.
  destruct He as [<-|[]]. split; [reflexivity | vm_compute; reflexivity].
Defined.

(** An enqueue at 0 followed by a sweep at the same instant. *)
Lemma fresh_entry_survives_early_sweep_witness :
  let '(id, st1, g1) :=
    queue_email (fun s => s) (fun _ => "T") 0 [7%N] (mkStores [] [])
                "u1" "p1" "Hello" "Body" 10 in
  exists entry,
    email_id entry = id
    /\ status entry = Queued /\ attempts entry = 0
    /\ In entry (db_list "u1" (email_queue st1))
    /\ In entry
         (db_list "u1"
            (email_queue
               (snd (fst (process_queue
                            (fun (w : unit) (_ : string) (_ : Email) =>
                               (false, w))
                            "mailer" st1 (mkWorld 0 [] tt)))))).
Proof.
  exact (fresh_entry_survives_early_sweep unit
           (fun (w : unit) (_ : string) (_ : Email) => (false, w)) "mailer"
           (fun s => s) (fun _ => "T") 0 [7%N] (mkStores [] [])
           "u1" "p1" "Hello" "Body" 10 (mkWorld 0 [] tt) eq_refl).
Defined.

(** ** The range of the spam score *)
Section SpamRange.
Open Scope Q_scope.

Lemma max0_range (score hi : Q) : score <= hi -> 0 <= hi -> 0 <= max0 score <= hi.
Proof.
  intros H Hhi. unfold max0. destruct (Qgtb score 0) eqn:E.
  - apply Qgtb_true in E. lra.
  - lra.
Qed.

Lemma score_subject_range (subject : string) :
  0 <= score_subject subject <= 7.
Proof.
  unfold score_subject.
  destruct (100 <? len subject)%Z; destruct (isupper subject);
    destruct (any_in _ _); lra.
Qed.

(** Whenever it is computed, the spam score lies between 0 and 20: at most
    7 from the subject and 13 from the body, and never negative. The gate
    at 5 sits in the lower quarter of that range. *)
Theorem spam_score_range :
  forall (subject body : string) (spam_score : Q),
    check_spam_score subject body = Ok spam_score ->
    0 <= spam_score <= 20.
Proof.
  intros subject body spam_score H. unfold check_spam_score in H.
  destruct (truediv _ _) as [caps_ratio|]; [|discriminate].
  injection H as <-.
  pose proof (score_subject_range subject) as H0.
  set (s0 := score_subject subject) in *. clearbody s0.
  unfold score_body. cbn [fold_left spam_phrases].
  set (s1 := if Qgtb caps_ratio 0.3 then _ else _).
  assert (H1 : 0 <= s1 <= 9) by (subst s1; destruct (Qgtb _ _); lra).
  clearbody s1.
  set (s2 := if contains "click here" _ then _ else _).
  assert (H2 : 0 <= s2 <= 10.5) by (subst s2; destruct (contains _ _); lra).
  clearbody s2.
  set (s3 := if contains "act now" _ then _ else _).
  assert (H3 : 0 <= s3 <= 12) by (subst s3; destruct (contains _ _); lra).
  clearbody s3.
  set (s4 := if contains "limited time" _ then _ else _).
  assert (H4 : 0 <= s4 <= 13.5) by (subst s4; destruct (contains _ _); lra).
  clearbody s4.
  set (s5 := if contains "risk free" _ then _ else _).
  assert (H5 : 0 <= s5 <= 15) by (subst s5; destruct (contains _ _); lra).
  clearbody s5.
  set (s6 := if (3 <? count "http" _)%nat then _ else _).
  assert (H6 : 0 <= s6 <= 17) by (subst s6; destruct (_ <? _)%nat; lra).
  clearbody s6.
  set (s7 := if (3 <? count "!" _)%nat then _ else _).
  assert (H7 : 0 <= s7 <= 18) by (subst s7; destruct (_ <? _)%nat; lra).
  clearbody s7.
  set (s8 := if (2 <? count "$" _)%nat then _ else _).
  assert (H8 : 0 <= s8 <= 20) by (subst s8; destruct (_ <? _)%nat; lra).
  clearbody s8.
  apply max0_range; [|lra].
  destruct (contains "unsubscribe" _); destruct (_ && _); lra.
Qed.

End SpamRange.

(** The score of a shouted subject over a plain body. *)
Lemma spam_score_range_witness :
  check_spam_score "FREE GUARANTEE" "hello" = Ok 5%Q /\ (0 <= 5 <= 20)%Q.
Proof.
  split; [reflexivity|].
  exact (spam_score_range "FREE GUARANTEE" "hello" 5%Q eq_refl).
Defined.

(** ** Patterns without braces *)
Section PlainText.

Lemma replace_variable_plain (text : string) (kv : string * string) :
  mem_char lbrace text = false -> replace_variable text kv = text.
Proof.
  intros H. unfold replace_variable, replace.
  apply replace_from_absent. now apply contains_needs_first_char.
Qed.

(** A pattern that holds no opening brace comes back as it is, whatever the
    variables, and the generator is not used: nothing in it can be a
    variable token or a group. *)
Theorem plain_text_is_verbatim :
  forall (text : string) (variables : list (string * string)) (fuel : nat)
         (g : Rng),
    mem_char lbrace text = false ->
    process_spintax fuel text variables g = Some (text, g).
Proof.
  intros text variables fuel g H. unfold process_spintax.
  assert (Hs : substitute_variables text variables = text).
  { unfold substitute_variables.
    induction variables as [|kv rest IH]; [reflexivity|].
    cbn [fold_left]. now rewrite replace_variable_plain. }
  rewrite Hs. destruct fuel; cbn [spintax_loop]; unfold has_spintax_chars;
    rewrite H; reflexivity.
Qed.

End PlainText.

(** A signature line with a pipe and no brace. *)
Lemma plain_text_is_verbatim_witness :
  process_spintax 0 "Eloquas AI | Sales" [("name", "{x|y}")] [4%N]
  = Some ("Eloquas AI | Sales", [4%N]).
Proof.
  exact (plain_text_is_verbatim "Eloquas AI | Sales" [("name", "{x|y}")] 0
           [4%N] eq_refl).
Defined.

(** ** Templates read as segments *)
Section TemplateFacts.

Lemma string_app_assoc (a b c : string) : (a ++ b) ++ c = a ++ (b ++ c).
Proof. induction a as [|x a IH]; cbn; [reflexivity | now rewrite IH]. Qed.

Lemma token_app (x rest : string) :
  token x ++ rest = String lbrace (x ++ String rbrace rest).
Proof. unfold token. cbn [append]. now rewrite string_app_assoc. Qed.

Lemma brace_free_app (a b : string) :
  brace_free (a ++ b) = brace_free a && brace_free b.
Proof.
  unfold brace_free. rewrite !mem_char_append.
  destruct (mem_char lbrace a), (mem_char lbrace b), (mem_char rbrace a),
    (mem_char rbrace b); reflexivity.
Qed.

Lemma brace_free_no_lbrace (s : string) :
  brace_free s = true -> mem_char lbrace s = false.
Proof.
  unfold brace_free. intros H. apply andb_true_iff in H as [H _].
  now apply negb_true_iff in H.
Qed.

Lemma brace_free_head (c : ascii) (s : string) :
  brace_free (String c s) = true ->
  char_eqb c lbrace = false /\ char_eqb c rbrace = false
  /\ brace_free s = true.
Proof.
  intros H. apply brace_free_cons in H as (H1 & H2 & H3).
  unfold char_eqb. repeat split; [| |exact H3]; now apply Ascii.eqb_neq.
Qed.

(** *** One replacement over a template *)

Lemma last_open_weaken (p : string) :
  last_open true p = false -> last_open false p = false.
Proof.
  induction p as [|c p IH]; cbn [last_open]; [discriminate|].
  destruct (char_eqb c lbrace); [auto|].
  destruct (char_eqb c rbrace); auto.
Qed.

Lemma last_open_tail (c : ascii) (p : string) :
  last_open false (String c p) = false -> last_open false p = false.
Proof.
  cbn [last_open]. destruct (char_eqb c lbrace); [apply last_open_weaken|].
  destruct (char_eqb c rbrace); auto.
Qed.

Lemma last_open_brace_free (open : bool) (s : string) :
  brace_free s = true -> last_open open s = open.
Proof.
  induction s as [|c s IH]; intros H; [reflexivity|].
  apply brace_free_head in H as (H1 & H2 & H3). cbn [last_open].
  rewrite H1, H2. now apply IH.
Qed.

Lemma last_open_token (x : string) :
  brace_free x = true -> last_open false (token x) = false.
Proof.
  intros H. unfold token. cbn [last_open]. unfold char_eqb at 1.
  rewrite Ascii.eqb_refl.
  induction x as [|c x IH]; [reflexivity|].
  apply brace_free_head in H as (H1 & H2 & H3). cbn [append last_open].
  rewrite H1, H2. now apply IH.
Qed.

Lemma prefix_length (a s : string) :
  prefix a s = true -> (String.length a <= String.length s)%nat.
Proof.
  revert s. induction a as [|c a IH]; intros [|d s]; cbn; try lia;
    try discriminate.
  destruct (ascii_dec c d); [|discriminate]. intros H. apply IH in H. lia.
Qed.

Lemma prefix_empty (s : string) : prefix "" s = true.
Proof. now destruct s. Qed.

(** A token that starts inside a text whose last brace closes ends inside
    that text. *)
Lemma prefix_key_closed :
  forall key p rest,
    brace_free key = true -> last_open true p = false ->
    prefix (key ++ String rbrace "") (p ++ rest)
    = prefix (key ++ String rbrace "") p.
Proof.
  induction key as [|a key IH]; intros [|d p] rest Hk Hp;
    try (cbn in Hp; discriminate).
  - cbn [append prefix]. destruct (ascii_dec rbrace d); [|reflexivity].
    now rewrite !prefix_empty.
  - apply brace_free_head in Hk as (H1 & H2 & H3). cbn [append prefix].
    destruct (ascii_dec a d) as [<-|]; [|reflexivity].
    apply IH; [exact H3|]. cbn [last_open] in Hp. now rewrite H1, H2 in Hp.
Qed.

Lemma prefix_token_closed (key : string) (c : ascii) (p rest : string) :
  brace_free key = true -> last_open false (String c p) = false ->
  prefix (token key) (String c p ++ rest) = prefix (token key) (String c p).
Proof.
  intros Hk Hp. unfold token. cbn [append prefix].
  destruct (ascii_dec lbrace c) as [<-|]; [|reflexivity].
  apply prefix_key_closed; [exact Hk|]. cbn [last_open] in Hp.
  unfold char_eqb in Hp. now rewrite Ascii.eqb_refl in Hp.
Qed.

(** [str.replace] of a token works piece by piece on a text cut after a
    closing brace. *)
Lemma replace_from_closed (key value : string) :
  brace_free key = true ->
  forall p skip rest,
    last_open false p = false -> (skip <= String.length p)%nat ->
    replace_from (token key) value skip (p ++ rest)
    = replace_from (token key) value skip p
      ++ replace_from (token key) value 0 rest.
Proof.
  intros Hk. induction p as [|c p IH]; intros skip rest Hp Hs.
  - cbn in Hs. assert (skip = 0)%nat as -> by lia. reflexivity.
  - pose proof (last_open_tail c p Hp) as Hp'.
    destruct skip as [|k].
    + change (replace_from ?o ?n 0 (String c p ++ rest))
        with (if prefix o (String c p ++ rest)
              then n ++ replace_from o n (String.length o - 1) (p ++ rest)
              else String c (replace_from o n 0 (p ++ rest))).
      change (replace_from ?o ?n 0 (String c p))
        with (if prefix o (String c p)
              then n ++ replace_from o n (String.length o - 1) p
              else String c (replace_from o n 0 p)).
      rewrite prefix_token_closed by assumption.
      destruct (prefix (token key) (String c p)) eqn:E.
      * apply prefix_length in E. cbn [String.length] in E.
        rewrite IH by (assumption || lia). now rewrite string_app_assoc.
      * rewrite IH by (assumption || lia). reflexivity.
    + cbn [append replace_from]. apply IH; [assumption|].
      cbn [String.length] in Hs. lia.
Qed.

Lemma replace_brace_free (key value s : string) :
  brace_free s = true -> replace (token key) value s = s.
Proof.
  intros H. unfold replace, token. apply replace_from_absent.
  apply contains_needs_first_char. now apply brace_free_no_lbrace.
Qed.

Lemma replace_token (key value x : string) :
  brace_free key = true -> brace_free x = true ->
  replace (token key) value (token x)
  = if String.eqb key x then value else token x.
Proof.
  intros Hk Hx. destruct (String.eqb_spec key x) as [->|Hne].
  - apply replace_token_self.
  - apply replace_other_token; congruence.
Qed.

Lemma replace_app_closed (key value p rest : string) :
  brace_free key = true -> last_open false p = false ->
  replace (token key) value (p ++ rest)
  = replace (token key) value p ++ replace (token key) value rest.
Proof.
  intros Hk Hp. unfold replace, token. fold (token key).
  apply replace_from_closed; [assumption | assumption | lia].
Qed.

Lemma replace_render (key value : string) :
  brace_free key = true ->
  forall segs,
    forallb well_formed segs = true ->
    replace (token key) value (render segs)
    = render (map (fill_one key value) segs).
Proof.
  intros Hk. induction segs as [|seg rest IH]; intros H.
  - reflexivity.
  - cbn [forallb] in H. apply andb_true_iff in H as [Hseg Hrest].
    cbn [render map]. destruct seg as [s|x]; cbn [well_formed] in Hseg.
    + rewrite replace_app_closed
        by (assumption || now apply last_open_brace_free).
      cbn [render_segment fill_one].
      now rewrite replace_brace_free, IH.
    + rewrite replace_app_closed
        by (assumption || now apply last_open_token).
      cbn [render_segment fill_one].
      rewrite replace_token, IH by assumption.
      now destruct (String.eqb key x).
Qed.

Lemma fill_one_well_formed (key value : string) (segs : list segment) :
  brace_free value = true ->
  forallb well_formed segs = true ->
  forallb well_formed (map (fill_one key value) segs) = true.
Proof.
  intros Hv. induction segs as [|seg rest IH]; intros H; [reflexivity|].
  cbn [forallb map] in *. apply andb_true_iff in H as [Hseg Hrest].
  rewrite IH by assumption. destruct seg as [s|x]; cbn [fill_one].
  - cbn [well_formed] in *. now rewrite Hseg.
  - destruct (String.eqb key x); cbn [well_formed] in *;
      [now rewrite Hv | now rewrite Hseg].
Qed.

Lemma fill_cons (key value : string) (variables : list (string * string))
    (seg : segment) :
  fill variables (fill_one key value seg) = fill ((key, value) :: variables) seg.
Proof.
  destruct seg as [s|x]; cbn [fill fill_one lookup_variable]; [reflexivity|].
  destruct (String.eqb key x); reflexivity.
Qed.

Lemma substitute_render :
  forall (segs : list segment) (variables : list (string * string)),
    forallb well_formed segs = true ->
    forallb plain_variable variables = true ->
    substitute_variables (render segs) variables
    = render (map (fill variables) segs).
Proof.
  intros segs variables. revert segs.
  induction variables as [|[k v] rest IH]; intros segs Hw Hv.
  - cbn [substitute_variables fold_left].
    f_equal. induction segs as [|seg segs IHs]; [reflexivity|].
    cbn [map]. cbn [forallb] in Hw. apply andb_true_iff in Hw as [_ Hw].
    rewrite <- IHs by assumption. now destruct seg.
  - cbn [forallb] in Hv. apply andb_true_iff in Hv as [Hkv Hv].
    unfold plain_variable in Hkv. cbn [fst snd] in Hkv.
    apply andb_true_iff in Hkv as [Hk Hval].
    unfold substitute_variables in *. cbn [fold_left].
    unfold replace_variable at 2. cbn [fst snd]. fold (token k).
    rewrite replace_render by assumption.
    rewrite IH by (try apply fill_one_well_formed; assumption).
    rewrite map_map. f_equal. apply map_ext. intros seg. apply fill_cons.
Qed.

Lemma lookup_variable_plain (variables : list (string * string)) (x v : string) :
  forallb plain_variable variables = true ->
  lookup_variable x variables = Some v -> brace_free v = true.
Proof.
  induction variables as [|[k w] rest IH]; intros Hp Hl; [discriminate|].
  cbn [forallb lookup_variable] in *.
  apply andb_true_iff in Hp as [Hkw Hp].
  destruct (String.eqb k x).
  - injection Hl as <-. unfold plain_variable in Hkw.
    now apply andb_true_iff in Hkw as [_ Hkw].
  - now apply IH.
Qed.

(** When no key and no value holds a brace, the passes of
    [substitute_variables] amount to one simultaneous substitution: every
    token of the template that names a variable is replaced by the value of
    that variable, and nothing else changes; what comes out is again a
    sequence of brace-free pieces and brace pairs. *)
Theorem substitution_on_template :
  forall (segs : list segment) (variables : list (string * string)),
    forallb well_formed segs = true ->
    forallb plain_variable variables = true ->
    substitute_variables (render segs) variables
    = render (map (fill variables) segs)
    /\ forallb well_formed (map (fill variables) segs) = true.
Proof.
  intros segs variables Hw Hv. split; [now apply substitute_render|].
  induction segs as [|seg rest IH]; [reflexivity|].
  cbn [forallb map] in *. apply andb_true_iff in Hw as [Hseg Hrest].
  rewrite (IH Hrest), andb_true_r.
  destruct seg as [s|x]; cbn [fill well_formed] in *; [exact Hseg|].
  destruct (lookup_variable x variables) as [v|] eqn:E;
    cbn [well_formed]; [|exact Hseg].
  now apply (lookup_variable_plain variables x).
Qed.

(** *** One pass of the regular expression over a template *)

Lemma span_no_brace_app (x : string) (c : ascii) (rest : string) :
  brace_free x = true -> is_brace c = true ->
  span_no_brace (x ++ String c rest) = (x, String c rest).
Proof.
  intros Hx Hc. induction x as [|d x IH]; cbn [append span_no_brace].
  - now rewrite Hc.
  - apply brace_free_head in Hx as (H1 & H2 & H3).
    unfold is_brace. rewrite H1, H2. cbn [orb]. now rewrite IH.
Qed.

Lemma re_sub_skip (s : string) :
  forall k t g, re_sub (String.length s + k) (s ++ t) g = re_sub k t g.
Proof.
  induction s as [|c s IH]; intros k t g; [reflexivity|].
  cbn [String.length Nat.add append re_sub]. apply IH.
Qed.

Lemma re_sub_lit (s rest : string) (g : Rng) :
  brace_free s = true ->
  re_sub 0 (s ++ rest) g
  = let (out, g') := re_sub 0 rest g in (s ++ out, g').
Proof.
  intros H. induction s as [|c s IH].
  - cbn [append]. now destruct (re_sub 0 rest g).
  - apply brace_free_head in H as (H1 & H2 & H3).
    cbn [append re_sub]. rewrite H1. cbn [andb].
    destruct (span_no_brace (s ++ rest)).
    rewrite IH by assumption. now destruct (re_sub 0 rest g).
Qed.

Lemma re_sub_brace (x rest : string) (g : Rng) :
  brace_free x = true ->
  re_sub 0 (token x ++ rest) g
  = if is_group x
    then let (opt, g1) := replace_spintax x g in
         let (out, g2) := re_sub 0 rest g1 in
         (opt ++ out, g2)
    else let (out, g') := re_sub 0 rest g in (token x ++ out, g').
Proof.
  intros H. rewrite token_app. cbn [re_sub].
  rewrite span_no_brace_app by (assumption || reflexivity).
  unfold char_eqb at 1. rewrite Ascii.eqb_refl. cbn [andb starts_with].
  unfold char_eqb at 1. rewrite Ascii.eqb_refl, andb_true_r.
  destruct (is_group x).
  - destruct (replace_spintax x g) as [opt g1].
    replace (S (String.length x)) with (String.length x + 1)%nat by lia.
    rewrite re_sub_skip. cbn [re_sub]. reflexivity.
  - rewrite re_sub_lit by assumption. cbn [re_sub].
    destruct (span_no_brace rest).
    replace (char_eqb rbrace lbrace) with false by reflexivity. cbn [andb].
    destruct (re_sub 0 rest g) as [out g']. now rewrite token_app.
Qed.

Lemma split_on_nonempty (sep : ascii) (s : string) :
  List.length (split_on sep s) <> 0%nat.
Proof.
  unfold split_on. generalize EmptyString.
  induction s as [|c s IH]; intros cur; cbn [split_on_from].
  - discriminate.
  - destruct (char_eqb c sep); [discriminate | apply IH].
Qed.

Lemma re_sub_render :
  forall (segs : list segment) (g : Rng),
    forallb well_formed segs = true ->
    re_sub 0 (render segs) g = expand segs g.
Proof.
  induction segs as [|seg rest IH]; intros g H; [reflexivity|].
  cbn [forallb] in H. apply andb_true_iff in H as [Hseg Hrest].
  cbn [render]. destruct seg as [s|x]; cbn [well_formed] in Hseg;
    cbn [render_segment expand].
  - now rewrite re_sub_lit, IH by assumption.
  - rewrite re_sub_brace by assumption. destruct (is_group x).
    + destruct (replace_spintax x g) as [opt g1]. now rewrite IH.
    + now rewrite IH.
Qed.

(** One pass of [re.sub] over a template replaces every group by the
    alternative the generator picks for it, from left to right, and keeps
    the literal text and the other brace pairs verbatim. *)
Theorem one_pass_expansion :
  forall (segs : list segment) (g : Rng),
    forallb well_formed segs = true ->
    re_sub 0 (render segs) g = expand segs g
    /\ exists pieces,
        Forall2 alternative_of segs pieces
        /\ fst (expand segs g) = fold_right append EmptyString pieces.
Proof.
  induction segs as [|seg rest IH]; intros g H.
  - split; [reflexivity|]. exists []. split; [constructor | reflexivity].
  - cbn [forallb] in H. apply andb_true_iff in H as [Hseg Hrest].
    cbn [render]. destruct seg as [s|x]; cbn [well_formed] in Hseg;
      cbn [render_segment expand].
    + destruct (IH g Hrest) as (IH1 & pieces & IH2 & IH3).
      rewrite re_sub_lit, IH1 by assumption.
      destruct (expand rest g) as [out g']. cbn [fst] in *.
      split; [reflexivity|]. exists (s :: pieces).
      split; [constructor; [reflexivity | exact IH2]|].
      cbn [fold_right]. now rewrite IH3.
    + rewrite re_sub_brace by assumption.
      destruct (is_group x) eqn:Eg.
      * unfold replace_spintax, choice.
        destruct (draw g) as [r g1].
        destruct (IH g1 Hrest) as (IH1 & pieces & IH2 & IH3).
        rewrite IH1. destruct (expand rest g1) as [out g2]. cbn [fst] in *.
        split; [reflexivity|].
        exists (nth (N.to_nat r mod List.length (split_on pipe x))
                    (split_on pipe x) "" :: pieces).
        split.
        -- constructor; [|exact IH2]. cbn [alternative_of]. rewrite Eg.
           apply nth_In. apply Nat.mod_upper_bound.
           apply split_on_nonempty.
        -- cbn [fold_right]. now rewrite IH3.
      * destruct (IH g Hrest) as (IH1 & pieces & IH2 & IH3).
        rewrite IH1. destruct (expand rest g) as [out g']. cbn [fst] in *.
        split; [reflexivity|]. exists (token x :: pieces).
        split.
        -- constructor; [|exact IH2]. cbn [alternative_of]. now rewrite Eg.
        -- cbn [fold_right]. now rewrite IH3.
Qed.

End TemplateFacts.

(** ** Templates whose brace pairs are all accounted for *)
Section ResolvedTemplates.

Lemma brace_free_rev_string (cur acc : string) :
  brace_free (rev_string acc cur) = brace_free acc && brace_free cur.
Proof.
  revert acc. induction cur as [|c cur IH]; intros acc; cbn [rev_string].
  - now rewrite andb_true_r.
  - rewrite IH. change (String c acc) with (String c "" ++ acc).
    change (String c cur) with (String c "" ++ cur).
    rewrite !brace_free_app.
    destruct (brace_free (String c "")), (brace_free acc), (brace_free cur);
      reflexivity.
Qed.

Lemma split_on_from_brace_free (sep : ascii) (s : string) :
  forall cur,
    brace_free cur = true -> brace_free s = true ->
    Forall (fun piece => brace_free piece = true) (split_on_from sep cur s).
Proof.
  induction s as [|c s IH]; intros cur Hc Hs; cbn [split_on_from].
  - constructor; [|constructor]. now rewrite brace_free_rev_string.
  - change (String c s) with (String c "" ++ s) in Hs.
    rewrite brace_free_app in Hs. apply andb_true_iff in Hs as [H1 H2].
    destruct (char_eqb c sep).
    + constructor; [now rewrite brace_free_rev_string | now apply IH].
    + apply IH; [|exact H2].
      change (String c cur) with (String c "" ++ cur).
      now rewrite brace_free_app, H1.
Qed.

(** Whatever the generator draws, the alternative picked from a group
    without braces is without braces. *)
Lemma replace_spintax_brace_free (x : string) (g : Rng) :
  brace_free x = true -> brace_free (fst (replace_spintax x g)) = true.
Proof.
  intros H. unfold replace_spintax, choice. destruct (draw g) as [r g'].
  cbn [fst].
  pose proof (split_on_from_brace_free pipe x "" eq_refl H) as HF.
  fold (split_on pipe x) in HF. rewrite Forall_forall in HF.
  apply HF, nth_In, Nat.mod_upper_bound, split_on_nonempty.
Qed.

Lemma expand_brace_free :
  forall (segs : list segment) (g : Rng),
    forallb well_formed segs = true -> forallb flat segs = true ->
    brace_free (fst (expand segs g)) = true.
Proof.
  induction segs as [|seg rest IH]; intros g Hw Hf; [reflexivity|].
  cbn [forallb] in Hw, Hf.
  apply andb_true_iff in Hw as [Hw1 Hw2].
  apply andb_true_iff in Hf as [Hf1 Hf2].
  destruct seg as [s|x]; cbn [expand well_formed flat] in *.
  - specialize (IH g Hw2 Hf2). destruct (expand rest g) as [out g'].
    cbn [fst] in *. now rewrite brace_free_app, Hw1, IH.
  - rewrite Hf1.
    pose proof (replace_spintax_brace_free x g Hw1) as Hopt.
    destruct (replace_spintax x g) as [opt g1]. cbn [fst] in Hopt.
    specialize (IH g1 Hw2 Hf2). destruct (expand rest g1) as [out g2].
    cbn [fst] in *. now rewrite brace_free_app, Hopt, IH.
Qed.

Lemma pipe_before_last_mem (t : string) :
  pipe_before_last t = true -> mem_char pipe t = true.
Proof.
  induction t as [|c t IH]; [discriminate|].
  cbn [pipe_before_last mem_char]. destruct t as [|d t]; [discriminate|].
  intros H. apply orb_true_iff in H as [H|H].
  - unfold char_eqb in *. apply Ascii.eqb_eq in H as ->.
    now rewrite Ascii.eqb_refl.
  - rewrite (IH H). apply orb_true_r.
Qed.

Lemma is_group_has_pipe (x : string) :
  is_group x = true -> mem_char pipe x = true.
Proof.
  destruct x as [|c t]; [discriminate|]. cbn [is_group mem_char].
  intros H. rewrite (pipe_before_last_mem t H). apply orb_true_r.
Qed.

(** A template that is already final is its own expansion. *)
Lemma expand_without_group :
  forall (segs : list segment) (g : Rng),
    forallb flat segs = true ->
    has_spintax_chars (render segs) = false ->
    expand segs g = (render segs, g).
Proof.
  intros segs g Hf Hn.
  assert (Hlit : forallb (fun seg => match seg with Lit _ => true
                                     | Brace _ => false end) segs = true).
  { induction segs as [|seg rest IH]; [reflexivity|].
    cbn [forallb] in *. apply andb_true_iff in Hf as [Hf1 Hf2].
    destruct seg as [s|x].
    - apply IH; [exact Hf2|]. cbn [render render_segment] in Hn.
      unfold has_spintax_chars in *. rewrite !mem_char_append in Hn.
      destruct (mem_char lbrace (render rest)),
        (mem_char pipe (render rest)), (mem_char rbrace (render rest));
        try reflexivity.
      rewrite !orb_true_r in Hn. discriminate.
    - exfalso. cbn [flat] in Hf1. apply is_group_has_pipe in Hf1.
      cbn [render render_segment] in Hn. unfold has_spintax_chars in Hn.
      rewrite !mem_char_append in Hn. unfold token in Hn.
      cbn [mem_char] in Hn. rewrite !mem_char_append in Hn.
      rewrite Hf1 in Hn. cbn [mem_char] in Hn.
      unfold char_eqb in Hn. rewrite !Ascii.eqb_refl in Hn.
      cbn [orb andb] in Hn. rewrite !orb_true_r in Hn. discriminate. }
  clear Hf Hn. revert g.
  induction segs as [|seg rest IH]; intros g; [reflexivity|].
  cbn [forallb] in Hlit. destruct seg as [s|x]; [|discriminate].
  cbn [expand render render_segment]. now rewrite IH.
Qed.

Lemma spintax_loop_brace_free (fuel : nat) (text : string) (g : Rng) :
  brace_free text = true -> spintax_loop fuel text g = Some (text, g).
Proof.
  intros H. apply brace_free_no_lbrace in H.
  destruct fuel; cbn [spintax_loop]; unfold has_spintax_chars; now rewrite H.
Qed.

Lemma fill_resolved (variables : list (string * string))
    (segs : list segment) :
  forallb plain_variable variables = true ->
  forallb well_formed segs = true ->
  forallb (resolved variables) segs = true ->
  forallb well_formed (map (fill variables) segs) = true
  /\ forallb flat (map (fill variables) segs) = true.
Proof.
  intros Hp. induction segs as [|seg rest IH]; intros Hw Hr;
    [split; reflexivity|].
  cbn [forallb map] in *.
  apply andb_true_iff in Hw as [Hw1 Hw2].
  apply andb_true_iff in Hr as [Hr1 Hr2].
  destruct (IH Hw2 Hr2) as [IH1 IH2]. rewrite IH1, IH2, !andb_true_r.
  destruct seg as [s|x]; cbn [fill resolved well_formed flat] in *.
  - now split.
  - destruct (lookup_variable x variables) as [v|] eqn:E;
      cbn [well_formed flat].
    + split; [|reflexivity]. eapply lookup_variable_plain; eassumption.
    + rewrite orb_false_r in Hr1. now split.
Qed.

(** The loop over a template whose brace pairs are all groups. *)
Lemma spintax_loop_flat (segs : list segment) (fuel : nat) (g : Rng) :
  forallb well_formed segs = true -> forallb flat segs = true ->
  spintax_loop (S fuel) (render segs) g = Some (expand segs g).
Proof.
  intros Hw Hf. pose proof (expand_brace_free segs g Hw Hf) as Hb.
  cbn [spintax_loop].
  destruct (has_spintax_chars (render segs)) eqn:E.
  - rewrite (re_sub_render segs g Hw).
    destruct (expand segs g) as [out g']. cbn [fst] in Hb.
    now apply spintax_loop_brace_free.
  - now rewrite expand_without_group.
Qed.

(** A template in which every brace pair is a group or the token of a
    supplied variable, with no brace inside the pairs, the keys or the
    values: [process_spintax] returns after at most one pass of the loop,
    with every token replaced by its value and every group by one of its
    alternatives, and the text it returns holds no brace. *)
Theorem resolved_template_terminates :
  forall (segs : list segment) (variables : list (string * string))
         (fuel : nat) (g : Rng),
    forallb well_formed segs = true ->
    forallb plain_variable variables = true ->
    forallb (resolved variables) segs = true ->
    process_spintax (S fuel) (render segs) variables g
    = Some (expand (map (fill variables) segs) g)
    /\ brace_free (fst (expand (map (fill variables) segs) g)) = true.
Proof.
  intros segs variables fuel g Hw Hp Hr.
  destruct (fill_resolved variables segs Hp Hw Hr) as [Hw' Hf'].
  pose proof (expand_brace_free _ g Hw' Hf') as Hb.
  split; [|exact Hb].
  unfold process_spintax. rewrite substitute_render by assumption.
  now apply spintax_loop_flat.
Qed.

End ResolvedTemplates.

(** ** What the loop returns *)
Section LoopResult.







End LoopResult.


(** The welcome line with the name supplied. *)
Lemma substitution_on_template_witness :
  substitute_variables "Hi {name}, {glad|happy} to connect at {company}"
    [("name", "Alice"); ("title", "CTO")]
  = "Hi Alice, {glad|happy} to connect at {company}".
Proof.
  exact (proj1 (substitution_on_template
                  [Lit "Hi "; Brace "name"; Lit ", "; Brace "glad|happy";
                   Lit " to connect at "; Brace "company"]
                  [("name", "Alice"); ("title", "CTO")] eq_refl eq_refl)).
Defined.

(** One pass over the welcome line; the generator draws 1 and then 2. *)
Lemma one_pass_expansion_witness :
  re_sub 0 "{Hi|Hello} {name}, {glad|happy|keen} to connect" [1%N; 2%N]
  = ("Hello {name}, keen to connect", []).
Proof.
  exact (proj1 (one_pass_expansion
                  [Brace "Hi|Hello"; Lit " "; Brace "name"; Lit ", ";
                   Brace "glad|happy|keen"; Lit " to connect"]
                  [1%N; 2%N] eq_refl)).
Defined.

(** The welcome line with its only variable supplied. *)
Lemma resolved_template_terminates_witness :
  process_spintax 1 "Hi {name}, {glad|happy} to connect" [("name", "Alice")]
    [1%N]
  = Some ("Hi Alice, happy to connect", [])
  /\ brace_free "Hi Alice, happy to connect" = true.
Proof.
  exact (resolved_template_terminates
           [Lit "Hi "; Brace "name"; Lit ", "; Brace "glad|happy";
            Lit " to connect"]
           [("name", "Alice")] 0 [1%N] eq_refl eq_refl eq_refl).
Defined.

(** ** The prospect store *)
Section ProspectFacts.
Import PyDict Users.

Variable md5_hexdigest : string -> string.
Variable isoformat : datetime -> string.

Lemma dict_get_set_same {V : Type} (key : string) (v : V) (d : Dict V) :
  dict_get key (dict_set key v d) = Some v.
Proof.
  induction d as [|[k w] d IH]; cbn [dict_set dict_get].
  - now rewrite String.eqb_refl.
  - destruct (String.eqb k key) eqn:E; cbn [dict_get]; now rewrite E.
Qed.

Lemma dict_get_set_other {V : Type} (key key' : string) (v : V) (d : Dict V) :
  key' <> key -> dict_get key' (dict_set key v d) = dict_get key' d.
Proof.
  intros Hne. induction d as [|[k w] d IH]; cbn [dict_set dict_get].
  - destruct (String.eqb_spec key key'); congruence.
  - destruct (String.eqb_spec k key) as [->|]; cbn [dict_get].
    + destruct (String.eqb_spec key key'); congruence.
    + now rewrite IH.
Qed.

Lemma get_prospects_set_same (user_id : string) (l : list ProspectData)
    (prospects : Prospects) :
  get_prospects user_id (dict_set user_id l prospects) = l.
Proof. unfold get_prospects. now rewrite dict_get_set_same. Qed.

Lemma get_prospects_set_other (user_id other : string) (l : list ProspectData)
    (prospects : Prospects) :
  other <> user_id ->
  get_prospects other (dict_set user_id l prospects)
  = get_prospects other prospects.
Proof.
  intros H. unfold get_prospects. now rewrite dict_get_set_other.
Qed.

Lemma emails_of_app_list (l news : list ProspectData)
    (es fresh : list Value) :
  emails_of l = Some es -> emails_of news = Some fresh ->
  emails_of (l ++ news) = Some (es ++ fresh)%list.
Proof.
  revert es. induction l as [|q l IH]; intros es Hl Hn; cbn [emails_of app] in *.
  - now injection Hl as <-.
  - destruct (dict_get "email" q) as [e'|]; [|discriminate].
    destruct (emails_of l) as [es'|]; [|discriminate].
    injection Hl as <-. now rewrite (IH es' eq_refl Hn).
Qed.

Lemma emails_of_app (l : list ProspectData) (p : ProspectData)
    (es : list Value) (e : Value) :
  emails_of l = Some es -> dict_get "email" p = Some e ->
  emails_of (l ++ [p]) = Some (es ++ [e])%list.
Proof.
  intros Hl Hp. apply emails_of_app_list; [exact Hl|].
  cbn [emails_of]. now rewrite Hp.
Qed.

Lemma in_texts (s : string) (l : list Value) : In s (texts l) <-> In (Str s) l.
Proof.
  induction l as [|[t|] l IH]; cbn [texts In].
  - tauto.
  - rewrite IH. split; intros [H|H]; auto; left; congruence.
  - rewrite IH. split; [auto | intros [H|H]; [discriminate | exact H]].
Qed.

Lemma texts_app (a b : list Value) : texts (a ++ b) = (texts a ++ texts b)%list.
Proof.
  induction a as [|[t|] a IH]; cbn [texts app]; [reflexivity | | exact IH].
  now rewrite IH.
Qed.

Lemma empty_cells_app (a b : list Value) :
  empty_cells (a ++ b) = (empty_cells a + empty_cells b)%nat.
Proof.
  induction a as [|[t|] a IH]; cbn [empty_cells app]; [reflexivity | exact IH |].
  now rewrite IH.
Qed.

Lemma emails_of_filter (keep : ProspectData -> bool) (l : list ProspectData) :
  forall es,
    emails_of l = Some es -> NoDup (texts es) ->
    exists es',
      emails_of (filter keep l) = Some es' /\ NoDup (texts es')
      /\ incl (texts es') (texts es).
Proof.
  induction l as [|q l IH]; intros es Hl Hn; cbn [emails_of filter] in *.
  - injection Hl as <-. exists []. repeat split; [constructor | easy].
  - destruct (dict_get "email" q) as [e|] eqn:Eq; [|discriminate].
    destruct (emails_of l) as [es0|]; [|discriminate].
    injection Hl as <-.
    assert (Hn0 : NoDup (texts es0)).
    { destruct e; cbn [texts] in Hn; [now inversion Hn | exact Hn]. }
    destruct (IH es0 eq_refl Hn0) as (es' & H1 & H2 & H3).
    destruct (keep q); cbn [emails_of].
    + rewrite Eq, H1. exists (e :: es'). split; [reflexivity|].
      destruct e as [s|]; cbn [texts] in *.
      * inversion Hn as [|? ? Hnotin _]; subst. split.
        -- constructor; [|exact H2]. intros Hin. apply Hnotin, H3, Hin.
        -- intros x [<-|Hx]; [now left | right; now apply H3].
      * now split.
    + exists es'. split; [exact H1|]. split; [exact H2|].
      destruct e as [s|]; cbn [texts]; [|exact H3].
      intros x Hx. right. now apply H3.
Qed.

Lemma existsb_eqb_false (e : string) (es : list string) :
  existsb (String.eqb e) es = false -> ~ In e es.
Proof.
  intros H Hin. assert (existsb (String.eqb e) es = true); [|congruence].
  apply existsb_exists. exists e. split; [exact Hin | apply String.eqb_refl].
Qed.

Lemma existsb_eqb_true (e : string) (es : list string) :
  existsb (String.eqb e) es = true -> In e es.
Proof.
  intros H. apply existsb_exists in H as (x & Hin & Hx).
  apply String.eqb_eq in Hx. now subst.
Qed.

(** [x in l] finds a text that is in the list, and never finds [nan]. *)
Lemma value_in_text (s : string) (es : list Value) :
  value_in (Str s) es = true <-> In (Str s) es.
Proof.
  unfold value_in. rewrite existsb_exists. split.
  - intros ([t|] & Hin & Heq); cbn [value_eqb] in Heq; [|discriminate].
    apply String.eqb_eq in Heq. now subst.
  - intros Hin. exists (Str s). split; [exact Hin|]. apply String.eqb_refl.
Qed.

Lemma value_in_nan (es : list Value) : value_in NaN es = false.
Proof. induction es as [|e es IH]; [reflexivity | exact IH]. Qed.

(** What [add_prospect] does to a list of prospects that all have an
    email. *)
Lemma add_prospect_cases (now : datetime) (user_id : string)
    (prospect_data : ProspectData) (prospects : Prospects)
    (es : list Value) (email : Value) :
  emails_of (get_prospects user_id prospects) = Some es ->
  dict_get "email" prospect_data = Some email ->
  (value_in email es = true
   /\ add_prospect md5_hexdigest isoformat now user_id prospect_data prospects
      = Returns (false, prospect_data, prospects))
  \/ (value_in email es = false
      /\ exists data',
          add_prospect md5_hexdigest isoformat now user_id prospect_data
                       prospects
          = Returns (true, data',
                     dict_set user_id
                       (get_prospects user_id prospects ++ [data'])%list
                       prospects)
          /\ dict_get "email" data' = Some email
          /\ dict_get "user_id" data' = Some (Str user_id)
          /\ dict_get "id" data'
             = Some (Str (substring 0 8
                            (md5_hexdigest (user_id ++ str email))))).
Proof.
  intros Hes He. unfold add_prospect. rewrite Hes, He.
  destruct (value_in email es) eqn:E.
  - left. split; reflexivity.
  - right. split; [reflexivity|].
    eexists. split; [reflexivity|].
    rewrite dict_get_set_same.
    rewrite !dict_get_set_other by discriminate.
    rewrite dict_get_set_same. now rewrite He.
Qed.

(** A new email keeps the texts of the list pairwise distinct. *)
Lemma texts_with_new (es : list Value) (email : Value) :
  NoDup (texts es) -> value_in email es = false ->
  NoDup (texts (es ++ [email])).
Proof.
  intros Hnd Hnew. rewrite texts_app. destruct email as [s|]; cbn [texts].
  - apply NoDup_app; repeat split;
      [exact Hnd | constructor; [easy | constructor] |].
    intros x Hx [<-|[]]. apply in_texts, value_in_text in Hx. congruence.
  - now rewrite app_nil_r.
Qed.

(** In every store that [add_prospect] and [delete_prospect] lead to from
    the empty one, the emails of each user's prospects that are texts are
    pairwise distinct, and each prospect carries that user's id and the id
    derived from the user and the email. On such a store [add_prospect]
    raises nothing for a prospect that has an email; it refuses a text that
    one of the user's prospects has as its email, and accepts every other
    email: so a prospect whose email is the [nan] of an empty cell is always
    appended, and any number of them can be stored for one user, all with
    the id derived from the text [nan]. *)
Theorem store_invariant :
  forall (prospects : Prospects),
    reachable md5_hexdigest isoformat prospects ->
    forall user_id : string,
      (exists es,
          emails_of (get_prospects user_id prospects) = Some es
          /\ NoDup (texts es)
          /\ forall now prospect_data email,
              dict_get "email" prospect_data = Some email ->
              exists data',
                add_prospect md5_hexdigest isoformat now user_id prospect_data
                             prospects
                = Returns
                    (if value_in email es
                     then (false, prospect_data, prospects)
                     else (true, data',
                           dict_set user_id
                             (get_prospects user_id prospects ++ [data'])%list
                             prospects))
                /\ (value_in email es = true
                    <-> exists s, email = Str s /\ In (Str s) es)
                /\ (value_in email es = false ->
                    owned_by md5_hexdigest user_id data'
                    /\ dict_get "email" data' = Some email))
      /\ Forall (owned_by md5_hexdigest user_id)
                (get_prospects user_id prospects).
Proof.
  intros prospects Hreach.
  assert (Hinv : forall user_id,
    (exists es,
        emails_of (get_prospects user_id prospects) = Some es
        /\ NoDup (texts es))
    /\ Forall (owned_by md5_hexdigest user_id)
              (get_prospects user_id prospects)).
  { induction Hreach as [|now u data prospects flag data' prospects' _ IH Hadd
                         |u pid prospects _ IH]; intros user_id.
    - split; [exists []; split; [reflexivity | constructor] | constructor].
    - destruct (IH u) as [(es & Hes & Hnd) Hown].
      assert (exists email, dict_get "email" data = Some email)
        as [email He].
      { unfold add_prospect in Hadd. rewrite Hes in Hadd.
        destruct (dict_get "email" data) as [email|]; [|discriminate].
        now exists email. }
      destruct (add_prospect_cases now u data prospects es email Hes He)
        as [[_ Hdup]|(Hnew & d & Hadded & Hd1 & Hd2 & Hd3)].
      + rewrite Hdup in Hadd. injection Hadd as _ _ <-. apply IH.
      + rewrite Hadded in Hadd. injection Hadd as _ _ <-.
        destruct (string_dec user_id u) as [->|Hne].
        * rewrite get_prospects_set_same. split.
          -- exists (es ++ [email])%list. split.
             ++ now apply emails_of_app.
             ++ now apply texts_with_new.
          -- apply Forall_app. split; [exact Hown|].
             constructor; [|constructor]. now exists email.
        * rewrite get_prospects_set_other by exact Hne. apply IH.
    - unfold delete_prospect.
      destruct (dict_get u prospects) as [l|] eqn:El; cbn [snd]; [|apply IH].
      destruct (string_dec user_id u) as [->|Hne].
      + rewrite get_prospects_set_same.
        destruct (IH u) as [(es & Hes & Hnd) Hown].
        unfold get_prospects in Hes, Hown. rewrite El in Hes, Hown.
        destruct (emails_of_filter (fun p => negb (id_is pid p)) l es Hes Hnd)
          as (es' & H1 & H2 & _).
        split; [exists es'; now split|].
        apply Forall_forall. intros p Hp. apply filter_In in Hp as [Hp _].
        rewrite Forall_forall in Hown. now apply Hown.
      + rewrite get_prospects_set_other by exact Hne. apply IH. }
  intros user_id. destruct (Hinv user_id) as [(es & Hes & Hnd) Hown].
  split; [|exact Hown].
  exists es. split; [exact Hes|]. split; [exact Hnd|].
  intros now prospect_data email He.
  assert (Hfound : value_in email es = true
                   <-> exists s, email = Str s /\ In (Str s) es).
  { split.
    - intros Hin. destruct email as [s|]; [|now rewrite value_in_nan in Hin].
      exists s. split; [reflexivity | now apply value_in_text].
    - intros (s & -> & Hin). now apply value_in_text. }
  destruct (add_prospect_cases now user_id prospect_data prospects es email
              Hes He) as [[Hold H]|(Hnew & d & H & Hd1 & Hd2 & Hd3)].
  - exists prospect_data.
    split; [now rewrite H, Hold|]. split; [exact Hfound | congruence].
  - exists d.
    split; [now rewrite H, Hnew|]. split; [exact Hfound|].
    intros _. split; [now exists email | exact Hd1].
Qed.

(** *** Uploads *)

Lemma add_rows_accounting (user_id : string) :
  forall (rows : list (datetime * Main.Row)) (added duplicates : nat)
         (prospects : Prospects) (es : list Value),
    emails_of (get_prospects user_id prospects) = Some es ->
    exists fresh news prospects',
      Main.add_rows md5_hexdigest isoformat user_id rows added duplicates
                    prospects
      = (Some ((added + List.length fresh)%nat,
               (duplicates + (List.length rows - List.length fresh))%nat),
         prospects')
      /\ (List.length fresh <= List.length rows)%nat
      /\ get_prospects user_id prospects'
         = (get_prospects user_id prospects ++ news)%list
      /\ emails_of news = Some fresh
      /\ NoDup (texts fresh)
      /\ (forall s,
            In (Str s) fresh <-> In (Str s) (row_emails rows) /\ ~ In (Str s) es)
      /\ empty_cells fresh = empty_cells (row_emails rows)
      /\ forall other,
          other <> user_id ->
          get_prospects other prospects' = get_prospects other prospects.
Proof.
  induction rows as [|[now row] rows IH]; intros added duplicates prospects es
    Hes.
  - exists [], [], prospects. cbn [Main.add_rows List.length row_emails map].
    rewrite !Nat.add_0_r, app_nil_r.
    repeat split; try easy. constructor.
  - cbn [Main.add_rows].
    assert (He : dict_get "email" (Main.prospect_of_row row)
                 = Some (Main.row_email row)) by reflexivity.
    destruct (add_prospect_cases now user_id (Main.prospect_of_row row)
                prospects es _ Hes He)
      as [[Hin ->]|(Hnew & d & -> & Hd & _)].
    + destruct (Main.row_email row) as [mail|] eqn:Email;
        [|now rewrite value_in_nan in Hin].
      apply value_in_text in Hin.
      destruct (IH added (S duplicates) prospects es Hes)
        as (fresh & news & prospects' & H1 & H2 & H3 & H4 & H5 & H6 & H7 & H8).
      exists fresh, news, prospects'. rewrite H1. cbn [List.length].
      split; [|split; [|split; [|split; [|split; [|split; [|split]]]]]];
        try assumption; try lia.
      * f_equal. f_equal. f_equal. lia.
      * intros e. split.
        -- intros Hf. apply H6 in Hf as [Hf Hn]. split; [|exact Hn].
           cbn [row_emails map snd]. now right.
        -- intros [[Hx|Hx] Hn]; apply H6; split; try assumption.
           cbn [snd] in Hx. rewrite Email in Hx. now rewrite <- Hx in Hn.
      * cbn [row_emails map snd empty_cells]. rewrite Email. exact H7.
    + set (old := get_prospects user_id prospects) in *.
      set (prospects1 := dict_set user_id (old ++ [d])%list prospects).
      assert (Hes1 : emails_of (get_prospects user_id prospects1)
                     = Some (es ++ [Main.row_email row])%list).
      { subst prospects1. rewrite get_prospects_set_same.
        now apply emails_of_app. }
      destruct (IH (S added) duplicates prospects1 _ Hes1)
        as (fresh & news & prospects' & H1 & H2 & H3 & H4 & H5 & H6 & H7 & H8).
      exists (Main.row_email row :: fresh), (d :: news), prospects'.
      rewrite H1. cbn [List.length].
      split; [|split; [|split; [|split; [|split; [|split; [|split]]]]]];
        try lia.
      * f_equal. f_equal. f_equal. lia.
      * rewrite H3. subst prospects1. rewrite get_prospects_set_same.
        now rewrite <- app_assoc.
      * cbn [emails_of]. now rewrite Hd, H4.
      * destruct (Main.row_email row) as [mail|]; cbn [texts]; [|exact H5].
        constructor; [|exact H5]. intros Hin. apply in_texts, H6 in Hin.
        destruct Hin as [_ Hin]. apply Hin, in_or_app. right. now left.
      * intros s. cbn [row_emails map snd In]. fold (row_emails rows). split.
        -- intros [Hs|Hf].
           ++ split; [now left|]. rewrite Hs in Hnew. intros Hin.
              apply value_in_text in Hin. congruence.
           ++ apply H6 in Hf as [Hf Hn]. split; [now right|].
              intros Hin. apply Hn, in_or_app. now left.
        -- intros [Hx Hn].
           assert (Hdec : Main.row_email row = Str s
                          \/ Main.row_email row <> Str s).
           { destruct (Main.row_email row) as [m|]; [|right; discriminate].
             destruct (string_dec m s) as [->|];
               [now left | right; congruence]. }
           destruct Hdec as [Heq|Hneq]; [now left|]. right. apply H6. split.
           ++ destruct Hx as [Hx|Hx]; [contradiction | exact Hx].
           ++ intros Hin. apply in_app_or in Hin as [Hin|[Hin|[]]];
                [contradiction | congruence].
      * cbn [row_emails map snd empty_cells]. fold (row_emails rows).
        destruct (Main.row_email row); [exact H7 | now rewrite H7].
      * intros other Hne. rewrite (H8 other Hne). subst prospects1.
        now apply get_prospects_set_other.
Qed.

(** An upload to a user whose stored prospects all have an email: the
    rows whose email is a text that is new (neither stored already nor met
    earlier in the upload) and all the rows whose email cell is empty are
    appended in order, one prospect each; [added] counts them and
    [duplicates] the other rows, so that the two add up to the number of
    rows; the prospects stored before keep their place, and no other user's
    list changes. *)
Theorem upload_accounting :
  forall (user_id : string) (rows : list (datetime * Main.Row))
         (prospects : Prospects) (es : list Value),
    emails_of (get_prospects user_id prospects) = Some es ->
    exists fresh news prospects',
      Main.add_rows md5_hexdigest isoformat user_id rows 0 0 prospects
      = (Some (List.length fresh,
               (List.length rows - List.length fresh)%nat),
         prospects')
      /\ (List.length fresh <= List.length rows)%nat
      /\ get_prospects user_id prospects'
         = (get_prospects user_id prospects ++ news)%list
      /\ emails_of news = Some fresh
      /\ NoDup (texts fresh)
      /\ (forall s,
            In (Str s) fresh
            <-> In (Str s) (row_emails rows) /\ ~ In (Str s) es)
      /\ empty_cells fresh = empty_cells (row_emails rows)
      /\ forall other,
          other <> user_id ->
          get_prospects other prospects' = get_prospects other prospects.
Proof.
  intros user_id rows prospects es Hes.
  destruct (add_rows_accounting user_id rows 0 0 prospects es Hes)
    as (fresh & news & prospects' & H1 & H2 & H3 & H4 & H5 & H6 & H7 & H8).
  exists fresh, news, prospects'. cbn [Nat.add] in H1.
  exact (conj H1 (conj H2 (conj H3 (conj H4 (conj H5 (conj H6 (conj H7 H8))))))).
Qed.

(** *** Deleting *)

Lemma find_filter_out (prospect_id : option string) (l : list ProspectData) :
  find (id_is prospect_id)
       (filter (fun p => negb (id_is prospect_id p)) l) = None.
Proof.
  induction l as [|p l IH]; [reflexivity|]. cbn [filter].
  destruct (id_is prospect_id p) eqn:E; cbn [negb find]; [exact IH|].
  now rewrite E.
Qed.

Lemma id_is_exclusive (a b : option string) (p : ProspectData) :
  a <> b -> id_is a p = true -> id_is b p = false.
Proof.
  unfold id_is. intros Hne.
  destruct (dict_get "id" p) as [[i|]|], a as [x|], b as [y|];
    try discriminate; try reflexivity; try congruence.
  intros H. apply String.eqb_eq in H. subst.
  destruct (String.eqb_spec x y); congruence.
Qed.

Lemma find_filter_other (a b : option string) (l : list ProspectData) :
  a <> b ->
  find (id_is b) (filter (fun p => negb (id_is a p)) l) = find (id_is b) l.
Proof.
  intros Hne. induction l as [|p l IH]; [reflexivity|]. cbn [filter find].
  destruct (id_is a p) eqn:E; cbn [negb find].
  - now rewrite (id_is_exclusive a b p Hne E).
  - now rewrite IH.
Qed.

(** After [delete_prospect] no prospect of that user is found under the
    deleted id, whatever the number of prospects that had it; every other
    id of the user is found as before, and so is every id of every other
    user. The flag returned tells whether the user had a list at all, not
    whether anything was deleted. *)
Theorem lookup_after_delete :
  forall (user_id : string) (prospect_id : option string)
         (prospects : Prospects),
    let (flag, prospects') := delete_prospect user_id prospect_id prospects in
    get_prospect_by_id user_id prospect_id prospects' = None
    /\ (forall other_id,
          other_id <> prospect_id ->
          get_prospect_by_id user_id other_id prospects'
          = get_prospect_by_id user_id other_id prospects)
    /\ (forall other other_id,
          other <> user_id ->
          get_prospect_by_id other other_id prospects'
          = get_prospect_by_id other other_id prospects)
    /\ (flag = true <-> dict_get user_id prospects <> None).
Proof.
  intros user_id prospect_id prospects. unfold delete_prospect.
  destruct (dict_get user_id prospects) as [l|] eqn:El.
  - unfold get_prospect_by_id. rewrite get_prospects_set_same.
    repeat split; try easy.
    + apply find_filter_out.
    + intros other_id Hne. unfold get_prospects. rewrite El.
      now apply find_filter_other.
    + intros other other_id Hne. now rewrite get_prospects_set_other.
  - unfold get_prospect_by_id, get_prospects. rewrite El.
    repeat split; try easy.
Qed.

End ProspectFacts.

(** The store after two prospects with an empty email cell were added for
    the user u3: both are stored, with the same email and the same id. *)
Lemma store_invariant_witness :
  let prospect :=
    [("email", PyDict.NaN); ("id", PyDict.Str "u3nan");
     ("added_at", PyDict.Str "T"); ("user_id", PyDict.Str "u3")] in
  Users.emails_of (Users.get_prospects "u3" [("u3", [prospect; prospect])])
  = Some [PyDict.NaN; PyDict.NaN]
  /\ exists es,
      Users.emails_of (Users.get_prospects "u3" [("u3", [prospect; prospect])])
      = Some es
      /\ NoDup (texts es)
      /\ Forall (owned_by (fun s => s) "u3")
                (Users.get_prospects "u3" [("u3", [prospect; prospect])]).
Proof.
  intros prospect. split; [reflexivity|].
  destruct (store_invariant (fun s => s) (fun _ => "T")
              [("u3", [prospect; prospect])]
              (reach_add (fun s => s) (fun _ => "T") 1 "u3"
                 [("email", PyDict.NaN)] [("u3", [prospect])] true _ _
                 (reach_add (fun s => s) (fun _ => "T") 0 "u3"
                    [("email", PyDict.NaN)] [] true _ _
                    (reach_empty _ _) eq_refl)
                 eq_refl)
              "u3") as [(es & Hes & Hnd & _) Hown].
  exists es. split; [exact Hes|]. split; [exact Hnd | exact Hown].
Defined.

(** Two rows with the same email and two rows with an empty email cell,
    uploaded to an empty store: three prospects are added and one row is a
    duplicate. *)
Lemma upload_accounting_witness :
  let rows :=
    [(0, Main.mkRow (PyDict.Str "Ann") (PyDict.Str "a@x.io") (PyDict.Str "CTO")
                    (PyDict.Str "Acme") (PyDict.Str ""));
     (1, Main.mkRow (PyDict.Str "Bob") (PyDict.Str "a@x.io") (PyDict.Str "CEO")
                    (PyDict.Str "Acme") (PyDict.Str ""));
     (2, Main.mkRow (PyDict.Str "Cy") PyDict.NaN PyDict.NaN
                    (PyDict.Str "Acme") (PyDict.Str ""));
     (3, Main.mkRow (PyDict.Str "Di") PyDict.NaN PyDict.NaN
                    (PyDict.Str "Acme") (PyDict.Str ""))] in
  fst (Main.add_rows (fun s => s) (fun _ => "T") "u1" rows 0 0 [])
  = Some (3%nat, 1%nat)
  /\ exists fresh news prospects',
      Main.add_rows (fun s => s) (fun _ => "T") "u1" rows 0 0 []
      = (Some (List.length fresh, (4 - List.length fresh)%nat), prospects')
      /\ Users.get_prospects "u1" prospects' = news
      /\ Users.emails_of news = Some fresh
      /\ NoDup (texts fresh)
      /\ empty_cells fresh = 2%nat.
Proof.
  intros rows. split; [reflexivity|].
  destruct (upload_accounting (fun s => s) (fun _ => "T") "u1" rows [] []
              eq_refl)
    as (fresh & news & prospects' & H1 & _ & H3 & H4 & H5 & _ & H7 & _).
  exists fresh, news, prospects'.
  split; [exact H1|]. split; [exact H3|]. split; [exact H4|].
  split; [exact H5 | exact H7].
Defined.

(** ** Job signals *)
Section MatchScore.
Import Scoring JobsScraper.
Open Scope Q_scope.

Lemma fold_bonus (m : list string) (l : list string) :
  forall score,
    fold_left (bonus m) l score
    = Nat.iter (List.length (filter (fun hv => existsb (String.eqb hv) m) l))
               bump score.
Proof.
  induction l as [|hv l IH]; intros score; [reflexivity|].
  cbn [fold_left filter]. rewrite IH. unfold bonus.
  destruct (existsb (String.eqb hv) m); [|reflexivity].
  cbn [List.length]. now rewrite Nat.iter_succ_r.
Qed.

Lemma round2_compat (x y : Q) : x == y -> round2 x = round2 y.
Proof.
  intros E. unfold round2, round_half_even.
  assert (E100 : x * 100 == y * 100) by now rewrite E.
  rewrite (Qfloor_comp _ _ E100).
  assert (Ec : (x * 100 - inject_Z (Qfloor (y * 100)) ?= 1 # 2)
               = (y * 100 - inject_Z (Qfloor (y * 100)) ?= 1 # 2)).
  { apply Qcompare_comp; [now rewrite E100 | reflexivity]. }
  now rewrite Ec.
Qed.

Lemma pymin_cap (a b : Q) : b <= a -> pymin a b == b.
Proof.
  intros H. unfold pymin. destruct (Qgtb a b) eqn:E; [reflexivity|].
  apply Qgtb_false in E. apply Qnot_lt_le in E. now apply Qle_antisym.
Qed.

Lemma iter_bump_cap (j : nat) (score : Q) :
  score == 1 -> Nat.iter j bump score == 1.
Proof.
  intros H. induction j as [|j IH]; [exact H|].
  change (Nat.iter (S j) bump score) with (bump (Nat.iter j bump score)).
  unfold bump at 1. rewrite pymin_cap; [reflexivity | rewrite IH; lra].
Qed.

Lemma inject_nat_ge (k n : nat) :
  (n <= k)%nat -> inject_Z (Z.of_nat n) <= inject_Z (Z.of_nat k).
Proof. intros H. rewrite <- Zle_Qle. lia. Qed.

(** The loop over [high_value] and the rounding, in closed form. *)
Lemma score_closed_form (k j : nat) :
  k <> 0%nat -> (j <= 6)%nat ->
  round2 (Nat.iter j bump (pymin (inject_Z (Z.of_nat k) * 0.25) 1.0))
  == capped_score k j.
Proof.
  intros Hk Hj.
  destruct (le_lt_dec 4 k) as [H4|H4].
  - pose proof (inject_nat_ge k 4 H4) as Hq.
    change (inject_Z (Z.of_nat 4)) with 4 in Hq.
    assert (Hj0 : 0 <= inject_Z (Z.of_nat j)).
    { change 0 with (inject_Z 0). rewrite <- Zle_Qle. lia. }
    rewrite (round2_compat _ 1).
    + unfold capped_score. rewrite pymin_cap; [reflexivity | nra].
    + apply iter_bump_cap. rewrite pymin_cap; [reflexivity | lra].
  - destruct k as [|[|[|[|k]]]]; try lia; try congruence;
      destruct j as [|[|[|[|[|[|[|j]]]]]]]; try lia;
      vm_compute; reflexivity.
Qed.

Lemma keyword_counts (text : string) :
  (bonus_hits text <= keyword_hits text)%nat /\ (bonus_hits text <= 6)%nat.
Proof.
  unfold bonus_hits, keyword_hits. split.
  - apply NoDup_incl_length.
    + apply NoDup_filter. unfold high_value.
      repeat (constructor; [cbn; intuition discriminate|]). constructor.
    + intros hv Hin. apply filter_In in Hin as [_ Hin].
      apply existsb_exists in Hin as (x & Hx & E).
      apply String.eqb_eq in E. now subst.
  - change 6%nat with (List.length high_value). apply filter_length_le.
Qed.

Lemma capped_score_range (k j : nat) : 0 <= capped_score k j <= 1.
Proof.
  unfold capped_score. split; [|apply pymin_le_r].
  assert (0 <= inject_Z (Z.of_nat k)).
  { change 0 with (inject_Z 0). rewrite <- Zle_Qle. lia. }
  assert (0 <= inject_Z (Z.of_nat j)).
  { change 0 with (inject_Z 0). rewrite <- Zle_Qle. lia. }
  apply pymin_ge; lra.
Qed.

Lemma match_score_keywords (text : string) :
  snd (_calculate_match_score text) = matched text.
Proof. unfold _calculate_match_score. now destruct (matched text). Qed.

Lemma match_score_zero (text : string) :
  keyword_hits text = 0%nat -> fst (_calculate_match_score text) = 0.
Proof.
  unfold _calculate_match_score, keyword_hits.
  destruct (matched text); [reflexivity | discriminate].
Qed.

Lemma score_of_matches (m : list string) :
  m <> [] ->
  fst match m with
      | [] => (0, [])
      | _ :: _ =>
          (round2
             (fold_left (bonus m) high_value
                (pymin (inject_Z (Z.of_nat (List.length m)) * 0.25) 1.0)),
           m)
      end
  == capped_score (List.length m)
       (List.length (filter (fun hv => existsb (String.eqb hv) m) high_value)).
Proof.
  intros Hm. destruct m as [|kw rest]; [congruence|].
  cbn [fst]. rewrite fold_bonus. apply score_closed_form; [discriminate|].
  change 6%nat with (List.length high_value). apply filter_length_le.
Qed.

Lemma match_score_closed (text : string) :
  keyword_hits text <> 0%nat ->
  fst (_calculate_match_score text)
  == capped_score (keyword_hits text) (bonus_hits text).
Proof.
  intros Hk. unfold _calculate_match_score, keyword_hits, bonus_hits in *.
  cbv zeta. apply score_of_matches. intros E. now rewrite E in Hk.
Qed.

(** The match score of a text with [k] target keywords, [j] of them of
    high value, is 0 when [k] is 0 and otherwise 0.25 k + 0.15 j capped at
    1: the bonus loop and the rounding to two decimals change nothing else.
    The keywords returned are those found, in the order of the list. *)
Theorem match_score_value :
  forall text : string,
    (bonus_hits text <= keyword_hits text)%nat
    /\ snd (_calculate_match_score text) = matched text
    /\ (keyword_hits text = 0%nat -> fst (_calculate_match_score text) = 0)
    /\ (keyword_hits text <> 0%nat ->
        fst (_calculate_match_score text)
        == capped_score (keyword_hits text) (bonus_hits text))
    /\ 0 <= fst (_calculate_match_score text) <= 1.
Proof.
  intros text. destruct (keyword_counts text) as [Hjk _].
  split; [exact Hjk|]. split; [apply match_score_keywords|].
  split; [apply match_score_zero|]. split; [apply match_score_closed|].
  destruct (Nat.eq_dec (keyword_hits text) 0) as [H0|H0].
  - rewrite (match_score_zero text H0). lra.
  - rewrite (match_score_closed text H0). apply capped_score_range.
Qed.

(** *** The RSS scan *)

Variable isoformat : Emailer.datetime -> string.

Lemma capped_above_half (k j : nat) :
  (j <= k)%nat ->
  (1 # 2 < capped_score k j
   <-> (3 <= k)%nat \/ (k = 2%nat /\ (1 <= j)%nat)).
Proof.
  intros Hjk. unfold capped_score, pymin.
  set (x := inject_Z (Z.of_nat k) * 0.25 + inject_Z (Z.of_nat j) * 0.15).
  assert (Hx : 1 # 2 < x <-> (50 < 25 * Z.of_nat k + 15 * Z.of_nat j)%Z).
  { subst x. rewrite Zlt_Qlt, inject_Z_plus, !inject_Z_mult.
    change (inject_Z 50) with 50. change (inject_Z 25) with 25.
    change (inject_Z 15) with 15. split; intros H; lra. }
  destruct (Qgtb x 1) eqn:E.
  - apply Qgtb_true in E. split; [|intros _; lra]. intros _.
    assert (1 # 2 < x) as H by lra. apply Hx in H. lia.
  - rewrite Hx. lia.
Qed.

Lemma signal_of_entry_spec (company : string) (now : Emailer.datetime)
    (entry : Entry) :
  signal_of_entry isoformat company (now, entry)
  = if Qgtb (fst (_calculate_match_score (entry_text entry))) 0.5
    then Some (mkJobSignal company (entry_title entry) (entry_link entry)
                 (matched (entry_text entry))
                 (fst (_calculate_match_score (entry_text entry)))
                 (isoformat now) "rss"
                 (substring 0 200 (entry_description entry)) None)
    else None.
Proof.
  unfold signal_of_entry. fold (entry_text entry).
  pose proof (match_score_keywords (entry_text entry)) as Hs.
  destruct (_calculate_match_score (entry_text entry)) as [m kws].
  cbn [fst snd] in *. now subst.
Qed.

Lemma above_half_iff (text : string) :
  Qgtb (fst (_calculate_match_score text)) 0.5 = true <-> enough_hits text.
Proof.
  destruct (keyword_counts text) as [Hjk _].
  pose proof (match_score_zero text) as H0.
  pose proof (match_score_closed text) as Hval.
  rewrite Qgtb_true. unfold enough_hits.
  destruct (Nat.eq_dec (keyword_hits text) 0) as [E|E].
  - rewrite (H0 E), E. split; [intros H; lra | lia].
  - rewrite (Hval E). rewrite <- (capped_above_half _ _ Hjk).
    split; intros H; lra.
Qed.

Lemma capped_at_least (k j : nat) :
  (3 <= k)%nat \/ (k = 2%nat /\ (1 <= j)%nat) ->
  0.65 <= capped_score k j <= 1.
Proof.
  intros H. split; [|apply capped_score_range].
  unfold capped_score. apply pymin_ge; [|lra].
  assert (H1 : (65 <= 25 * Z.of_nat k + 15 * Z.of_nat j)%Z) by lia.
  rewrite Zle_Qle, inject_Z_plus, !inject_Z_mult in H1.
  change (inject_Z 65) with 65 in H1. change (inject_Z 25) with 25 in H1.
  change (inject_Z 15) with 15 in H1. lra.
Qed.

Lemma keyword_hits_length (text : string) :
  List.length (matched text) = keyword_hits text.
Proof. reflexivity. Qed.

Lemma made_signal_facts (company : string) (now : Emailer.datetime)
    (entry : Entry) :
  enough_hits (entry_text entry) ->
  0.65 <= fst (_calculate_match_score (entry_text entry)) <= 1
  /\ company = company
  /\ (2 <= List.length (matched (entry_text entry)))%nat
  /\ @None string = None.
Proof.
  intros He. rewrite keyword_hits_length.
  assert (Hk : keyword_hits (entry_text entry) <> 0%nat).
  { destruct He as [He|[He _]]; lia. }
  split; [|repeat split; destruct He as [He|[He _]]; lia].
  rewrite (match_score_closed (entry_text entry) Hk).
  apply capped_at_least. exact He.
Qed.

(** The RSS scan makes a signal of an entry exactly when the entry is among
    the first twenty of the feed and its title and description hold three
    target keywords, or two of which one is of high value: one keyword is
    never enough, and neither are two ordinary ones. Every signal it makes
    has a match score of at least 0.65 and at most 1, carries the company
    scanned, and has no id yet. *)
Theorem rss_scan_signals :
  forall (company : string) (entries : list (Emailer.datetime * Entry)),
    (List.length (_scan_rss_feed isoformat company entries) <= 20)%nat
    /\ (forall signal,
          In signal (_scan_rss_feed isoformat company entries)
          <-> exists now entry,
              In (now, entry) (firstn 20 entries)
              /\ enough_hits (entry_text entry)
              /\ signal
                 = mkJobSignal company (entry_title entry)
                     (entry_link entry) (matched (entry_text entry))
                     (fst (_calculate_match_score (entry_text entry)))
                     (isoformat now) "rss"
                     (substring 0 200 (entry_description entry)) None)
    /\ Forall (fun signal =>
                 0.65 <= match_score signal <= 1
                 /\ JobsScraper.company signal = company
                 /\ (2 <= List.length (keywords signal))%nat
                 /\ id signal = None)
              (_scan_rss_feed isoformat company entries).
Proof.
  intros company entries.
  assert (Hin : forall signal,
    In signal (_scan_rss_feed isoformat company entries)
    <-> exists now entry,
        In (now, entry) (firstn 20 entries)
        /\ enough_hits (entry_text entry)
        /\ signal
           = mkJobSignal company (entry_title entry)
               (entry_link entry) (matched (entry_text entry))
               (fst (_calculate_match_score (entry_text entry)))
               (isoformat now) "rss"
               (substring 0 200 (entry_description entry)) None).
  { intros signal. unfold _scan_rss_feed. rewrite in_flat_map. split.
    - intros ([now entry] & Hd & Hs). rewrite signal_of_entry_spec in Hs.
      destruct (Qgtb _ 0.5) eqn:E; [|destruct Hs].
      destruct Hs as [<-|[]]. exists now, entry.
      split; [exact Hd|]. split; [now apply above_half_iff | reflexivity].
    - intros (now & entry & Hd & He & ->). exists (now, entry).
      split; [exact Hd|]. rewrite signal_of_entry_spec.
      apply above_half_iff in He. rewrite He. now left. }
  split; [|split; [exact Hin|]].
  - unfold _scan_rss_feed.
    assert (Hlen : (List.length (firstn 20 entries) <= 20)%nat)
      by apply firstn_le_length.
    revert Hlen. generalize (firstn 20 entries) as l. generalize 20%nat.
    intros n l. revert n. induction l as [|d l IH]; intros n Hn; cbn [flat_map].
    + cbn. lia.
    + cbn [List.length] in Hn. rewrite length_app.
      specialize (IH (n - 1)%nat ltac:(lia)).
      destruct (signal_of_entry isoformat company d); cbn [List.length]; lia.
  - apply Forall_forall. intros signal Hs.
    apply Hin in Hs as (now & entry & _ & He & ->).
    exact (made_signal_facts company now entry He).
Qed.

End MatchScore.

(** ** The signal store *)
Section SignalStore.
Import PyDict JobsScraper.

Variable md5_hexdigest : string -> string.

Lemma company_signals_set_same (c : string) (l : list JobSignal)
    (db : SignalsDb) :
  company_signals c (dict_set c l db) = l.
Proof. unfold company_signals. now rewrite dict_get_set_same. Qed.

Lemma company_signals_set_other (c other : string) (l : list JobSignal)
    (db : SignalsDb) :
  other <> c -> company_signals other (dict_set c l db) = company_signals other db.
Proof. intros H. unfold company_signals. now rewrite dict_get_set_other. Qed.

Lemma ids_of_app (l news : list JobSignal) (ids fresh : list string) :
  ids_of l = Some ids -> ids_of news = Some fresh ->
  ids_of (l ++ news) = Some (ids ++ fresh)%list.
Proof.
  revert ids. induction l as [|s l IH]; intros ids Hl Hn; cbn [ids_of app] in *.
  - now injection Hl as <-.
  - destruct (id s) as [i|]; [|discriminate].
    destruct (ids_of l) as [ids'|]; [|discriminate].
    injection Hl as <-. now rewrite (IH ids' eq_refl Hn).
Qed.

Lemma ids_of_app_inv (l news : list JobSignal) (all : list string) :
  ids_of (l ++ news) = Some all ->
  exists ids fresh,
    ids_of l = Some ids /\ ids_of news = Some fresh
    /\ all = (ids ++ fresh)%list.
Proof.
  revert all. induction l as [|s l IH]; intros all H; cbn [ids_of app] in *.
  - exists [], all. now repeat split.
  - destruct (id s) as [i|]; [|discriminate].
    destruct (ids_of (l ++ news)) as [rest|] eqn:E; [|discriminate].
    injection H as <-. destruct (IH rest eq_refl) as (ids & fresh & H1 & H2 & ->).
    exists (i :: ids), fresh. rewrite H1. now repeat split.
Qed.

(** What one turn of the loop does when it does not raise. *)
Lemma store_signal_effect (db db' : SignalsDb) (s : JobSignal) :
  store_signal md5_hexdigest db s = Returns db' ->
  exists ids,
    ids_of (company_signals (company s) db) = Some ids
    /\ ((In (signal_id md5_hexdigest s) ids /\ db' = db)
        \/ (~ In (signal_id md5_hexdigest s) ids
            /\ company_signals (company s) db'
               = (company_signals (company s) db
                  ++ [set_id (signal_id md5_hexdigest s) s])%list))
    /\ forall other,
        other <> company s ->
        company_signals other db' = company_signals other db.
Proof.
  unfold store_signal. cbn [company set_id].
  set (c := company s). set (i := signal_id md5_hexdigest s).
  destruct (dict_get c db) as [l|] eqn:El.
  - assert (Hl : company_signals c db = l).
    { unfold company_signals. now rewrite El. }
    rewrite Hl. destruct (ids_of l) as [ids|]; [|discriminate].
    intros H. exists ids. split; [reflexivity|].
    destruct (existsb (String.eqb i) ids) eqn:E; injection H as <-.
    + split; [|reflexivity]. left. split; [|reflexivity].
      now apply existsb_eqb_true.
    + split.
      * right. split; [now apply existsb_eqb_false|].
        now rewrite company_signals_set_same.
      * intros other Hne. now apply company_signals_set_other.
  - assert (Hl : company_signals c db = []).
    { unfold company_signals. now rewrite El. }
    rewrite company_signals_set_same. cbn [ids_of existsb app].
    intros H. injection H as <-. exists []. rewrite Hl.
    split; [reflexivity|]. split.
    + right. split; [easy|]. now rewrite company_signals_set_same.
    + intros other Hne. now rewrite !company_signals_set_other.
Qed.

Lemma holds_id_nonempty (db : SignalsDb) (c i : string) :
  holds_id db c i -> exists l, dict_get c db = Some l.
Proof.
  intros (ids & H & Hin). unfold company_signals in H.
  destruct (dict_get c db) as [l|]; [now exists l|].
  cbn in H. injection H as <-. destruct Hin.
Qed.

(** A signal whose id the store holds for its company changes nothing. *)
Lemma store_signal_known (db : SignalsDb) (s : JobSignal) :
  holds_id db (company s) (signal_id md5_hexdigest s) ->
  store_signal md5_hexdigest db s = Returns db.
Proof.
  intros H. destruct (holds_id_nonempty _ _ _ H) as [l El].
  destruct H as (ids & Hids & Hin).
  unfold store_signal. cbn [company set_id]. rewrite El, Hids.
  assert (existsb (String.eqb (signal_id md5_hexdigest s)) ids = true) as ->;
    [|reflexivity].
  apply existsb_exists. exists (signal_id md5_hexdigest s).
  split; [exact Hin | apply String.eqb_refl].
Qed.

Lemma set_id_id (i : string) (s : JobSignal) : id (set_id i s) = Some i.
Proof. reflexivity. Qed.

Lemma store_signal_holds (db db' : SignalsDb) (s : JobSignal) :
  store_signal md5_hexdigest db s = Returns db' ->
  holds_id db' (company s) (signal_id md5_hexdigest s)
  /\ (forall c i, holds_id db c i -> holds_id db' c i)
  /\ (forall c, exists news,
         company_signals c db' = (company_signals c db ++ news)%list)
  /\ (forall c ids,
         ids_of (company_signals c db) = Some ids -> NoDup ids ->
         exists ids', ids_of (company_signals c db') = Some ids' /\ NoDup ids').
Proof.
  intros H. apply store_signal_effect in H as (ids & Hids & Hcase & Hother).
  destruct Hcase as [[Hin ->]|[Hnotin Hnew]].
  - split; [now exists ids|]. split; [easy|]. split.
    + intros c. exists []. now rewrite app_nil_r.
    + intros c ids0 H0 Hn. now exists ids0.
  - assert (Hids' : ids_of (company_signals (company s) db')
                    = Some (ids ++ [signal_id md5_hexdigest s])%list).
    { rewrite Hnew. now apply ids_of_app. }
    split; [|split; [|split]].
    + exists (ids ++ [signal_id md5_hexdigest s])%list.
      split; [exact Hids'|]. apply in_or_app. right. now left.
    + intros c i (ids0 & H0 & Hin0).
      destruct (string_dec c (company s)) as [->|Hne].
      * rewrite Hids in H0. injection H0 as <-.
        exists (ids ++ [signal_id md5_hexdigest s])%list.
        split; [exact Hids'|]. apply in_or_app. now left.
      * exists ids0. now rewrite (Hother c Hne).
    + intros c. destruct (string_dec c (company s)) as [->|Hne].
      * eexists. exact Hnew.
      * exists []. now rewrite app_nil_r, (Hother c Hne).
    + intros c ids0 H0 Hn.
      destruct (string_dec c (company s)) as [->|Hne].
      * rewrite Hids in H0. injection H0 as <-.
        exists (ids ++ [signal_id md5_hexdigest s])%list.
        split; [exact Hids'|].
        apply NoDup_app; repeat split;
          [exact Hn | constructor; [easy | constructor] |].
        intros x Hx [<-|[]]. contradiction.
      * exists ids0. now rewrite (Hother c Hne).
Qed.

Lemma store_signals_known (new_signals : list JobSignal) (db : SignalsDb) :
  Forall (fun s => holds_id db (company s) (signal_id md5_hexdigest s))
         new_signals ->
  _store_signals md5_hexdigest new_signals db = Returns db.
Proof.
  induction 1 as [|s rest Hs _ IH]; cbn [_store_signals]; [reflexivity|].
  now rewrite (store_signal_known db s Hs).
Qed.

Lemma store_signals_holds (new_signals : list JobSignal) :
  forall db db',
    _store_signals md5_hexdigest new_signals db = Returns db' ->
    Forall (fun s => holds_id db' (company s) (signal_id md5_hexdigest s))
           new_signals
    /\ (forall c i, holds_id db c i -> holds_id db' c i)
    /\ (forall c, exists news,
           company_signals c db' = (company_signals c db ++ news)%list)
    /\ (forall c ids,
           ids_of (company_signals c db) = Some ids -> NoDup ids ->
           exists ids',
             ids_of (company_signals c db') = Some ids' /\ NoDup ids').
Proof.
  induction new_signals as [|s rest IH]; intros db db' H;
    cbn [_store_signals] in H.
  - injection H as <-. split; [constructor|]. split; [easy|]. split.
    + intros c. exists []. now rewrite app_nil_r.
    + intros c ids H0 Hn. now exists ids.
  - destruct (store_signal md5_hexdigest db s) as [db1|] eqn:E1;
      [|discriminate].
    destruct (store_signal_holds db db1 s E1) as (A1 & A2 & A3 & A4).
    destruct (IH db1 db' H) as (B1 & B2 & B3 & B4).
    split; [|split; [|split]].
    + constructor; [now apply B2 | exact B1].
    + intros c i Hc. now apply B2, A2.
    + intros c. destruct (A3 c) as [n1 E3]. destruct (B3 c) as [n2 E4].
      exists (n1 ++ n2)%list. now rewrite E4, E3, app_assoc.
    + intros c ids H0 Hn. destruct (A4 c ids H0 Hn) as (ids1 & H1 & Hn1).
      now apply (B4 c ids1).
Qed.

(** A run of [_store_signals] that does not raise only appends: every
    list of the store keeps what it held, in place; ids that were pairwise
    distinct within a company stay so; afterwards every signal of the batch
    is held under its id, and storing the same batch again changes nothing,
    so a posting met on a later scan keeps the timestamp of its first
    sighting. *)
Theorem store_signals_idempotent :
  forall (new_signals : list JobSignal) (db db' : SignalsDb),
    _store_signals md5_hexdigest new_signals db = Returns db' ->
    _store_signals md5_hexdigest new_signals db' = Returns db'
    /\ Forall (fun s => holds_id db' (company s) (signal_id md5_hexdigest s))
              new_signals
    /\ (forall c, exists news,
           company_signals c db' = (company_signals c db ++ news)%list)
    /\ (forall c ids,
           ids_of (company_signals c db) = Some ids -> NoDup ids ->
           exists ids',
             ids_of (company_signals c db') = Some ids' /\ NoDup ids').
Proof.
  intros new_signals db db' H.
  destruct (store_signals_holds new_signals db db' H) as (H1 & _ & H3 & H4).
  split; [now apply store_signals_known|].
  split; [exact H1|]. split; [exact H3 | exact H4].
Qed.

End SignalStore.

(** ** The newest signals of a company *)
Section NewestFirst.
Import PyDict JobsScraper.

Lemma leb_cons (c1 c2 : ascii) (s1 s2 : string) :
  String.leb (String c1 s1) (String c2 s2) = true
  <-> (N_of_ascii c1 < N_of_ascii c2)%N
      \/ (c1 = c2 /\ String.leb s1 s2 = true).
Proof.
  unfold String.leb. cbn [String.compare]. unfold Ascii.compare.
  destruct (N.compare_spec (N_of_ascii c1) (N_of_ascii c2)) as [E|L|G].
  - assert (c1 = c2).
    { rewrite <- (ascii_N_embedding c1), <- (ascii_N_embedding c2).
      now rewrite E. }
    split; [intros H0; right; now split | intros [H0|[_ H0]]; [lia | exact H0]].
  - split; [now left | reflexivity].
  - split; [discriminate|]. intros [H|[-> _]]; lia.
Qed.

Lemma leb_refl (s : string) : String.leb s s = true.
Proof.
  induction s as [|c s IH]; [reflexivity|]. apply leb_cons. right. now split.
Qed.

Lemma leb_trans (s1 s2 s3 : string) :
  String.leb s1 s2 = true -> String.leb s2 s3 = true ->
  String.leb s1 s3 = true.
Proof.
  revert s2 s3. induction s1 as [|c1 s1 IH]; intros [|c2 s2] [|c3 s3];
    try reflexivity; try discriminate.
  rewrite !leb_cons. intros [H12|[-> H12]] [H23|[-> H23]].
  - left. lia.
  - now left.
  - now left.
  - right. split; [reflexivity|]. now apply (IH s2).
Qed.

Lemma not_ltb_leb (a b : string) : String.ltb a b = false -> String.leb b a = true.
Proof.
  unfold String.ltb, String.leb. rewrite (String.compare_antisym b a).
  now destruct (String.compare a b).
Qed.

Lemma ltb_leb (a b : string) : String.ltb a b = true -> String.leb a b = true.
Proof. unfold String.ltb, String.leb. now destruct (String.compare a b). Qed.

Lemma in_firstn {A : Type} (n : nat) (l : list A) (x : A) :
  In x (firstn n l) -> In x l.
Proof.
  intros H. rewrite <- (firstn_skipn n l). apply in_or_app. now left.
Qed.

Lemma insert_signal_in (x : JobSignal) (l : list JobSignal) (s : JobSignal) :
  In s (insert_signal x l) <-> s = x \/ In s l.
Proof.
  induction l as [|y l IH]; cbn [insert_signal].
  - cbn. intuition congruence.
  - destruct (String.ltb (timestamp y) (timestamp x)); cbn [In].
    + intuition congruence.
    + rewrite IH. intuition congruence.
Qed.

Lemma insert_signal_length (x : JobSignal) (l : list JobSignal) :
  List.length (insert_signal x l) = S (List.length l).
Proof.
  induction l as [|y l IH]; cbn [insert_signal]; [reflexivity|].
  destruct (String.ltb (timestamp y) (timestamp x)); cbn [List.length];
    [reflexivity | now rewrite IH].
Qed.

Lemma insert_signal_sorted (x : JobSignal) (l : list JobSignal) :
  StronglySorted not_older l -> StronglySorted not_older (insert_signal x l).
Proof.
  induction 1 as [|y l Hl IH Hy]; cbn [insert_signal].
  - constructor; constructor.
  - destruct (String.ltb (timestamp y) (timestamp x)) eqn:E.
    + constructor; [now constructor|]. constructor.
      * unfold not_older. now apply ltb_leb.
      * rewrite Forall_forall in *. intros z Hz. unfold not_older in *.
        apply (leb_trans _ (timestamp y)); [now apply Hy | now apply ltb_leb].
    + constructor; [exact IH|]. rewrite Forall_forall in *.
      intros z Hz. apply insert_signal_in in Hz as [->|Hz].
      * unfold not_older. now apply not_ltb_leb.
      * now apply Hy.
Qed.

Lemma sort_from (l acc : list JobSignal) :
  StronglySorted not_older acc ->
  let r := fold_left (fun sorted x => insert_signal x sorted) l acc in
  StronglySorted not_older r
  /\ List.length r = (List.length acc + List.length l)%nat
  /\ forall s, In s r <-> In s acc \/ In s l.
Proof.
  revert acc. induction l as [|x l IH]; intros acc Hacc; cbn [fold_left].
  - split; [exact Hacc|]. split; [cbn; lia|]. cbn. intuition.
  - destruct (IH (insert_signal x acc) (insert_signal_sorted x acc Hacc))
      as (H1 & H2 & H3).
    split; [exact H1|]. split.
    + rewrite H2, insert_signal_length. cbn [List.length]. lia.
    + intros s. rewrite H3, insert_signal_in. cbn [In]. intuition congruence.
Qed.

(** [get_company_signals] returns signals stored for the company, newest
    first by the order of their timestamp strings, as many of them as the
    limit allows; so the [signals[0]] that the routes take as the latest
    signal has a timestamp that no stored signal of the company exceeds. *)
Theorem newest_signals_first :
  forall (company : string) (limit : nat) (db : SignalsDb),
    StronglySorted not_older (get_company_signals company limit db)
    /\ List.length (get_company_signals company limit db)
       = Nat.min limit (List.length (company_signals company db))
    /\ (forall s,
          In s (get_company_signals company limit db) ->
          In s (company_signals company db))
    /\ (forall latest s,
          hd_error (get_company_signals company limit db) = Some latest ->
          In s (company_signals company db) ->
          not_older latest s).
Proof.
  intros company limit db. unfold get_company_signals, company_signals.
  destruct (dict_get company db) as [signals|].
  - destruct (sort_from signals [] (SSorted_nil _)) as (H1 & H2 & H3).
    cbv zeta in *. fold (sort_newest_first signals) in *.
    cbn [List.length Nat.add In] in *.
    set (sorted := sort_newest_first signals) in *. clearbody sorted.
    split; [|split; [|split]].
    + clear H2 H3. revert limit.
      induction H1 as [|y l Hl IH Hy]; intros [|limit]; cbn [firstn];
        try constructor.
      * apply IH.
      * rewrite Forall_forall in *. intros z Hz. apply Hy.
        now apply (in_firstn limit l).
    + now rewrite length_firstn, H2.
    + intros s Hs. apply in_firstn in Hs. apply H3 in Hs. tauto.
    + intros latest s Hhd Hs.
      assert (Hin : In s sorted) by (apply H3; now right).
      destruct limit as [|limit]; [discriminate|].
      destruct sorted as [|y l]; [destruct Hin|].
      cbn [firstn hd_error] in Hhd. injection Hhd as <-.
      destruct Hin as [<-|Hin].
      * unfold not_older. apply leb_refl.
      * inversion H1 as [|? ? _ Hy]; subst.
        rewrite Forall_forall in Hy. now apply Hy.
  - cbn. repeat split; try easy; [constructor | now rewrite Nat.min_0_r].
Qed.

End NewestFirst.

(** The same posting met twice in one batch, stored into an empty store. *)
Lemma store_signals_idempotent_witness :
  JobsScraper._store_signals (fun s => s)
    [JobsScraper.mkJobSignal "Acme" "QA Lead" "http://x" ["QA"; "Testing"]
       0.65 "2026-11-01T09:00:00" "rss" "" None;
     JobsScraper.mkJobSignal "Acme" "QA Lead" "http://x" ["QA"; "Testing"]
       0.65 "2026-11-02T09:00:00" "rss" "" None]
    [("Acme",
      [JobsScraper.mkJobSignal "Acme" "QA Lead" "http://x" ["QA"; "Testing"]
         0.65 "2026-11-01T09:00:00" "rss" "" (Some "AcmeQA L")])]
  = PyDict.Returns
      [("Acme",
        [JobsScraper.mkJobSignal "Acme" "QA Lead" "http://x" ["QA"; "Testing"]
           0.65 "2026-11-01T09:00:00" "rss" "" (Some "AcmeQA L")])].
Proof.
  exact (proj1 (store_signals_idempotent (fun s => s)
    [JobsScraper.mkJobSignal "Acme" "QA Lead" "http://x" ["QA"; "Testing"]
       0.65 "2026-11-01T09:00:00" "rss" "" None;
     JobsScraper.mkJobSignal "Acme" "QA Lead" "http://x" ["QA"; "Testing"]
       0.65 "2026-11-02T09:00:00" "rss" "" None]
    [] _ eq_refl)).
Defined.

(** ** The plain template *)
Section PlainTemplate.
Import PyDict Templates.
















End PlainTemplate.


(** ** The enhanced sequences *)
Section EnhancedFacts.
Import PyDict TrustStoryBuilder.

(** *** The greeting *)

Lemma first_word_none (s : string) :
  first_word s = None <-> all_space s = true.
Proof.
  induction s as [|c s IH]; cbn [first_word all_space]; [easy|].
  destruct (is_space_char c); cbn [andb]; [exact IH | easy].
Qed.

Lemma greeting_cases (prospect : Dict string) :
  greeting_name prospect
  = if blank_name prospect then Raised IndexError
    else Ok (first_name prospect).
Proof.
  unfold greeting_name, blank_name, first_name.
  destruct (dict_get "name" prospect) as [name|]; [|reflexivity].
  destruct (Scoring.truthy name); cbn [andb]; [|reflexivity].
  destruct (first_word name) as [first|] eqn:E.
  - destruct (all_space name) eqn:A; [|reflexivity].
    apply first_word_none in A. congruence.
  - apply first_word_none in E. now rewrite E.
Qed.

(** *** The story sequence *)

Lemma story_email_ok (prospect : Dict string)
    (signal : option JobsScraper.JobSignal) (step : Z) (step_name : string) :
  blank_name prospect = false ->
  _generate_story_email step step_name prospect signal
  = Ok (mkEmail (subject (story_email 0 prospect step step_name))
                (body (story_email 0 prospect step step_name))
                None None None None None None).
Proof.
  intros Hb. unfold _generate_story_email. rewrite greeting_cases, Hb.
  unfold story_email. cbn [subject body].
  now destruct (story_texts step _ _ _).
Qed.

Lemma story_emails_ok (prospect : Dict string)
    (signal : option JobsScraper.JobSignal) (num_steps : Z) :
  blank_name prospect = false ->
  forall steps i,
    story_emails i steps num_steps prospect signal
    = Ok (story_list i steps num_steps prospect).
Proof.
  intros Hb. induction steps as [|[step_name description] rest IH]; intros i;
    cbn [story_emails story_list]; [reflexivity|].
  rewrite (story_email_ok prospect signal (i + 1) step_name Hb), IH.
  reflexivity.
Qed.

Lemma storybuild_cases (prospect : Dict string)
    (signal : option JobsScraper.JobSignal) (include_optional_step : bool) :
  generate_storybuild_sequence prospect signal include_optional_step
  = if blank_name prospect then Raised IndexError
    else Ok (story_list 0
               (firstn (if include_optional_step then 7 else 6) story_steps)
               (if include_optional_step then 7 else 6) prospect).
Proof.
  unfold generate_storybuild_sequence. rewrite greeting_cases.
  destruct (blank_name prospect) eqn:Hb; [reflexivity|].
  rewrite story_emails_ok by exact Hb. now destruct include_optional_step.
Qed.



(** *** What a replacement leaves of the end of a text *)

Lemma last_char_mem (o : string) (c : ascii) :
  last_char o = Some c -> mem_char c o = true.
Proof.
  induction o as [|a o IH]; [discriminate|]. cbn [last_char mem_char].
  destruct o as [|b o].
  - intros H. injection H as ->. unfold char_eqb.
    now rewrite Ascii.eqb_refl.
  - intros H. rewrite (IH H). apply orb_true_r.
Qed.

Lemma prefix_chars (o : string) :
  forall u c,
    prefix o u = true -> mem_char c o = true -> mem_char c u = true.
Proof.
  induction o as [|a o IH]; intros [|d u] c; cbn [prefix mem_char];
    try discriminate.
  destruct (ascii_dec a d) as [<-|]; [|discriminate].
  intros Hp Hm. apply orb_true_iff in Hm as [Hm|Hm].
  - now rewrite Hm.
  - rewrite (IH u c Hp Hm). apply orb_true_r.
Qed.

Lemma prefix_without_last (o t : string) (c : ascii) :
  last_char o = Some c -> mem_char c t = false -> prefix o t = false.
Proof.
  intros Hl Hm. destruct (prefix o t) eqn:E; [|reflexivity].
  rewrite (prefix_chars o t c E (last_char_mem o c Hl)) in Hm. discriminate.
Qed.

Lemma prefix_app_tail (t : string) (c : ascii) :
  mem_char c t = false ->
  forall o u, last_char o = Some c -> prefix o (u ++ t) = prefix o u.
Proof.
  intros Hm. induction o as [|a o IH]; intros u Hl; [discriminate|].
  destruct u as [|d u].
  - cbn [append]. rewrite (prefix_without_last _ t c Hl Hm). reflexivity.
  - cbn [append prefix]. destruct (ascii_dec a d); [|reflexivity].
    destruct o as [|b o]; [now rewrite !prefix_empty|].
    apply IH. exact Hl.
Qed.

Lemma contains_without_last (o t : string) (c : ascii) :
  last_char o = Some c -> mem_char c t = false -> contains o t = false.
Proof.
  intros Hl. induction t as [|d t IH]; intros Hm; cbn [contains].
  - now apply (prefix_without_last o "" c).
  - rewrite (prefix_without_last o _ c Hl Hm). cbn [orb]. apply IH.
    cbn [mem_char] in Hm. now apply orb_false_iff in Hm as [_ Hm].
Qed.

Lemma replace_from_tail (old new t : string) (c : ascii) :
  last_char old = Some c -> mem_char c t = false ->
  forall s skip,
    (skip <= String.length s)%nat ->
    replace_from old new skip (s ++ t) = replace_from old new skip s ++ t.
Proof.
  intros Hl Hm. induction s as [|d s IH]; intros skip Hs.
  - cbn [String.length] in Hs. assert (skip = 0)%nat as -> by lia.
    cbn [append replace_from]. apply replace_from_absent.
    now apply (contains_without_last old t c).
  - destruct skip as [|k].
    + change (replace_from old new 0 (String d s ++ t))
        with (if prefix old (String d s ++ t)
              then new ++ replace_from old new (String.length old - 1) (s ++ t)
              else String d (replace_from old new 0 (s ++ t))).
      change (replace_from old new 0 (String d s))
        with (if prefix old (String d s)
              then new ++ replace_from old new (String.length old - 1) s
              else String d (replace_from old new 0 s)).
      rewrite (prefix_app_tail t c Hm old (String d s) Hl).
      destruct (prefix old (String d s)) eqn:E.
      * apply prefix_length in E. cbn [String.length] in E.
        rewrite IH by lia. now rewrite string_app_assoc.
      * rewrite IH by lia. reflexivity.
    + cbn [append replace_from]. apply IH. cbn [String.length] in Hs. lia.
Qed.

(** A replacement whose pattern ends in a character that the end of the
    text does not hold leaves that end in place. *)
Lemma replace_keeps_end (old new s t : string) (c : ascii) :
  last_char old = Some c -> mem_char c t = false ->
  ends_with t s -> ends_with t (replace old new s).
Proof.
  intros Hl Hm [front ->]. unfold replace.
  destruct old as [|a old]; [discriminate|].
  rewrite (replace_from_tail _ new t c Hl Hm) by lia.
  now eexists.
Qed.

Lemma last_char_app (a : string) (c : ascii) :
  last_char (a ++ String c "") = Some c.
Proof.
  induction a as [|x a IH]; [reflexivity|]. cbn [append last_char].
  rewrite IH. destruct (a ++ String c "") eqn:E; [|reflexivity].
  destruct a; discriminate.
Qed.

Lemma ends_with_app (t p s : string) : ends_with t s -> ends_with t (p ++ s).
Proof.
  intros [front ->]. exists (p ++ front). now rewrite string_app_assoc.
Qed.

Lemma ends_with_check (t s : string) :
  String.eqb (substring 0 (String.length s - String.length t) s ++ t) s = true ->
  ends_with t s.
Proof. intros H. apply String.eqb_eq in H. eexists. symmetry. exact H. Qed.

Ltac closes_with_placeholder :=
  repeat apply ends_with_app; apply ends_with_check; reflexivity.

Lemma story_body_end (step : Z) (name role company : string) :
  ends_with sender_placeholder (snd (story_texts step name role company)).
Proof.
  unfold story_texts.
  repeat match goal with
         | |- context [match ?x with _ => _ end] => destruct x
         end;
    cbn [snd];
    unfold story_body_1, story_body_2, story_body_3, story_body_4,
      story_body_5, story_body_6, story_body_7;
    closes_with_placeholder.
Qed.

Lemma story_list_flags (prospect : Dict string) (num_steps : Z) :
  forall steps i,
    Forall (fun email =>
              trustbuild_enabled email = None
              /\ trust_anchor_used email = None)
           (story_list i steps num_steps prospect).
Proof.
  induction steps as [|[step_name description] rest IH]; intros i;
    cbn [story_list]; constructor; [now split | apply IH].
Qed.

Lemma story_list_end (prospect : Dict string) (num_steps : Z) :
  forall steps i,
    Forall (fun email => ends_with sender_placeholder (body email))
           (story_list i steps num_steps prospect).
Proof.
  induction steps as [|[step_name description] rest IH]; intros i;
    cbn [story_list]; constructor; [|apply IH].
  unfold story_email. cbn [body]. apply story_body_end.
Qed.

(** *** The anchors *)

Variable list_of_set : list string -> list string.

Lemma no_prospect_profile (rep_profile : option Scoring.Profile) :
  find_trust_anchors list_of_set rep_profile None = mkAnchors [] [] [].
Proof. now destruct rep_profile. Qed.

(** *** The trust email *)

Lemma trustbuild_email_cases (prospect : Dict string) (anchors : Anchors)
    (signal : option JobsScraper.JobSignal) (g : Rng) :
  if blank_name prospect then
    fst (generate_trustbuild_email prospect anchors signal g)
    = Raised IndexError
  else
    exists subject body,
      fst (generate_trustbuild_email prospect anchors signal g)
      = Ok (mkEmail subject body None None None None (Some true)
                    (Some (any_anchor anchors)))
      /\ ends_with sender_placeholder body.
Proof.
  unfold generate_trustbuild_email.
  destruct (generate_trustbuild_opening anchors prospect signal g)
    as [opening g1].
  rewrite greeting_cases. destruct (blank_name prospect); [reflexivity|].
  destruct (choice EmptyString _ g1) as [insight g2].
  destruct (choice EmptyString _ g2) as [subject g3].
  cbn [fst]. eexists. eexists. split; [reflexivity|].
  closes_with_placeholder.
Qed.

(** *** The combined sequence *)

Lemma enhance_ok (anchors : Anchors) (prospect : Dict string)
    (signal : option JobsScraper.JobSignal) (first : bool) (email : Email)
    (g : Rng) :
  blank_name prospect = false ->
  exists body' g',
    enhance anchors prospect signal first email g
    = (Ok (mkEmail (subject email) body' (storybuild_enabled email)
                   (story_step email) (story_step_name email)
                   (total_steps email) (Some true)
                   (Some (any_anchor anchors))), g')
    /\ (ends_with sender_placeholder (body email) ->
        ends_with sender_placeholder body').
Proof.
  intros Hb. unfold enhance. destruct first.
  - destruct (generate_trustbuild_opening anchors prospect signal g)
      as [opening g0].
    rewrite greeting_cases, Hb.
    destruct (choice EmptyString executive_outcomes g0) as [outcome g2].
    eexists. eexists. split; [reflexivity|]. intros H.
    match goal with
    | |- ends_with _ (if negb (contains _ ?b) then _ else _) =>
        assert (H1 : ends_with sender_placeholder b)
    end.
    { apply (replace_keeps_end _ _ _ _ ","%char); [|reflexivity | exact H].
      rewrite <- string_app_assoc. apply last_char_app. }
    destruct (negb _); [|exact H1].
    now apply (replace_keeps_end _ _ _ _ ","%char).
  - destruct (choice EmptyString executive_outcomes g) as [outcome g2].
    eexists. eexists. split; [reflexivity|]. intros H.
    destruct (negb _); [|exact H].
    now apply (replace_keeps_end _ _ _ _ ","%char).
Qed.

Lemma enhance_all_ok (anchors : Anchors) (prospect : Dict string)
    (signal : option JobsScraper.JobSignal) :
  blank_name prospect = false ->
  forall sequence first g,
    exists sequence' g',
      enhance_all anchors prospect signal first sequence g
      = (Ok sequence', g')
      /\ List.length sequence' = List.length sequence
      /\ Forall (fun email =>
                   trustbuild_enabled email = Some true
                   /\ trust_anchor_used email = Some (any_anchor anchors))
                sequence'
      /\ (Forall (fun email => ends_with sender_placeholder (body email))
                 sequence ->
          Forall (fun email => ends_with sender_placeholder (body email))
                 sequence').
Proof.
  intros Hb. induction sequence as [|email rest IH]; intros first g;
    cbn [enhance_all].
  - exists [], g. repeat split; constructor.
  - destruct (enhance_ok anchors prospect signal first email g Hb)
      as (body' & g1 & -> & Hend).
    destruct (IH false g1) as (rest' & g2 & -> & Hlen & Hflags & Hends).
    eexists. eexists. split; [reflexivity|]. cbn [List.length].
    split; [now rewrite Hlen|]. split.
    + constructor; [now split | exact Hflags].
    + intros H. inversion H as [|? ? H1 H2]; subst.
      constructor; [now apply Hend | now apply Hends].
Qed.

(** *** What the engine returns in the enhanced modes *)

Lemma enhanced_cases (prospect : Dict string)
    (signal : option JobsScraper.JobSignal) (trustbuild storybuild : bool)
    (rep_profile : option Scoring.Profile) (g : Rng) :
  trustbuild || storybuild = true ->
  if blank_name prospect then
    fst (Templates._generate_enhanced_sequence list_of_set prospect signal
           trustbuild storybuild rep_profile g)
    = Raised IndexError
  else
    exists sequence,
      fst (Templates._generate_enhanced_sequence list_of_set prospect signal
             trustbuild storybuild rep_profile g)
      = Ok sequence
      /\ List.length sequence = (if storybuild then 7 else 1)%nat
      /\ Forall (fun email =>
                   trustbuild_enabled email
                   = (if trustbuild then Some true else None)
                   /\ trust_anchor_used email
                      = (if trustbuild then Some false else None))
                sequence
      /\ Forall (fun email => ends_with sender_placeholder (body email))
                sequence.
Proof.
  intros Hmode. unfold Templates._generate_enhanced_sequence.
  destruct trustbuild, storybuild; try discriminate; cbn [andb].
  - unfold generate_combined_sequence.
    rewrite no_prospect_profile, storybuild_cases.
    destruct (blank_name prospect) eqn:Hb; [reflexivity|].
    destruct (enhance_all_ok (mkAnchors [] [] []) prospect signal Hb
                (story_list 0 (firstn 7 story_steps) 7 prospect) true g)
      as (sequence & g' & -> & Hlen & Hflags & Hends).
    exists sequence. cbn [fst]. split; [reflexivity|].
    split; [exact Hlen|]. split; [exact Hflags|].
    apply Hends, story_list_end.
  - rewrite no_prospect_profile.
    pose proof (trustbuild_email_cases prospect (mkAnchors [] [] []) signal g)
      as H.
    destruct (generate_trustbuild_email prospect (mkAnchors [] [] []) signal g)
      as [r g'].
    cbn [fst] in H. destruct (blank_name prospect).
    + now rewrite H.
    + destruct H as (subject & body & -> & Hend). eexists. cbn [fst].
      split; [reflexivity|]. split; [reflexivity|]. split.
      * constructor; [split; reflexivity | constructor].
      * constructor; [exact Hend | constructor].
  - cbn [fst]. rewrite storybuild_cases.
    destruct (blank_name prospect); [reflexivity|].
    eexists. split; [reflexivity|]. split; [reflexivity|]. split.
    + apply story_list_flags.
    + apply story_list_end.
Qed.


(** Every email that the engine returns in an enhanced mode ends with the
    line [[Your name]]: the place of the sender's name is never filled, in
    the combined mode no more than in the others, where the two
    replacements leave the end of the body alone. *)
Theorem sender_placeholder_stays :
  forall (prospect : Dict string) (signal : option JobsScraper.JobSignal)
         (trustbuild storybuild : bool)
         (rep_profile : option Scoring.Profile) (g : Rng)
         (sequence : list Email),
    fst (Templates._generate_enhanced_sequence list_of_set prospect signal
           trustbuild storybuild rep_profile g)
    = Ok sequence ->
    Forall (fun email => ends_with sender_placeholder (body email)) sequence.
Proof.
  intros prospect signal trustbuild storybuild rep_profile g sequence Hok.
  destruct (trustbuild || storybuild) eqn:Hmode.
  - pose proof (enhanced_cases prospect signal trustbuild storybuild
                  rep_profile g Hmode) as H.
    destruct (blank_name prospect); [congruence|].
    destruct H as (sequence' & H1 & _ & _ & H4).
    rewrite H1 in Hok. now injection Hok as <-.
  - apply orb_false_iff in Hmode as [-> ->].
    cbn in Hok. injection Hok as <-. constructor.
Qed.

End EnhancedFacts.



(** The trust email for a prospect with a name. *)
Lemma sender_placeholder_stays_witness :
  Forall (fun email =>
            ends_with sender_placeholder (TrustStoryBuilder.body email))
         match fst (Templates._generate_enhanced_sequence (fun l => l)
                      [("name", "Ann Lee"); ("company", "Acme")] None
                      true true None [1; 2; 3; 4; 5; 6; 7; 8; 9]%N) with
         | TrustStoryBuilder.Ok sequence => sequence
         | TrustStoryBuilder.Raised _ => []
         end.
Proof.
  apply (sender_placeholder_stays (fun l => l)
           [("name", "Ann Lee"); ("company", "Acme")] None true true None
           [1; 2; 3; 4; 5; 6; 7; 8; 9]%N).
  vm_compute. reflexivity.
Defined.
